(** * FASTCLIPPER: keyframe recording, interpolation, selection zoom and
      export-parameter construction

    A shallow embedding of the editor core of the extension:

    - [src/editor/frameRecorder.js]          (class [FrameRecorder])
    - [src/components/editor/selectionController.js]
                                             (class [SelectionController])
    - [src/components/editor/editorConstants.js] ([EDITOR_CONSTANTS])
    - the [VideoRenderer.render] filter builder.

    Conventions.

    - A JavaScript number is a finite number and is represented by an exact
      rational ([Qc], canonical fractions, so that [=] is the [===] of two
      finite numbers).  Rounding, [NaN] and the infinities are outside the
      model.
    - A JavaScript [Map] keeps its entries in insertion order; it is an
      association list in that order, [set] on a present key keeps the
      position of the entry.
    - A method of a class is a function from the object's state to a
      completion: a normal return with a value, or a thrown error, each with
      the state the call has left behind.
    - [Date.now()] is an argument [now] of the methods that read the clock.
    - [Logger.info] calls and canvas painting ([drawSelection]) have no effect
      on the modelled state and are left out. *)

From Stdlib Require Import QArith Qcanon Lqa ZArith.
From stdpp Require Import base tactics option list numbers sorting strings.

Local Open Scope Qc_scope.

(** ** Numbers *)

(** The decimal literal [n / d]. *)
Definition frac (n : Z) (d : positive) : Qc := Q2Qc (n # d).

(** [Math.max] and [Math.min] on two finite numbers. *)
Definition Math_max (a b : Qc) : Qc := if decide (a ≤ b) then b else a.
Definition Math_min (a b : Qc) : Qc := if decide (a ≤ b) then a else b.

(** [v || d] on a number: [0] is the only falsy finite number. *)
Definition or_default (v d : Qc) : Qc := if decide (v = 0) then d else v.

(** ** Completions and methods *)

Inductive JsError :=
  | TypeError (msg : string)
  | Error (msg : string)
  | InvalidState (msg : string).

#[global] Instance JsError_eq_dec : EqDecision JsError.
Proof. solve_decision. Defined.

Inductive Completion (S A : Type) :=
  | Normal (v : A) (st : S)
  | Throw (e : JsError) (st : S).
Arguments Normal {S A} v st.
Arguments Throw {S A} e st.

#[global] Instance Completion_eq_dec {St A : Type}
  `{!EqDecision St, !EqDecision A} : EqDecision (Completion St A).
Proof. solve_decision. Defined.

Definition Method (S A : Type) : Type := S → Completion S A.

Definition ret {S A} (a : A) : Method S A := λ st, Normal a st.

Definition bind {S A B} (m : Method S A) (k : A → Method S B) : Method S B :=
  λ st, match m st with
        | Normal a st' => k a st'
        | Throw e st' => Throw e st'
        end.

Definition throw {S A} (e : JsError) : Method S A := λ st, Throw e st.
Definition get_state {S} : Method S S := λ st, Normal st st.
Definition modify {S} (f : S → S) : Method S unit := λ st, Normal tt (f st).

Notation "'let*' x ':=' m 'in' k" := (bind m (λ x, k))
  (at level 10, x name, m at level 100, k at level 200).
Notation "m ';;' k" := (bind m (λ _, k))
  (at level 100, k at level 200, right associativity).

(** ** [Map] keyed by numbers, in insertion order *)

Abbreviation JsMap V := (list (Qc * V)).

Module JsMap.
Section ops.
Context {V : Type}.

Fixpoint get (k : Qc) (m : JsMap V) : option V :=
  match m with
  | [] => None
  | (k', v) :: m' => if decide (k' = k) then Some v else get k m'
  end.

Definition has (k : Qc) (m : JsMap V) : bool :=
  match get k m with Some _ => true | None => false end.

Fixpoint set (k : Qc) (v : V) (m : JsMap V) : JsMap V :=
  match m with
  | [] => [(k, v)]
  | (k', v') :: m' =>
      if decide (k' = k) then (k', v) :: m' else (k', v') :: set k v m'
  end.

Definition delete (k : Qc) (m : JsMap V) : JsMap V :=
  filter (λ e, e.1 ≠ k) m.

Definition clear (m : JsMap V) : JsMap V := [].
Definition keys (m : JsMap V) : list Qc := m.*1.
Definition values (m : JsMap V) : list V := m.*2.
Definition size (m : JsMap V) : nat := length m.

(** What the runtime guarantees of a [Map]: no key occurs twice. *)
Definition wf (m : JsMap V) : Prop := NoDup (keys m).
End ops.
End JsMap.

(** ** [EDITOR_CONSTANTS] (editorConstants.js) *)

Module Canvas.
Record t := mk {
  LANDSCAPE_ASPECT_RATIO : Qc;
  PORTRAIT_ASPECT_RATIO : Qc;
  MAX_WIDTH : Qc;
  MAX_HEIGHT : Qc;
  PREVIEW_WIDTH : Qc;
  PREVIEW_HEIGHT : Qc
}.

#[global] Instance eq_dec : EqDecision t.
Proof. solve_decision. Defined.
End Canvas.

Module SelectionCfg.
Record t := mk {
  MIN_WIDTH : Qc;
  MIN_HEIGHT : Qc;
  DEFAULT_WIDTH_PERCENT : Qc;
  DEFAULT_HEIGHT_PERCENT : Qc;
  BORDER_WIDTH : Qc;
  BORDER_COLOR : string;
  HANDLE_SIZE : Qc;
  ZOOM_SENSITIVITY : Qc;
  MIN_ZOOM : Qc;
  MAX_ZOOM : Qc
}.

#[global] Instance eq_dec : EqDecision t.
Proof. solve_decision. Defined.
End SelectionCfg.

Module RecordingCfg.
Record t := mk {
  KEYFRAME_INTERVAL : Qc;
  AUTO_KEYFRAME : bool;
  SMOOTHING : bool;
  EXPORT_FORMAT : string;
  EXPORT_QUALITY : Qc
}.

#[global] Instance eq_dec : EqDecision t.
Proof. solve_decision. Defined.
End RecordingCfg.

(** The sections the modelled classes read.  [RECORDING] is read through
    [?.] in frameRecorder.js and may be absent. *)
Module Constants.
Record t := mk {
  CANVAS : Canvas.t;
  SELECTION : SelectionCfg.t;
  RECORDING : option RecordingCfg.t
}.

#[global] Instance eq_dec : EqDecision t.
Proof. solve_decision. Defined.
End Constants.

Definition EDITOR_CONSTANTS : Constants.t :=
  {| Constants.CANVAS :=
       {| Canvas.LANDSCAPE_ASPECT_RATIO := frac 16 9;
          Canvas.PORTRAIT_ASPECT_RATIO := frac 9 16;
          Canvas.MAX_WIDTH := frac 800 1;
          Canvas.MAX_HEIGHT := frac 450 1;
          Canvas.PREVIEW_WIDTH := frac 270 1;
          Canvas.PREVIEW_HEIGHT := frac 480 1 |};
     Constants.SELECTION :=
       {| SelectionCfg.MIN_WIDTH := frac 50 1;
          SelectionCfg.MIN_HEIGHT := frac 50 1;
          SelectionCfg.DEFAULT_WIDTH_PERCENT := frac 4 10;
          SelectionCfg.DEFAULT_HEIGHT_PERCENT := frac 7 10;
          SelectionCfg.BORDER_WIDTH := frac 3 1;
          SelectionCfg.BORDER_COLOR := "#00D4FF";
          SelectionCfg.HANDLE_SIZE := frac 12 1;
          SelectionCfg.ZOOM_SENSITIVITY := frac 1 10;
          SelectionCfg.MIN_ZOOM := frac 3 10;
          SelectionCfg.MAX_ZOOM := frac 3 1 |};
     Constants.RECORDING :=
       Some {| RecordingCfg.KEYFRAME_INTERVAL := frac 33 1;
               RecordingCfg.AUTO_KEYFRAME := true;
               RecordingCfg.SMOOTHING := true;
               RecordingCfg.EXPORT_FORMAT := "webm";
               RecordingCfg.EXPORT_QUALITY := frac 1 1 |} |}.

(** ** Selections and keyframes *)

(** A selection object.  [getSelectionData] of the selection controller adds
    a wall-clock [timestamp] to the five geometric fields; the object built by
    [interpolateSelection] has the five fields only. *)
Module Selection.
Record t := mk {
  x : Qc;
  y : Qc;
  width : Qc;
  height : Qc;
  zoom : Qc;
  timestamp : option Z
}.

#[global] Instance eq_dec : EqDecision t.
Proof. solve_decision. Defined.
End Selection.

Module Keyframe.
Record t := mk {
  timestamp : Qc;
  selection : Selection.t;
  recordedAt : Z
}.

#[global] Instance eq_dec : EqDecision t.
Proof. solve_decision. Defined.
End Keyframe.

(** ** [FrameRecorder] (frameRecorder.js) *)

Module FrameRecorder.

(** The [detail.type] and [detail.data] of a [frameRecorderEvent]. *)
Inductive EventData :=
  | started
  | stopped (totalKeyframes : nat) (duration : Qc)
  | keyframe (kf : Keyframe.t)
  | keyframeDeleted (timestamp : Qc)
  | keyframesCleared
  | keyframesImported (importedCount : nat).

Record Event := mkEvent { detail : EventData; timestamp : Z }.

#[global] Instance EventData_eq_dec : EqDecision EventData.
Proof. solve_decision. Defined.
#[global] Instance Event_eq_dec : EqDecision Event.
Proof. solve_decision. Defined.

(** The fields of a recorder, and the events it has dispatched on the
    document so far (latest last).  [recordingInterval] is a timer handle or
    [null]; a handle is truthy unless it is [0]. *)
Record state := mkState {
  isRecording : bool;
  keyframes : JsMap Keyframe.t;
  currentTime : Qc;
  videoDuration : Qc;
  recordingInterval : option Z;
  lastKeyframeTime : Qc;
  constants : Constants.t;
  dispatched : list Event
}.

Abbreviation M := (Method state).

(** [constructor()], with [window.EDITOR_CONSTANTS] as [c]. *)
Definition new (c : Constants.t) : state :=
  {| isRecording := false;
     keyframes := [];
     currentTime := 0;
     videoDuration := 0;
     recordingInterval := None;
     lastKeyframeTime := 0;
     constants := c;
     dispatched := [] |}.

Definition set_keyframes (m : JsMap Keyframe.t) (st : state) : state :=
  {| isRecording := isRecording st;
     keyframes := m;
     currentTime := currentTime st;
     videoDuration := videoDuration st;
     recordingInterval := recordingInterval st;
     lastKeyframeTime := lastKeyframeTime st;
     constants := constants st;
     dispatched := dispatched st |}.

Definition emitRecordingEvent (now : Z) (data : EventData) : M unit :=
  modify (λ st,
    {| isRecording := isRecording st;
       keyframes := keyframes st;
       currentTime := currentTime st;
       videoDuration := videoDuration st;
       recordingInterval := recordingInterval st;
       lastKeyframeTime := lastKeyframeTime st;
       constants := constants st;
       dispatched := dispatched st ++ [mkEvent data now] |}).

Definition startRecording (now : Z) (duration : Qc) : M unit :=
  let* this := get_state in
  if isRecording this then ret tt else
  modify (λ st,
    {| isRecording := true;
       keyframes := JsMap.clear (keyframes st);
       currentTime := 0;
       videoDuration := duration;
       recordingInterval := recordingInterval st;
       lastKeyframeTime := 0;
       constants := constants st;
       dispatched := dispatched st |}) ;;
  emitRecordingEvent now started.

Definition stopRecording (now : Z) : M unit :=
  let* this := get_state in
  if negb (isRecording this) then ret tt else
  modify (λ st,
    {| isRecording := false;
       keyframes := keyframes st;
       currentTime := currentTime st;
       videoDuration := videoDuration st;
       recordingInterval :=
         match recordingInterval st with
         | Some id => if decide (id = 0%Z) then Some id else None
         | None => None
         end;
       lastKeyframeTime := lastKeyframeTime st;
       constants := constants st;
       dispatched := dispatched st |}) ;;
  let* this := get_state in
  emitRecordingEvent now
    (stopped (JsMap.size (keyframes this)) (videoDuration this)).

(** [this.constants.RECORDING?.KEYFRAME_INTERVAL / 1000 || 0.033]: an
    absent section gives [NaN], which is falsy like [0]. *)
Definition minInterval (c : Constants.t) : Qc :=
  match Constants.RECORDING c with
  | Some r => or_default (RecordingCfg.KEYFRAME_INTERVAL r / frac 1000 1) (frac 33 1000)
  | None => frac 33 1000
  end.

Definition recordKeyframe (now : Z) (timestamp : Qc)
    (selectionData : Selection.t) : M unit :=
  let* this := get_state in
  if negb (isRecording this) then ret tt else
  if bool_decide (timestamp < 0) || bool_decide (videoDuration this < timestamp)
  then ret tt else
  let timeDiff := timestamp - lastKeyframeTime this in
  if bool_decide (timeDiff < minInterval (constants this))
     && JsMap.has (lastKeyframeTime this) (keyframes this)
  then ret tt else
  let kf := {| Keyframe.timestamp := timestamp;
               Keyframe.selection := selectionData;
               Keyframe.recordedAt := now |} in
  modify (λ st,
    {| isRecording := isRecording st;
       keyframes := JsMap.set timestamp kf (keyframes st);
       currentTime := timestamp;
       videoDuration := videoDuration st;
       recordingInterval := recordingInterval st;
       lastKeyframeTime := timestamp;
       constants := constants st;
       dispatched := dispatched st |}) ;;
  emitRecordingEvent now (keyframe kf).

Definition updateTime (timestamp : Qc) : M unit :=
  modify (λ st,
    {| isRecording := isRecording st;
       keyframes := keyframes st;
       currentTime := timestamp;
       videoDuration := videoDuration st;
       recordingInterval := recordingInterval st;
       lastKeyframeTime := lastKeyframeTime st;
       constants := constants st;
       dispatched := dispatched st |}).

Definition getKeyframeAt (timestamp : Qc) : M (option Keyframe.t) :=
  let* this := get_state in
  ret (JsMap.get timestamp (keyframes this)).

Definition lerp (start end_ progress : Qc) : Qc :=
  start + (end_ - start) * progress.

Definition easeInOut (t : Qc) : Qc :=
  if decide (t < frac 1 2) then frac 2 1 * t * t
  else - frac 1 1 + (frac 4 1 - frac 2 1 * t) * t.

(** [this.constants.RECORDING?.SMOOTHING ? ... : ...] *)
Definition smoothing (c : Constants.t) : bool :=
  match Constants.RECORDING c with
  | Some r => RecordingCfg.SMOOTHING r
  | None => false
  end.

Definition interpolateSelection (c : Constants.t)
    (selection1 selection2 : Selection.t) (time1 time2 currentTime : Qc)
    : Selection.t :=
  let progress := (currentTime - time1) / (time2 - time1) in
  let easedProgress := if smoothing c then easeInOut progress else progress in
  {| Selection.x := lerp (Selection.x selection1) (Selection.x selection2) easedProgress;
     Selection.y := lerp (Selection.y selection1) (Selection.y selection2) easedProgress;
     Selection.width :=
       lerp (Selection.width selection1) (Selection.width selection2) easedProgress;
     Selection.height :=
       lerp (Selection.height selection1) (Selection.height selection2) easedProgress;
     Selection.zoom :=
       lerp (Selection.zoom selection1) (Selection.zoom selection2) easedProgress;
     Selection.timestamp := None |}.

(** [Array.prototype.sort((a, b) => a - b)]. *)
Definition sort_numbers (l : list Qc) : list Qc := merge_sort Qcle l.

(** The scanning loop of [getInterpolatedSelection] from index [i] on,
    with the current [beforeIndex]; it returns [(beforeIndex, afterIndex)].
    [afterIndex] is [-1] until the iteration that sets it and leaves the
    loop. *)
Fixpoint findSurrounding (timestamps : list Qc) (timestamp : Qc)
    (i beforeIndex : Z) : Z * Z :=
  match timestamps with
  | [] => (beforeIndex, (-1)%Z)
  | ti :: rest =>
      let beforeIndex := if decide (ti ≤ timestamp) then i else beforeIndex in
      if decide (timestamp ≤ ti) then (beforeIndex, i)
      else findSurrounding rest timestamp (i + 1)%Z beforeIndex
  end.

(** [array[index]] for an integer index; [None] is [undefined]. *)
Definition at_index {A} (array : list A) (index : Z) : option A :=
  if decide (0 ≤ index)%Z then array !! Z.to_nat index else None.

(** [this.keyframes.get(timestamps[index]).selection]; reading [.selection]
    of [undefined] throws. *)
Definition selectionAt (timestamps : list Qc) (index : Z) : M Selection.t :=
  let* this := get_state in
  match at_index timestamps index ≫= (λ k, JsMap.get k (keyframes this)) with
  | Some kf => ret (Keyframe.selection kf)
  | None => throw (TypeError "Cannot read properties of undefined (reading 'selection')")
  end.

(** [timestamps[index]] as an argument of [interpolateSelection], evaluated
    after [selectionAt] has read the same index. *)
Definition timeAt (timestamps : list Qc) (index : Z) : M Qc :=
  match at_index timestamps index with
  | Some k => ret k
  | None => throw (TypeError "undefined timestamp")
  end.

Definition getInterpolatedSelection (timestamp : Qc) : M (option Selection.t) :=
  let* this := get_state in
  if decide (JsMap.size (keyframes this) = 0%nat) then ret None else
  let timestamps := sort_numbers (JsMap.keys (keyframes this)) in
  let '(beforeIndex, afterIndex) := findSurrounding timestamps timestamp 0 (-1) in
  if bool_decide (beforeIndex = afterIndex) && negb (bool_decide (beforeIndex = (-1)%Z))
  then let* s := selectionAt timestamps beforeIndex in ret (Some s)
  else if bool_decide (beforeIndex = (-1)%Z) && bool_decide (afterIndex = (-1)%Z)
  then ret None
  else if bool_decide (beforeIndex = (-1)%Z)
  then let* s := selectionAt timestamps afterIndex in ret (Some s)
  else if bool_decide (afterIndex = (-1)%Z)
  then let* s := selectionAt timestamps beforeIndex in ret (Some s)
  else
    let* s1 := selectionAt timestamps beforeIndex in
    let* s2 := selectionAt timestamps afterIndex in
    let* t1 := timeAt timestamps beforeIndex in
    let* t2 := timeAt timestamps afterIndex in
    ret (Some (interpolateSelection (constants this) s1 s2 t1 t2 timestamp)).

Definition deleteKeyframe (now : Z) (timestamp : Qc) : M unit :=
  let* this := get_state in
  if JsMap.has timestamp (keyframes this) then
    modify (λ st, set_keyframes (JsMap.delete timestamp (keyframes st)) st) ;;
    emitRecordingEvent now (keyframeDeleted timestamp)
  else ret tt.

Definition clearKeyframes (now : Z) : M unit :=
  modify (λ st, set_keyframes (JsMap.clear (keyframes st)) st) ;;
  emitRecordingEvent now keyframesCleared.

(** The object returned by [exportKeyframes]. *)
Record ExportData := mkExportData {
  ed_keyframes : list Keyframe.t;
  ed_startTime : Qc;
  ed_endTime : Qc;
  ed_duration : Qc;
  ed_totalKeyframes : nat;
  ed_exportedAt : Z
}.

#[global] Instance ExportData_eq_dec : EqDecision ExportData.
Proof. solve_decision. Defined.

(** [filteredKeyframes.sort((a, b) => a.timestamp - b.timestamp)]. *)
Definition byTimestamp (a b : Keyframe.t) : Prop :=
  Keyframe.timestamp a ≤ Keyframe.timestamp b.

#[global] Instance byTimestamp_dec : RelDecision byTimestamp :=
  λ a b, decide (Keyframe.timestamp a ≤ Keyframe.timestamp b).

Definition sort_keyframes (l : list Keyframe.t) : list Keyframe.t :=
  merge_sort byTimestamp l.

(** The [forEach] of [exportKeyframes]: entries are visited in insertion
    order and tested on their key. *)
Definition filterRange (startTime endTime : Qc) (m : JsMap Keyframe.t)
    : list Keyframe.t :=
  (filter (λ e, startTime ≤ e.1 ∧ e.1 ≤ endTime) m).*2.

(** [exportKeyframes(startTime = 0, endTime = this.videoDuration)]; an
    omitted argument is [None]. *)
Definition exportKeyframes (now : Z) (startTime endTime : option Qc)
    : M ExportData :=
  let* this := get_state in
  let startTime := default 0 startTime in
  let endTime := default (videoDuration this) endTime in
  let filteredKeyframes :=
    sort_keyframes (filterRange startTime endTime (keyframes this)) in
  ret {| ed_keyframes := filteredKeyframes;
         ed_startTime := startTime;
         ed_endTime := endTime;
         ed_duration := endTime - startTime;
         ed_totalKeyframes := length filteredKeyframes;
         ed_exportedAt := now |}.

(** The argument of [importKeyframes]: only its [keyframes] property is
    read, and it may be missing. *)
Record KeyframesData := mkKeyframesData {
  kd_keyframes : option (list Keyframe.t)
}.

(** [keyframesData.keyframes.forEach(kf => this.keyframes.set(kf.timestamp, kf))] *)
Definition setAll (kfs : list Keyframe.t) (m : JsMap Keyframe.t)
    : JsMap Keyframe.t :=
  foldl (λ acc kf, JsMap.set (Keyframe.timestamp kf) kf acc) m kfs.

Definition importKeyframes (now : Z) (keyframesData : KeyframesData) : M unit :=
  clearKeyframes now ;;
  match kd_keyframes keyframesData with
  | Some kfs => modify (λ st, set_keyframes (setAll kfs (keyframes st)) st)
  | None => ret tt
  end ;;
  emitRecordingEvent now
    (keyframesImported (from_option length 0%nat (kd_keyframes keyframesData))).

Definition getKeyframeTimestamps : M (list Qc) :=
  let* this := get_state in
  ret (sort_numbers (JsMap.keys (keyframes this))).

Definition getRecordingStatus : M bool :=
  let* this := get_state in ret (isRecording this).

(** [cleanup()] *)
Definition cleanup (now : Z) : M unit :=
  stopRecording now ;; clearKeyframes now.

End FrameRecorder.

(** ** [SelectionController] (selectionController.js) *)

Module SelectionController.

(** The controller's selection, the size of its canvas, its interaction
    flags, and the selections it has passed to [editor.onSelectionChanged]
    (latest last). *)
Record state := mkState {
  selection : Selection.t;
  canvas_width : Qc;
  canvas_height : Qc;
  isDragging : bool;
  isResizing : bool;
  constants : Constants.t;
  notified : list Selection.t
}.

#[global] Instance state_eq_dec : EqDecision state.
Proof. solve_decision. Defined.

Abbreviation M := (Method state).

Definition set_selection (s : Selection.t) (st : state) : state :=
  {| selection := s;
     canvas_width := canvas_width st;
     canvas_height := canvas_height st;
     isDragging := isDragging st;
     isResizing := isResizing st;
     constants := constants st;
     notified := notified st |}.

(** [this.editor.onSelectionChanged(data)] *)
Definition onSelectionChanged (data : Selection.t) : M unit :=
  modify (λ st,
    {| selection := selection st;
       canvas_width := canvas_width st;
       canvas_height := canvas_height st;
       isDragging := isDragging st;
       isResizing := isResizing st;
       constants := constants st;
       notified := notified st ++ [data] |}).

(** The four assignments of [constrainToCanvas], in order: each reads the
    fields the previous ones have written. *)
Definition constrain (cw ch : Qc) (s : Selection.t) : Selection.t :=
  let x := Math_max 0 (Math_min (cw - Selection.width s) (Selection.x s)) in
  let y := Math_max 0 (Math_min (ch - Selection.height s) (Selection.y s)) in
  let width := Math_min (Selection.width s) (cw - x) in
  let height := Math_min (Selection.height s) (ch - y) in
  {| Selection.x := x;
     Selection.y := y;
     Selection.width := width;
     Selection.height := height;
     Selection.zoom := Selection.zoom s;
     Selection.timestamp := Selection.timestamp s |}.

Definition constrainToCanvas : M unit :=
  modify (λ st,
    set_selection (constrain (canvas_width st) (canvas_height st) (selection st)) st).

(** The assignments of [applyZoom] before the call of [constrainToCanvas]. *)
Definition scaleAboutCenter (newZoom : Qc) (s : Selection.t) : Selection.t :=
  let zoomRatio := newZoom / Selection.zoom s in
  let centerX := Selection.x s + Selection.width s / frac 2 1 in
  let centerY := Selection.y s + Selection.height s / frac 2 1 in
  let width := Selection.width s * zoomRatio in
  let height := Selection.height s * zoomRatio in
  {| Selection.x := centerX - width / frac 2 1;
     Selection.y := centerY - height / frac 2 1;
     Selection.width := width;
     Selection.height := height;
     Selection.zoom := newZoom;
     Selection.timestamp := Selection.timestamp s |}.

Definition applyZoom (newZoom : Qc) : M unit :=
  modify (λ st, set_selection (scaleAboutCenter newZoom (selection st)) st) ;;
  constrainToCanvas.

(** [getSelectionData()]: the five fields and [timestamp: Date.now()]. *)
Definition getSelectionData (now : Z) : M Selection.t :=
  let* this := get_state in
  ret {| Selection.x := Selection.x (selection this);
         Selection.y := Selection.y (selection this);
         Selection.width := Selection.width (selection this);
         Selection.height := Selection.height (selection this);
         Selection.zoom := Selection.zoom (selection this);
         Selection.timestamp := Some now |}.

(** The zoom [handleWheel] computes from [event.deltaY]. *)
Definition wheelZoom (c : Constants.t) (zoom deltaY : Qc) : Qc :=
  let zoomDelta :=
    if decide (0 < deltaY)
    then - SelectionCfg.ZOOM_SENSITIVITY (Constants.SELECTION c)
    else SelectionCfg.ZOOM_SENSITIVITY (Constants.SELECTION c) in
  Math_max (SelectionCfg.MIN_ZOOM (Constants.SELECTION c))
    (Math_min (SelectionCfg.MAX_ZOOM (Constants.SELECTION c)) (zoom + zoomDelta)).

Definition handleWheel (now : Z) (deltaY : Qc) : M unit :=
  let* this := get_state in
  let newZoom := wheelZoom (constants this) (Selection.zoom (selection this)) deltaY in
  if decide (newZoom ≠ Selection.zoom (selection this)) then
    applyZoom newZoom ;;
    let* data := getSelectionData now in
    onSelectionChanged data
  else ret tt.

(** [setSelection(selectionData)] *)
Definition setSelection (selectionData : Selection.t) : M unit :=
  modify (set_selection selectionData) ;;
  constrainToCanvas.

End SelectionController.

(** ** [VideoRenderer.render]: the filter graph handed to the engine *)

Module VideoRenderer.

(** The expressions [render] writes into the [zoompan] filter.  The numbers
    it splices into the text are kept as numbers. *)
Inductive Expr :=
  | Num (q : Qc)
  | Var_t
  | Var_iw
  | Var_ih
  | Sub (a b : Expr)
  | Mul (a b : Expr)
  | Div (a b : Expr)
  | Gte (a b : Expr)
  | If (c a b : Expr).

#[global] Instance Expr_eq_dec : EqDecision Expr.
Proof. solve_decision. Defined.

(** The [zoompan] options and the other filters of the chain, in the order
    [trim, crop, zoompan, format].  An option written as terms joined by [':']
    is the list of its terms. *)
Record Filtergraph := mkFiltergraph {
  trim_start : Qc;
  trim_end : Qc;
  crop_aspect : Qc;
  zoompan_z : list Expr;
  zoompan_x : list Expr;
  zoompan_y : list Expr;
  zoompan_s : Qc * Qc;
  zoompan_fps : Qc
}.

Record state := mkState {
  isLoaded : bool;
  constants : Constants.t
}.

#[global] Instance Filtergraph_eq_dec : EqDecision Filtergraph.
Proof. solve_decision. Defined.
#[global] Instance state_eq_dec : EqDecision state.
Proof. solve_decision. Defined.

(** [keyframes.map(kf => ({...kf, timestamp: kf.timestamp - trimStart}))] *)
Definition relativeKeyframes (keyframes : list Keyframe.t) (trimStart : Qc)
    : list Keyframe.t :=
  map (λ kf, {| Keyframe.timestamp := Keyframe.timestamp kf - trimStart;
                Keyframe.selection := Keyframe.selection kf;
                Keyframe.recordedAt := Keyframe.recordedAt kf |}) keyframes.

(** [if(gte(t,${kf.timestamp}),${value},fallback)] *)
Definition holdTerm (kf : Keyframe.t) (value : Qc) (fallback : Expr) : Expr :=
  If (Gte Var_t (Num (Keyframe.timestamp kf))) (Num value) fallback.

Definition zExpr (rel : list Keyframe.t) : list Expr :=
  map (λ kf, holdTerm kf (Selection.zoom (Keyframe.selection kf)) (Num (frac 1 1))) rel.
Definition xExpr (rel : list Keyframe.t) : list Expr :=
  map (λ kf, holdTerm kf (Selection.x (Keyframe.selection kf))
               (Div Var_iw (Num (frac 2 1)))) rel.
Definition yExpr (rel : list Keyframe.t) : list Expr :=
  map (λ kf, holdTerm kf (Selection.y (Keyframe.selection kf))
               (Div Var_ih (Num (frac 2 1)))) rel.

(** What a caller passes as [keyframes]: an array of keyframes, the object
    returned by [exportKeyframes] (which has no [length] and no [map]), or
    nothing. *)
Inductive KeyframesArg :=
  | KfArray (l : list Keyframe.t)
  | KfExportData (d : FrameRecorder.ExportData)
  | KfMissing.

(** [!keyframes] *)
Definition missing (keyframes : KeyframesArg) : bool :=
  match keyframes with KfMissing => true | _ => false end.

(** [keyframes.length]; [None] is [undefined]. *)
Definition length_of (keyframes : KeyframesArg) : option nat :=
  match keyframes with KfArray l => Some (length l) | _ => None end.

(** The initial values of [zExpr], [xExpr] and [yExpr]: ['1'],
    ['iw/2-(iw*1)/2'] and ['ih/2-(ih*1)/2']. *)
Definition defaultZ : list Expr := [Num (frac 1 1)].
Definition defaultX : list Expr :=
  [Sub (Div Var_iw (Num (frac 2 1)))
       (Div (Mul Var_iw (Num (frac 1 1))) (Num (frac 2 1)))].
Definition defaultY : list Expr :=
  [Sub (Div Var_ih (Num (frac 2 1)))
       (Div (Mul Var_ih (Num (frac 1 1))) (Num (frac 2 1)))].

(** [render(videoFile, keyframes, onProgress, trimStart, trimEnd)] up to the
    [filtergraph] it passes to [ffmpeg.run]; the two guards throw.
    [undefined === 0] and [undefined > 0] are both false. *)
Definition render (keyframes : KeyframesArg) (trimStart trimEnd : Qc)
    : Method state Filtergraph :=
  let* this := get_state in
  if negb (isLoaded this) then throw (Error "FFmpeg is not loaded. Call load() first.") else
  if missing keyframes || bool_decide (length_of keyframes = Some 0%nat)
  then throw (Error "No keyframes provided for rendering.") else
  let '(z, x, y) :=
    match keyframes with
    | KfArray l =>
        if decide (0 < length l)%nat then
          let rel := relativeKeyframes l trimStart in
          (zExpr rel, xExpr rel, yExpr rel)
        else (defaultZ, defaultX, defaultY)
    | _ => (defaultZ, defaultX, defaultY)
    end in
  ret {| trim_start := trimStart;
         trim_end := trimEnd;
         crop_aspect := frac 9 16;
         zoompan_z := z;
         zoompan_x := x;
         zoompan_y := y;
         zoompan_s := (Canvas.PREVIEW_WIDTH (Constants.CANVAS (constants this)),
                       Canvas.PREVIEW_HEIGHT (Constants.CANVAS (constants this)));
         zoompan_fps := frac 30 1 |}.

(** The value of an expression at render time [t] for an input of size
    [iw] x [ih], in the engine's expression language: [gte(a,b)] is [1] when
    [a >= b] and [0] otherwise, [if(c,a,b)] is [a] when [c] is not [0] and [b]
    otherwise. *)
Fixpoint eval (iw ih t : Qc) (e : Expr) : Qc :=
  match e with
  | Num q => q
  | Var_t => t
  | Var_iw => iw
  | Var_ih => ih
  | Sub a b => eval iw ih t a - eval iw ih t b
  | Mul a b => eval iw ih t a * eval iw ih t b
  | Div a b => eval iw ih t a / eval iw ih t b
  | Gte a b => if decide (eval iw ih t b ≤ eval iw ih t a) then frac 1 1 else 0
  | If c a b => if decide (eval iw ih t c = 0) then eval iw ih t b else eval iw ih t a
  end.

(** The latest keyframe of [kfs] at or before [t], when there is one: the
    value a hold-last-value step function takes at [t]. *)
Definition latestAtOrBefore (kfs : list Keyframe.t) (t : Qc) : option Keyframe.t :=
  foldl (λ best kf,
           if decide (Keyframe.timestamp kf ≤ t) then
             match best with
             | Some b =>
                 if decide (Keyframe.timestamp b ≤ Keyframe.timestamp kf)
                 then Some kf else Some b
             | None => Some kf
             end
           else best) None kfs.

End VideoRenderer.

(** ** [VideoEditor.handleExport] (videoEditor.js) *)

Module VideoEditor.

(** The parts of the editor [handleExport] reads: whether a video was
    uploaded, the recorder, the renderer and the trim range. *)
Record state := mkState {
  hasVideoBlob : bool;
  frameRecorder : FrameRecorder.state;
  renderer : VideoRenderer.state;
  trimStart : Qc;
  trimEnd : Qc
}.

(** How a call of [handleExport] ends: one of its two early returns after an
    [alert], the filter graph its call of [render] has built, or the error
    its [catch] block reports. *)
Inductive ExportOutcome :=
  | NoVideo
  | NoKeyframes
  | Rendered (g : VideoRenderer.Filtergraph)
  | ExportFailed (e : JsError).

(** [handleExport()]: the object returned by [exportKeyframes()] is passed
    to [render] as it is. *)
Definition handleExport (now : Z) (this : state) : ExportOutcome * state :=
  if negb (hasVideoBlob this) then (NoVideo, this) else
  match FrameRecorder.exportKeyframes now None None (frameRecorder this) with
  | Throw e rec' =>
      (ExportFailed e,
       {| hasVideoBlob := hasVideoBlob this; frameRecorder := rec';
          renderer := renderer this;
          trimStart := trimStart this; trimEnd := trimEnd this |})
  | Normal keyframes rec' =>
      let this' :=
        {| hasVideoBlob := hasVideoBlob this; frameRecorder := rec';
           renderer := renderer this;
           trimStart := trimStart this; trimEnd := trimEnd this |} in
      if decide (FrameRecorder.ed_totalKeyframes keyframes = 0%nat)
      then (NoKeyframes, this')
      else
        match VideoRenderer.render (VideoRenderer.KfExportData keyframes)
                (trimStart this) (trimEnd this) (renderer this) with
        | Normal g ren' =>
            (Rendered g,
             {| hasVideoBlob := hasVideoBlob this; frameRecorder := rec';
                renderer := ren';
                trimStart := trimStart this; trimEnd := trimEnd this |})
        | Throw e ren' =>
            (ExportFailed e,
             {| hasVideoBlob := hasVideoBlob this; frameRecorder := rec';
                renderer := ren';
                trimStart := trimStart this; trimEnd := trimEnd this |})
        end
  end.

End VideoEditor.

(** ** Operation sequences and sample data *)

Definition state_after {S A} (c : Completion S A) : S :=
  match c with Normal _ st => st | Throw _ st => st end.

(** The operations on the keyframe track, each with the clock reading of
    its call. *)
Inductive Op :=
  | OpStart (now : Z) (videoDuration : Qc)
  | OpStop (now : Z)
  | OpRecord (now : Z) (timestamp : Qc) (selection : Selection.t)
  | OpImport (now : Z) (data : FrameRecorder.KeyframesData)
  | OpDelete (now : Z) (timestamp : Qc)
  | OpClear (now : Z).

Definition step (op : Op) : FrameRecorder.M unit :=
  match op with
  | OpStart now d => FrameRecorder.startRecording now d
  | OpStop now => FrameRecorder.stopRecording now
  | OpRecord now t s => FrameRecorder.recordKeyframe now t s
  | OpImport now d => FrameRecorder.importKeyframes now d
  | OpDelete now t => FrameRecorder.deleteKeyframe now t
  | OpClear now => FrameRecorder.clearKeyframes now
  end.

Fixpoint run (ops : list Op) : FrameRecorder.M unit :=
  match ops with
  | [] => ret tt
  | op :: rest => step op ;; run rest
  end.

(** Every stored timestamp lies in [[0, videoDuration]]. *)
Definition inBounds (st : FrameRecorder.state) : Prop :=
  Forall (λ k, 0 ≤ k ∧ k ≤ FrameRecorder.videoDuration st)
         (JsMap.keys (FrameRecorder.keyframes st)).

(** The keyframes an import brings. *)
Definition imported (d : FrameRecorder.KeyframesData) : list Keyframe.t :=
  default [] (FrameRecorder.kd_keyframes d).

(** Along [ops] from [st], every import brings timestamps that lie in the
    bounds of the recorder at the time of the import. *)
Fixpoint importsInBounds (ops : list Op) (st : FrameRecorder.state) : Prop :=
  match ops with
  | [] => True
  | op :: rest =>
      match op with
      | OpImport _ d =>
          Forall (λ kf, 0 ≤ Keyframe.timestamp kf
                        ∧ Keyframe.timestamp kf ≤ FrameRecorder.videoDuration st)
                 (imported d)
      | _ => True
      end
      ∧ importsInBounds rest (state_after (step op st))
  end.

(** Every entry of the track is stored under its own timestamp. *)
Definition keyedByTimestamp (m : JsMap Keyframe.t) : Prop :=
  Forall (λ e, Keyframe.timestamp e.2 = e.1) m.

Definition track_wf (m : JsMap Keyframe.t) : Prop :=
  JsMap.wf m ∧ keyedByTimestamp m.

(** A selection of size 100 x 100 at [(x, 0)] with zoom 1. *)
Definition box (x : Z) : Selection.t :=
  {| Selection.x := frac x 1;
     Selection.y := 0;
     Selection.width := frac 100 1;
     Selection.height := frac 100 1;
     Selection.zoom := frac 1 1;
     Selection.timestamp := None |}.

(** [EDITOR_CONSTANTS] with the [SMOOTHING] flag of its [RECORDING]
    section set to [b]. *)
Definition with_smoothing (b : bool) (c : Constants.t) : Constants.t :=
  {| Constants.CANVAS := Constants.CANVAS c;
     Constants.SELECTION := Constants.SELECTION c;
     Constants.RECORDING :=
       (λ r, {| RecordingCfg.KEYFRAME_INTERVAL := RecordingCfg.KEYFRAME_INTERVAL r;
                RecordingCfg.AUTO_KEYFRAME := RecordingCfg.AUTO_KEYFRAME r;
                RecordingCfg.SMOOTHING := b;
                RecordingCfg.EXPORT_FORMAT := RecordingCfg.EXPORT_FORMAT r;
                RecordingCfg.EXPORT_QUALITY := RecordingCfg.EXPORT_QUALITY r |})
       <$> Constants.RECORDING c |}.

Definition no_smoothing : Constants.t := with_smoothing false EDITOR_CONSTANTS.

(** A recorder of a 10 s video in which [box 0] was recorded at 1.0 s and
    [box 100] at 3.0 s; it is still recording. *)
Definition two_keyframes (c : Constants.t) : FrameRecorder.state :=
  state_after
    (run [OpStart 1000 (frac 10 1);
          OpRecord 2000 (frac 1 1) (box 0);
          OpRecord 4000 (frac 3 1) (box 100)]
         (FrameRecorder.new c)).

(** The same two keyframes, brought by an import that lists the later one
    first. *)
Definition two_keyframes_reversed (c : Constants.t) : FrameRecorder.state :=
  state_after
    (run [OpStart 1000 (frac 10 1);
          OpImport 5000
            {| FrameRecorder.kd_keyframes :=
                 Some [{| Keyframe.timestamp := frac 3 1;
                          Keyframe.selection := box 100;
                          Keyframe.recordedAt := 4000 |};
                       {| Keyframe.timestamp := frac 1 1;
                          Keyframe.selection := box 0;
                          Keyframe.recordedAt := 2000 |}] |}]
         (FrameRecorder.new c)).

(** A keyframe as a hand-written import file could hold it. *)
Definition keyframe_at (t : Z) (s : Selection.t) : Keyframe.t :=
  {| Keyframe.timestamp := frac t 1;
     Keyframe.selection := s;
     Keyframe.recordedAt := 0 |}.

(** A controller on an 800 x 450 canvas whose selection is at the largest
    zoom. *)
Definition zoomed_in : SelectionController.state :=
  {| SelectionController.selection :=
       {| Selection.x := frac 100 1;
          Selection.y := frac 50 1;
          Selection.width := frac 300 1;
          Selection.height := frac 300 1;
          Selection.zoom := frac 3 1;
          Selection.timestamp := None |};
     SelectionController.canvas_width := frac 800 1;
     SelectionController.canvas_height := frac 450 1;
     SelectionController.isDragging := false;
     SelectionController.isResizing := false;
     SelectionController.constants := EDITOR_CONSTANTS;
     SelectionController.notified := [] |}.

Definition loaded_renderer : VideoRenderer.state :=
  {| VideoRenderer.isLoaded := true;
     VideoRenderer.constants := EDITOR_CONSTANTS |}.

(** The state [recordKeyframe] leaves when it stores the sample. *)
Definition stored (now : Z) (timestamp : Qc) (s : Selection.t)
    (st : FrameRecorder.state) : FrameRecorder.state :=
  let kf := {| Keyframe.timestamp := timestamp;
               Keyframe.selection := s;
               Keyframe.recordedAt := now |} in
  {| FrameRecorder.isRecording := FrameRecorder.isRecording st;
     FrameRecorder.keyframes := JsMap.set timestamp kf (FrameRecorder.keyframes st);
     FrameRecorder.currentTime := timestamp;
     FrameRecorder.videoDuration := FrameRecorder.videoDuration st;
     FrameRecorder.recordingInterval := FrameRecorder.recordingInterval st;
     FrameRecorder.lastKeyframeTime := timestamp;
     FrameRecorder.constants := FrameRecorder.constants st;
     FrameRecorder.dispatched :=
       FrameRecorder.dispatched st
       ++ [FrameRecorder.mkEvent (FrameRecorder.keyframe kf) now] |}.

(** The spacing test of [recordKeyframe]: the sample comes less than
    [minInterval] after the last stored one, and that one is still in the
    track. *)
Definition tooSoon (timestamp : Qc) (st : FrameRecorder.state) : Prop :=
  timestamp - FrameRecorder.lastKeyframeTime st
    < FrameRecorder.minInterval (FrameRecorder.constants st)
  ∧ JsMap.has (FrameRecorder.lastKeyframeTime st) (FrameRecorder.keyframes st) = true.

(** A stream of [recordKeyframe] calls. *)
Definition recordCalls (calls : list (Z * Qc * Selection.t)) : list Op :=
  map (λ c, OpRecord c.1.1 c.1.2 c.2) calls.

(** Each call of the stream comes less than [delta] after the one before. *)
Definition closelySpaced (delta : Qc) (calls : list (Z * Qc * Selection.t)) : Prop :=
  ∀ i a b, calls !! i = Some a → calls !! S i = Some b → b.1.2 - a.1.2 < delta.

(** Three wheel-driven samples 10 ms apart, from 1.0 s on. *)
Definition burst : list (Z * Qc * Selection.t) :=
  [(2000%Z, frac 100 100, box 0);
   (2010%Z, frac 101 100, box 10);
   (2020%Z, frac 102 100, box 20)].

(** The state [startRecording] leaves when it starts a session. *)
Definition started (now : Z) (duration : Qc) (st : FrameRecorder.state)
    : FrameRecorder.state :=
  {| FrameRecorder.isRecording := true;
     FrameRecorder.keyframes := [];
     FrameRecorder.currentTime := 0;
     FrameRecorder.videoDuration := duration;
     FrameRecorder.recordingInterval := FrameRecorder.recordingInterval st;
     FrameRecorder.lastKeyframeTime := 0;
     FrameRecorder.constants := FrameRecorder.constants st;
     FrameRecorder.dispatched :=
       FrameRecorder.dispatched st
       ++ [FrameRecorder.mkEvent FrameRecorder.started now] |}.

(** A session on a 10 s video is recorded and stopped, then a file with one
    keyframe at 99 s is imported. *)
Definition import_beyond_end : list Op :=
  [OpStart 1000 (frac 10 1);
   OpRecord 2000 (frac 1 1) (box 0);
   OpStop 3000;
   OpImport 4000
     {| FrameRecorder.kd_keyframes := Some [keyframe_at 99 (box 0)] |}].

(** The same with a keyframe at 5 s in the imported file. *)
Definition import_within : list Op :=
  [OpStart 1000 (frac 10 1);
   OpRecord 2000 (frac 1 1) (box 0);
   OpStop 3000;
   OpImport 4000
     {| FrameRecorder.kd_keyframes := Some [keyframe_at 5 (box 0)] |}].

(** [box x] at zoom [z]. *)
Definition zoomed_box (x z : Z) : Selection.t :=
  {| Selection.x := frac x 1;
     Selection.y := 0;
     Selection.width := frac 100 1;
     Selection.height := frac 100 1;
     Selection.zoom := frac z 1;
     Selection.timestamp := None |}.

(** The values the terms of an option take at render time [t]. *)
Definition termValues (iw ih t : Qc) (terms : list VideoRenderer.Expr) : list Qc :=
  map (VideoRenderer.eval iw ih t) terms.

(** Two keyframes: zoom 2 from 0 s on, back to zoom 1 from 5 s on. *)
Definition zoom_in_then_out : list Keyframe.t :=
  [keyframe_at 0 (zoomed_box 10 2); keyframe_at 5 (zoomed_box 20 1)].

(** ** [FrameRecorder]: statistics (frameRecorder.js) *)

Module RecorderStats.

(** [v || null] on a number that may be [undefined]: [0] is falsy. *)
Definition or_null (v : option Qc) : option Qc :=
  match v with
  | Some k => if decide (k = 0) then None else Some k
  | None => None
  end.

(** [getAverageKeyframeInterval()]: fewer than two timestamps give [0]. *)
Definition getAverageKeyframeInterval : FrameRecorder.M Qc :=
  let* timestamps := FrameRecorder.getKeyframeTimestamps in
  match timestamps with
  | first :: _ :: _ =>
      let totalTime := default first (last timestamps) - first in
      ret (totalTime / Qc_of_Z (Z.of_nat (length timestamps) - 1))
  | _ => ret 0
  end.

(** The object returned by [getRecordingStats()]. *)
Record Stats := mkStats {
  isRecording : bool;
  totalKeyframes : nat;
  currentTime : Qc;
  videoDuration : Qc;
  firstKeyframe : option Qc;
  lastKeyframe : option Qc;
  averageInterval : Qc
}.

Definition getRecordingStats : FrameRecorder.M Stats :=
  let* timestamps := FrameRecorder.getKeyframeTimestamps in
  let* this := get_state in
  let* average := getAverageKeyframeInterval in
  ret {| isRecording := FrameRecorder.isRecording this;
         totalKeyframes := JsMap.size (FrameRecorder.keyframes this);
         currentTime := FrameRecorder.currentTime this;
         videoDuration := FrameRecorder.videoDuration this;
         firstKeyframe := or_null (FrameRecorder.at_index timestamps 0);
         lastKeyframe :=
           or_null (FrameRecorder.at_index timestamps
                      (Z.of_nat (length timestamps) - 1));
         averageInterval := average |}.

End RecorderStats.

(** A session whose first keyframe is at 0 s: [box 0] at 0 s, [box 100] at
    2 s and [box 50] at 6 s. *)
Definition three_keyframes : FrameRecorder.state :=
  state_after
    (run [OpStart 1000 (frac 10 1);
          OpRecord 1000 0 (box 0);
          OpRecord 3000 (frac 2 1) (box 100);
          OpRecord 7000 (frac 6 1) (box 50)]
         (FrameRecorder.new EDITOR_CONSTANTS)).




(** The entry [importKeyframes] makes for a keyframe. *)
Definition entryOf (kf : Keyframe.t) : Qc * Keyframe.t :=
  (Keyframe.timestamp kf, kf).

(** ** The pointer handlers of [SelectionController] (selectionController.js)

    Their state adds the fields the handlers read and write, [dragStart],
    [resizeHandle] and the cursor style of the canvas, to the controller's.
    Drawing on the canvas is left out: it reads the selection and writes
    pixels only. *)

Definition Math_abs (q : Qc) : Qc := if decide (0 ≤ q) then q else - q.

Module SelectionGestures.

(** The keys of the [handles] object of [getResizeHandle]. *)
Inductive Handle := nw | ne | sw | se.

#[global] Instance Handle_eq_dec : EqDecision Handle.
Proof. solve_decision. Defined.

Record state := mkState {
  controller : SelectionController.state;
  dragStart : Qc * Qc;
  resizeHandle : option Handle;
  cursor : string
}.

#[global] Instance state_eq_dec : EqDecision state.
Proof. solve_decision. Defined.

Abbreviation M := (Method state).

(** [canvas.getBoundingClientRect()] and the coordinates of a mouse event. *)
Record Rect := mkRect { left : Qc; top : Qc; rect_width : Qc; rect_height : Qc }.
Record MouseEvent := mkMouseEvent { clientX : Qc; clientY : Qc }.

Definition selection (st : state) : Selection.t :=
  SelectionController.selection (controller st).

Definition set_controller (c : SelectionController.state) (st : state) : state :=
  {| controller := c;
     dragStart := dragStart st;
     resizeHandle := resizeHandle st;
     cursor := cursor st |}.

Definition set_selection (s : Selection.t) (st : state) : state :=
  set_controller (SelectionController.set_selection s (controller st)) st.

Definition set_flags (dragging resizing : bool) (st : state) : state :=
  set_controller
    {| SelectionController.selection := SelectionController.selection (controller st);
       SelectionController.canvas_width := SelectionController.canvas_width (controller st);
       SelectionController.canvas_height := SelectionController.canvas_height (controller st);
       SelectionController.isDragging := dragging;
       SelectionController.isResizing := resizing;
       SelectionController.constants := SelectionController.constants (controller st);
       SelectionController.notified := SelectionController.notified (controller st) |}
    st.

Definition set_dragStart (p : Qc * Qc) (st : state) : state :=
  {| controller := controller st;
     dragStart := p;
     resizeHandle := resizeHandle st;
     cursor := cursor st |}.

Definition set_resizeHandle (h : option Handle) (st : state) : state :=
  {| controller := controller st;
     dragStart := dragStart st;
     resizeHandle := h;
     cursor := cursor st |}.

Definition set_cursor (c : string) (st : state) : state :=
  {| controller := controller st;
     dragStart := dragStart st;
     resizeHandle := resizeHandle st;
     cursor := c |}.

(** A method of the controller, run on the controller inside. *)
Definition on_controller {A} (m : SelectionController.M A) : M A :=
  λ st, match m (controller st) with
        | Normal v c => Normal v (set_controller c st)
        | Throw e c => Throw e (set_controller c st)
        end.

Definition with_x (v : Qc) (s : Selection.t) : Selection.t :=
  {| Selection.x := v; Selection.y := Selection.y s;
     Selection.width := Selection.width s; Selection.height := Selection.height s;
     Selection.zoom := Selection.zoom s; Selection.timestamp := Selection.timestamp s |}.

Definition with_y (v : Qc) (s : Selection.t) : Selection.t :=
  {| Selection.x := Selection.x s; Selection.y := v;
     Selection.width := Selection.width s; Selection.height := Selection.height s;
     Selection.zoom := Selection.zoom s; Selection.timestamp := Selection.timestamp s |}.

Definition with_width (v : Qc) (s : Selection.t) : Selection.t :=
  {| Selection.x := Selection.x s; Selection.y := Selection.y s;
     Selection.width := v; Selection.height := Selection.height s;
     Selection.zoom := Selection.zoom s; Selection.timestamp := Selection.timestamp s |}.

Definition with_height (v : Qc) (s : Selection.t) : Selection.t :=
  {| Selection.x := Selection.x s; Selection.y := Selection.y s;
     Selection.width := Selection.width s; Selection.height := v;
     Selection.zoom := Selection.zoom s; Selection.timestamp := Selection.timestamp s |}.


(** The [handles] object of [getResizeHandle], in the order of its keys. *)
Definition handles (sel : Selection.t) : list (Handle * (Qc * Qc)) :=
  [(nw, (Selection.x sel, Selection.y sel));
   (ne, (Selection.x sel + Selection.width sel, Selection.y sel));
   (sw, (Selection.x sel, Selection.y sel + Selection.height sel));
   (se, (Selection.x sel + Selection.width sel, Selection.y sel + Selection.height sel))].

(** The test of the loop of [getResizeHandle]. *)
Definition near (handleSize x y : Qc) (pos : Qc * Qc) : Prop :=
  Math_abs (x - pos.1) ≤ handleSize ∧ Math_abs (y - pos.2) ≤ handleSize.

#[global] Instance near_dec handleSize x y pos : Decision (near handleSize x y pos).
Proof. unfold near. apply _. Defined.

(** The [for ... of Object.entries(handles)] loop. *)
Fixpoint firstNear (handleSize x y : Qc) (entries : list (Handle * (Qc * Qc)))
    : option Handle :=
  match entries with
  | [] => None
  | (handle, pos) :: rest =>
      if decide (near handleSize x y pos) then Some handle
      else firstNear handleSize x y rest
  end.

Definition getResizeHandle (x y : Qc) : M (option Handle) :=
  let* this := get_state in
  let handleSize :=
    SelectionCfg.HANDLE_SIZE
      (Constants.SELECTION (SelectionController.constants (controller this))) in
  ret (firstNear handleSize x y (handles (selection this))).

Definition inside (x y : Qc) (sel : Selection.t) : bool :=
  bool_decide (Selection.x sel ≤ x)
  && bool_decide (x ≤ Selection.x sel + Selection.width sel)
  && bool_decide (Selection.y sel ≤ y)
  && bool_decide (y ≤ Selection.y sel + Selection.height sel).

Definition isInsideSelection (x y : Qc) : M bool :=
  let* this := get_state in ret (inside x y (selection this)).

(** [handleMouseDown(event)] *)
Definition handleMouseDown (rect : Rect) (event : MouseEvent) : M unit :=
  let x := clientX event - left rect in
  let y := clientY event - top rect in
  let* handle := getResizeHandle x y in
  match handle with
  | Some h =>
      modify (λ st, set_flags (SelectionController.isDragging (controller st)) true st) ;;
      modify (set_resizeHandle (Some h))
  | None =>
      let* isInside := isInsideSelection x y in
      if isInside then
        modify (λ st, set_flags true (SelectionController.isResizing (controller st)) st) ;;
        modify (set_dragStart (x, y))
      else ret tt
  end.

(** [handleDrag(x, y)], without the drawing. *)
Definition handleDrag (x y : Qc) : M unit :=
  let* this := get_state in
  let sel := selection this in
  let deltaX := x - (dragStart this).1 in
  let deltaY := y - (dragStart this).2 in
  let newX :=
    Math_max 0 (Math_min (SelectionController.canvas_width (controller this)
                          - Selection.width sel) (Selection.x sel + deltaX)) in
  let newY :=
    Math_max 0 (Math_min (SelectionController.canvas_height (controller this)
                          - Selection.height sel) (Selection.y sel + deltaY)) in
  modify (set_selection (with_y newY (with_x newX sel))) ;;
  modify (set_dragStart (x, y)).

(** The [switch] of [handleResize]; no case matches a [null] handle. *)
Definition resized (minSize x y : Qc) (h : option Handle) (s : Selection.t)
    : Selection.t :=
  match h with
  | Some se =>
      let s := with_width (Math_max minSize (x - Selection.x s)) s in
      with_height (Math_max minSize (y - Selection.y s)) s
  | Some sw =>
      let newWidth := Selection.x s + Selection.width s - x in
      let s := if decide (minSize ≤ newWidth) then with_x x (with_width newWidth s)
               else s in
      with_height (Math_max minSize (y - Selection.y s)) s
  | Some ne =>
      let s := with_width (Math_max minSize (x - Selection.x s)) s in
      let newHeight := Selection.y s + Selection.height s - y in
      if decide (minSize ≤ newHeight) then with_y y (with_height newHeight s) else s
  | Some nw =>
      let newWidthNW := Selection.x s + Selection.width s - x in
      let newHeightNW := Selection.y s + Selection.height s - y in
      let s := if decide (minSize ≤ newWidthNW) then with_x x (with_width newWidthNW s)
               else s in
      if decide (minSize ≤ newHeightNW) then with_y y (with_height newHeightNW s) else s
  | None => s
  end.

(** [handleResize(x, y)], without the drawing. *)
Definition handleResize (x y : Qc) : M unit :=
  let* this := get_state in
  let minSize :=
    SelectionCfg.MIN_WIDTH
      (Constants.SELECTION (SelectionController.constants (controller this))) in
  modify (set_selection (resized minSize x y (resizeHandle this) (selection this))) ;;
  on_controller SelectionController.constrainToCanvas.

(** The [cursors] object of [updateCursor]. *)
Definition cursors (h : Handle) : string :=
  match h with
  | nw => "nw-resize"
  | ne => "ne-resize"
  | sw => "sw-resize"
  | se => "se-resize"
  end.

Definition updateCursor (x y : Qc) : M unit :=
  let* handle := getResizeHandle x y in
  match handle with
  | Some h => modify (set_cursor (cursors h))
  | None =>
      let* isInside := isInsideSelection x y in
      if isInside then modify (set_cursor "move") else modify (set_cursor "default")
  end.

(** [handleMouseMove(event)] *)
Definition handleMouseMove (rect : Rect) (event : MouseEvent) : M unit :=
  let x := clientX event - left rect in
  let y := clientY event - top rect in
  let* this := get_state in
  if SelectionController.isDragging (controller this) then handleDrag x y
  else if SelectionController.isResizing (controller this) then handleResize x y
  else updateCursor x y.

(** [handleMouseUp()] *)
Definition handleMouseUp (now : Z) : M unit :=
  let* this := get_state in
  if SelectionController.isDragging (controller this)
     || SelectionController.isResizing (controller this)
  then
    modify (set_flags false false) ;;
    modify (set_resizeHandle None) ;;
    on_controller
      (let* data := SelectionController.getSelectionData now in
       SelectionController.onSelectionChanged data)
  else ret tt.


(** A sequence of [mousemove] events. *)
Fixpoint moves (rect : Rect) (events : list MouseEvent) : M unit :=
  match events with
  | [] => ret tt
  | event :: rest => handleMouseMove rect event ;; moves rect rest
  end.

(** One gesture: the button goes down, the pointer moves, the button goes
    up. *)
Definition gesture (rect : Rect) (down : MouseEvent) (path : list MouseEvent)
    (now : Z) : M unit :=
  handleMouseDown rect down ;; moves rect path ;; handleMouseUp now.

End SelectionGestures.

(** The selection lies within a canvas of size [cw] x [ch]. *)
Definition insideCanvas (cw ch : Qc) (s : Selection.t) : Prop :=
  0 ≤ Selection.x s ∧ Selection.x s + Selection.width s ≤ cw
  ∧ 0 ≤ Selection.y s ∧ Selection.y s + Selection.height s ≤ ch.

(** The object [getSelectionData()] builds from selection [s] at time [now]. *)
Definition dataAt (now : Z) (s : Selection.t) : Selection.t :=
  {| Selection.x := Selection.x s;
     Selection.y := Selection.y s;
     Selection.width := Selection.width s;
     Selection.height := Selection.height s;
     Selection.zoom := Selection.zoom s;
     Selection.timestamp := Some now |}.

(** The [mousedown] event lands on a resize handle or inside the selection. *)
Definition grabs (rect : SelectionGestures.Rect) (down : SelectionGestures.MouseEvent)
    (st : SelectionGestures.state) : bool :=
  let x := SelectionGestures.clientX down - SelectionGestures.left rect in
  let y := SelectionGestures.clientY down - SelectionGestures.top rect in
  let handleSize :=
    SelectionCfg.HANDLE_SIZE
      (Constants.SELECTION
         (SelectionController.constants (SelectionGestures.controller st))) in
  bool_decide (SelectionGestures.firstNear handleSize x y
                 (SelectionGestures.handles (SelectionGestures.selection st)) ≠ None)
  || SelectionGestures.inside x y (SelectionGestures.selection st).

(** The corner of the selection a handle sits on, and the handle of the
    corner across. *)
Definition corner (h : SelectionGestures.Handle) (s : Selection.t) : Qc * Qc :=
  match h with
  | SelectionGestures.nw => (Selection.x s, Selection.y s)
  | SelectionGestures.ne => (Selection.x s + Selection.width s, Selection.y s)
  | SelectionGestures.sw => (Selection.x s, Selection.y s + Selection.height s)
  | SelectionGestures.se =>
      (Selection.x s + Selection.width s, Selection.y s + Selection.height s)
  end.

Definition opposite (h : SelectionGestures.Handle) : SelectionGestures.Handle :=
  match h with
  | SelectionGestures.nw => SelectionGestures.se
  | SelectionGestures.ne => SelectionGestures.sw
  | SelectionGestures.sw => SelectionGestures.ne
  | SelectionGestures.se => SelectionGestures.nw
  end.

(** The width and height [handleResize] computes for handle [h] and pointer
    [(x, y)]: the distances from the pointer to the edges across. *)
Definition reach (h : SelectionGestures.Handle) (x y : Qc) (s : Selection.t)
    : Qc * Qc :=
  match h with
  | SelectionGestures.se => (x - Selection.x s, y - Selection.y s)
  | SelectionGestures.sw =>
      (Selection.x s + Selection.width s - x, y - Selection.y s)
  | SelectionGestures.ne =>
      (x - Selection.x s, Selection.y s + Selection.height s - y)
  | SelectionGestures.nw =>
      (Selection.x s + Selection.width s - x, Selection.y s + Selection.height s - y)
  end.

(** The controller [zoomed_in] with no gesture going on; its canvas is shown
    at [(10, 20)] of the page. *)
Definition idle_gestures : SelectionGestures.state :=
  {| SelectionGestures.controller := zoomed_in;
     SelectionGestures.dragStart := (0, 0);
     SelectionGestures.resizeHandle := None;
     SelectionGestures.cursor := "default" |}.

Definition page_rect : SelectionGestures.Rect :=
  {| SelectionGestures.left := frac 10 1;
     SelectionGestures.top := frac 20 1;
     SelectionGestures.rect_width := frac 800 1;
     SelectionGestures.rect_height := frac 450 1 |}.

Definition mouse_at (x y : Z) : SelectionGestures.MouseEvent :=
  {| SelectionGestures.clientX := frac x 1; SelectionGestures.clientY := frac y 1 |}.

(** ** The playback, trim and record handlers of [VideoEditor] (videoEditor.js)

    The editor after [initializeModules()], so that [this.frameRecorder] is
    set.  The video element is the last value given to its [currentTime], its
    [duration] and its paused flag; the DOM updates of the handlers (button
    labels, timeline bars, cursor styles, the preview) and the animation-frame
    loop are left out. *)

#[global] Instance FrameRecorder_state_eq_dec : EqDecision FrameRecorder.state.
Proof. solve_decision. Defined.

#[global] Instance VideoEditor_state_eq_dec : EqDecision VideoEditor.state.
Proof. solve_decision. Defined.

Module EditorPlayback.

Record Video := mkVideo {
  video_currentTime : Qc;
  video_duration : Qc;
  paused : bool
}.

#[global] Instance Video_eq_dec : EqDecision Video.
Proof. solve_decision. Defined.

Record state := mkState {
  editor : VideoEditor.state;
  sourceVideo : Video;
  isPlaying : bool;
  currentTime : Qc;
  duration : Qc;
  isTrimming : bool;
  activeTrimHandle : option string;
  currentMode : string
}.

#[global] Instance state_eq_dec : EqDecision state.
Proof. solve_decision. Defined.

Abbreviation M := (Method state).

(** [timeline.track.getBoundingClientRect()] and [event.clientX]. *)
Record Rect := mkRect { left : Qc; width : Qc }.

Definition frameRecorder (st : state) : FrameRecorder.state :=
  VideoEditor.frameRecorder (editor st).
Definition trimStart (st : state) : Qc := VideoEditor.trimStart (editor st).
Definition trimEnd (st : state) : Qc := VideoEditor.trimEnd (editor st).

Definition set_editor (e : VideoEditor.state) (st : state) : state :=
  {| editor := e; sourceVideo := sourceVideo st; isPlaying := isPlaying st;
     currentTime := currentTime st; duration := duration st;
     isTrimming := isTrimming st; activeTrimHandle := activeTrimHandle st;
     currentMode := currentMode st |}.

Definition set_frameRecorder (r : FrameRecorder.state) (st : state) : state :=
  set_editor
    {| VideoEditor.hasVideoBlob := VideoEditor.hasVideoBlob (editor st);
       VideoEditor.frameRecorder := r;
       VideoEditor.renderer := VideoEditor.renderer (editor st);
       VideoEditor.trimStart := VideoEditor.trimStart (editor st);
       VideoEditor.trimEnd := VideoEditor.trimEnd (editor st) |} st.

Definition set_trimStart (v : Qc) (st : state) : state :=
  set_editor
    {| VideoEditor.hasVideoBlob := VideoEditor.hasVideoBlob (editor st);
       VideoEditor.frameRecorder := VideoEditor.frameRecorder (editor st);
       VideoEditor.renderer := VideoEditor.renderer (editor st);
       VideoEditor.trimStart := v;
       VideoEditor.trimEnd := VideoEditor.trimEnd (editor st) |} st.

Definition set_trimEnd (v : Qc) (st : state) : state :=
  set_editor
    {| VideoEditor.hasVideoBlob := VideoEditor.hasVideoBlob (editor st);
       VideoEditor.frameRecorder := VideoEditor.frameRecorder (editor st);
       VideoEditor.renderer := VideoEditor.renderer (editor st);
       VideoEditor.trimStart := VideoEditor.trimStart (editor st);
       VideoEditor.trimEnd := v |} st.

Definition set_sourceVideo (v : Video) (st : state) : state :=
  {| editor := editor st; sourceVideo := v; isPlaying := isPlaying st;
     currentTime := currentTime st; duration := duration st;
     isTrimming := isTrimming st; activeTrimHandle := activeTrimHandle st;
     currentMode := currentMode st |}.

(** [this.sourceVideo.currentTime = v] *)
Definition seek (v : Qc) (st : state) : state :=
  set_sourceVideo
    {| video_currentTime := v;
       video_duration := video_duration (sourceVideo st);
       paused := paused (sourceVideo st) |} st.

(** [this.sourceVideo.pause()] and [this.sourceVideo.play()] *)
Definition set_paused (b : bool) (st : state) : state :=
  set_sourceVideo
    {| video_currentTime := video_currentTime (sourceVideo st);
       video_duration := video_duration (sourceVideo st);
       paused := b |} st.

Definition set_isPlaying (b : bool) (st : state) : state :=
  {| editor := editor st; sourceVideo := sourceVideo st; isPlaying := b;
     currentTime := currentTime st; duration := duration st;
     isTrimming := isTrimming st; activeTrimHandle := activeTrimHandle st;
     currentMode := currentMode st |}.

Definition set_currentTime (v : Qc) (st : state) : state :=
  {| editor := editor st; sourceVideo := sourceVideo st; isPlaying := isPlaying st;
     currentTime := v; duration := duration st;
     isTrimming := isTrimming st; activeTrimHandle := activeTrimHandle st;
     currentMode := currentMode st |}.

Definition set_duration (v : Qc) (st : state) : state :=
  {| editor := editor st; sourceVideo := sourceVideo st; isPlaying := isPlaying st;
     currentTime := currentTime st; duration := v;
     isTrimming := isTrimming st; activeTrimHandle := activeTrimHandle st;
     currentMode := currentMode st |}.

Definition set_trimming (b : bool) (h : option string) (st : state) : state :=
  {| editor := editor st; sourceVideo := sourceVideo st; isPlaying := isPlaying st;
     currentTime := currentTime st; duration := duration st;
     isTrimming := b; activeTrimHandle := h;
     currentMode := currentMode st |}.


(** A method of the recorder, run on the editor's recorder. *)
Definition on_recorder {A} (m : FrameRecorder.M A) : M A :=
  λ st, match m (frameRecorder st) with
        | Normal v r => Normal v (set_frameRecorder r st)
        | Throw e r => Throw e (set_frameRecorder r st)
        end.

(** [handleVideoLoadedMetadata()] *)
Definition handleVideoLoadedMetadata : M unit :=
  modify (λ st, set_duration (video_duration (sourceVideo st)) st) ;;
  modify (set_trimStart 0) ;;
  modify (λ st, set_trimEnd (duration st) st).

(** [handleTrimMouseDown(event)]; [handle] is [event.target.dataset.handle]. *)
Definition handleTrimMouseDown (handle : option string) : M unit :=
  modify (set_trimming true handle).

(** [handleTrimMouseMove(event)] *)
Definition handleTrimMouseMove (timelineRect : Rect) (clientX : Qc) : M unit :=
  let* this := get_state in
  if negb (isTrimming this) then ret tt else
  let progress := (clientX - left timelineRect) / width timelineRect in
  let newTime := Math_max 0 (Math_min (duration this) (progress * duration this)) in
  if bool_decide (activeTrimHandle this = Some "start")
     && bool_decide (newTime < trimEnd this)
  then modify (set_trimStart newTime) ;;
       modify (λ st, seek (trimStart st) st)
  else if bool_decide (activeTrimHandle this = Some "end")
          && bool_decide (trimStart this < newTime)
  then modify (set_trimEnd newTime) ;;
       modify (λ st, seek (trimEnd st) st)
  else ret tt.

(** [handleTrimMouseUp()] *)
Definition handleTrimMouseUp : M unit :=
  modify (set_trimming false None).

(** [handleVideoTimeUpdate()] *)
Definition handleVideoTimeUpdate : M unit :=
  let* this := get_state in
  (if bool_decide (trimEnd this ≤ video_currentTime (sourceVideo this))
      || bool_decide (video_currentTime (sourceVideo this) < trimStart this)
   then
     modify (seek (trimStart this)) ;;
     (if isPlaying this
      then modify (set_paused true) ;; modify (set_isPlaying false)
      else ret tt)
   else ret tt) ;;
  modify (λ st, set_currentTime (video_currentTime (sourceVideo st)) st) ;;
  let* this := get_state in
  on_recorder (FrameRecorder.updateTime (currentTime this)).



(** [handlePlayPause()] *)
Definition handlePlayPause : M unit :=
  let* this := get_state in
  if isPlaying this
  then modify (set_paused true) ;; modify (set_isPlaying false)
  else modify (set_paused false) ;; modify (set_isPlaying true).


(** [handleSelectionChange(selectionData)], which [onSelectionChanged]
    forwards to. *)
Definition handleSelectionChange (now : Z) (selectionData : Selection.t) : M unit :=
  let* recording := on_recorder FrameRecorder.getRecordingStatus in
  if recording then
    let* this := get_state in
    on_recorder (FrameRecorder.recordKeyframe now (currentTime this) selectionData)
  else ret tt.

(** [handleTimelineClick(event)]; [track] is [this.timeline.track]'s
    rectangle, [None] when there is no track. *)
Definition handleTimelineClick (track : option Rect) (clientX : Qc) : M unit :=
  match track with
  | None => ret tt
  | Some rect =>
      let* this := get_state in
      let clickX := clientX - left rect in
      let progress := clickX / width rect in
      let newTime := progress * duration this in
      modify (seek (Math_max 0 (Math_min (duration this) newTime)))
  end.

(** The events of the trim handles. *)
Inductive TrimEvent :=
  | TrimDown (handle : option string)
  | TrimMove (timelineRect : Rect) (clientX : Qc)
  | TrimUp.

Definition trimStep (e : TrimEvent) : M unit :=
  match e with
  | TrimDown handle => handleTrimMouseDown handle
  | TrimMove rect clientX => handleTrimMouseMove rect clientX
  | TrimUp => handleTrimMouseUp
  end.

Fixpoint trimEvents (events : list TrimEvent) : M unit :=
  match events with
  | [] => ret tt
  | e :: rest => trimStep e ;; trimEvents rest
  end.

(** Selection changes reported one after the other, each with the clock
    reading of its call. *)
Fixpoint selectionChanges (changes : list (Z * Selection.t)) : M unit :=
  match changes with
  | [] => ret tt
  | (now, s) :: rest => handleSelectionChange now s ;; selectionChanges rest
  end.

End EditorPlayback.

(** The trim range is a proper sub-range of the video. *)
Definition trimRangeValid (st : EditorPlayback.state) : Prop :=
  0 ≤ EditorPlayback.trimStart st
  ∧ EditorPlayback.trimStart st < EditorPlayback.trimEnd st
  ∧ EditorPlayback.trimEnd st ≤ EditorPlayback.duration st.

(** The timeline has a width in every [mousemove] of the events. *)
Definition timelineVisible (events : list EditorPlayback.TrimEvent) : Prop :=
  Forall (λ e, match e with
               | EditorPlayback.TrimMove rect _ => EditorPlayback.width rect ≠ 0
               | _ => True
               end) events.

(** An editor on an uploaded 10 s video, with the recorder [rec]; the video
    is playing at [t]. *)
Definition playing_at (t : Qc) (rec : FrameRecorder.state) : EditorPlayback.state :=
  {| EditorPlayback.editor :=
       {| VideoEditor.hasVideoBlob := true;
          VideoEditor.frameRecorder := rec;
          VideoEditor.renderer := loaded_renderer;
          VideoEditor.trimStart := frac 2 1;
          VideoEditor.trimEnd := frac 8 1 |};
     EditorPlayback.sourceVideo :=
       {| EditorPlayback.video_currentTime := t;
          EditorPlayback.video_duration := frac 10 1;
          EditorPlayback.paused := false |};
     EditorPlayback.isPlaying := true;
     EditorPlayback.currentTime := t;
     EditorPlayback.duration := frac 10 1;
     EditorPlayback.isTrimming := false;
     EditorPlayback.activeTrimHandle := None;
     EditorPlayback.currentMode := "record" |}.

Definition timeline_rect : EditorPlayback.Rect :=
  {| EditorPlayback.left := frac 100 1; EditorPlayback.width := frac 500 1 |}.

(** ** [PreviewRenderer]: the rectangles of a preview frame

    What [renderFrame] computes before it draws: the area of the video the
    selection stands for and the rectangle of the preview canvas the area is
    drawn to.  The drawing itself is left out. *)

Module PreviewRenderer.

Record Area := mkArea {
  area_x : Qc;
  area_y : Qc;
  area_width : Qc;
  area_height : Qc
}.

#[global] Instance Area_eq_dec : EqDecision Area.
Proof. solve_decision. Defined.

(** The size properties of the video element [renderFrame] reads. *)
Record Video := mkVideo {
  videoWidth : Qc;
  width : Qc;
  videoHeight : Qc;
  height : Qc
}.

Record state := mkState {
  currentSelection : option Selection.t;
  sourceVideo : option Video;
  constants : Constants.t
}.

Abbreviation M := (Method state).

(** [updateSelection(selectionData)] *)
Definition updateSelection (selectionData : Selection.t) : M unit :=
  modify (λ st,
    {| currentSelection := Some selectionData;
       sourceVideo := sourceVideo st;
       constants := constants st |}).

(** The [if]/[else] of [calculateSourceArea] that decides how the video fits
    the landscape canvas: [(scale, offsetX, offsetY)], with
    [scaleX = scaleY = scale]. *)
Definition fit (c : Constants.t) (videoWidth videoHeight : Qc) : Qc * Qc * Qc :=
  let canvasWidth := Canvas.MAX_WIDTH (Constants.CANVAS c) in
  let canvasHeight := Canvas.MAX_HEIGHT (Constants.CANVAS c) in
  let videoAspect := videoWidth / videoHeight in
  let canvasAspect := canvasWidth / canvasHeight in
  if decide (canvasAspect < videoAspect) then
    let scale := videoWidth / canvasWidth in
    (scale, 0, (canvasHeight - videoHeight / scale) / frac 2 1)
  else
    let scale := videoHeight / canvasHeight in
    (scale, (canvasWidth - videoWidth / scale) / frac 2 1, 0).

(** [calculateSourceArea(videoWidth, videoHeight)]; reading a field of the
    [null] selection throws. *)
Definition calculateSourceArea (videoWidth videoHeight : Qc) : M Area :=
  let* this := get_state in
  match currentSelection this with
  | None => throw (TypeError "Cannot read properties of null (reading 'x')")
  | Some selection =>
      let '(scale, offsetX, offsetY) := fit (constants this) videoWidth videoHeight in
      let sourceX := Math_max 0 ((Selection.x selection - offsetX) * scale) in
      let sourceY := Math_max 0 ((Selection.y selection - offsetY) * scale) in
      let sourceWidth :=
        Math_min (videoWidth - sourceX) (Selection.width selection * scale) in
      let sourceHeight :=
        Math_min (videoHeight - sourceY) (Selection.height selection * scale) in
      ret {| area_x := sourceX;
             area_y := sourceY;
             area_width := Math_max (frac 1 1) sourceWidth;
             area_height := Math_max (frac 1 1) sourceHeight |}
  end.

(** The rectangle of the preview canvas [renderCroppedArea] draws the source
    area to: [(drawX, drawY, drawWidth, drawHeight)].  The preview canvas has
    the size [initializeCanvas] gave it. *)
Definition drawRect (c : Constants.t) (sourceArea : Area) : Area :=
  let previewWidth := Canvas.PREVIEW_WIDTH (Constants.CANVAS c) in
  let previewHeight := Canvas.PREVIEW_HEIGHT (Constants.CANVAS c) in
  let previewAspect := frac 9 1 / frac 16 1 in
  let sourceAspect := area_width sourceArea / area_height sourceArea in
  if decide (previewAspect < sourceAspect) then
    let drawHeight := previewHeight in
    let drawWidth := drawHeight * sourceAspect in
    {| area_x := (previewWidth - drawWidth) / frac 2 1;
       area_y := 0;
       area_width := drawWidth;
       area_height := drawHeight |}
  else
    let drawWidth := previewWidth in
    let drawHeight := drawWidth / sourceAspect in
    {| area_x := 0;
       area_y := (previewHeight - drawHeight) / frac 2 1;
       area_width := drawWidth;
       area_height := drawHeight |}.

(** [renderFrame()] up to the two rectangles it draws with; [None] when it
    clears the canvas instead. *)
Definition renderFrame : M (option (Area * Area)) :=
  let* this := get_state in
  match currentSelection this, sourceVideo this with
  | Some _, Some video =>
      let videoWidth := or_default (videoWidth video) (width video) in
      let videoHeight := or_default (videoHeight video) (height video) in
      if decide (videoWidth = 0 ∨ videoHeight = 0) then ret None else
      let* sourceArea := calculateSourceArea videoWidth videoHeight in
      ret (Some (sourceArea, drawRect (constants this) sourceArea))
  | _, _ => ret None
  end.

End PreviewRenderer.

(** A preview renderer for a 1920 x 1080 video and selection [s]. *)
Definition previewing (s : Selection.t) : PreviewRenderer.state :=
  {| PreviewRenderer.currentSelection := Some s;
     PreviewRenderer.sourceVideo :=
       Some {| PreviewRenderer.videoWidth := frac 1920 1;
               PreviewRenderer.width := 0;
               PreviewRenderer.videoHeight := frac 1080 1;
               PreviewRenderer.height := 0 |};
     PreviewRenderer.constants := EDITOR_CONSTANTS |}.

(** * Properties *)

(** ** Arithmetic on [Qc] through [Q] *)

Lemma Qc_eq_Qeq (a b : Qc) : a = b ↔ (this a == this b)%Q.
Proof. split; [intros ->; reflexivity | apply Qc_is_canon]. Qed.

Ltac qc_unfold :=
  repeat match goal with
  | H : @eq Qc _ _ |- _ => apply Qc_eq_Qeq in H
  | H : ¬ @eq Qc _ _ |- _ => rewrite Qc_eq_Qeq in H
  | |- @eq Qc _ _ => apply Qc_eq_Qeq
  | |- ¬ @eq Qc _ _ => rewrite Qc_eq_Qeq
  end;
  unfold frac, Qcle, Qclt, Qcminus, Qcopp, Qcplus, Qcmult, Q2Qc in *;
  cbn [this] in *;
  rewrite ?Qred_correct in *.

Ltac qc_lra := qc_unfold; lra.

Lemma Math_min_le_r (a b : Qc) : Math_min a b ≤ b.
Proof. unfold Math_min. case_decide; qc_lra. Qed.

Lemma Math_min_le_l (a b : Qc) : Math_min a b ≤ a.
Proof. unfold Math_min. case_decide; qc_lra. Qed.

Lemma Math_max_ge_l (a b : Qc) : a ≤ Math_max a b.
Proof. unfold Math_max. case_decide; qc_lra. Qed.

(** ** [startRecording] *)

Lemma startRecording_while_recording_noop now d st :
  FrameRecorder.isRecording st = true →
  FrameRecorder.startRecording now d st = Normal tt st.
Proof.
  intros Hrec. unfold FrameRecorder.startRecording, bind, get_state, ret.
  by rewrite Hrec.
Qed.

(** C4 (as the code has it).  [startRecording] called while a recording is
    in progress returns normally, without throwing, dispatches no event and
    leaves every field of the recorder (keyframes, video duration, recording
    flag, last keyframe time) as it was. *)
Theorem startRecording_already_recording_silent now d st :
  FrameRecorder.isRecording st = true →
  FrameRecorder.startRecording now d st = Normal tt st
  ∧ ∀ e st', FrameRecorder.startRecording now d st ≠ Throw e st'.
Proof.
  intros Hrec. rewrite (startRecording_while_recording_noop _ _ _ Hrec).
  split; [done | by intros e st'].
Qed.

Lemma startRecording_already_recording_silent_witness :
  FrameRecorder.isRecording (two_keyframes EDITOR_CONSTANTS) = true
  ∧ FrameRecorder.startRecording 5000 (frac 20 1) (two_keyframes EDITOR_CONSTANTS)
    = Normal tt (two_keyframes EDITOR_CONSTANTS).
Proof.
  split; [compute_done|].
  apply (startRecording_already_recording_silent 5000 (frac 20 1)
           (two_keyframes EDITOR_CONSTANTS)).
  compute_done.
Defined.

(** C4 (as the specification states it) fails: on a recorder that is
    recording, [startRecording] does not complete with an [InvalidState]
    error; it returns. *)
Lemma startRecording_throws_no_InvalidState :
  FrameRecorder.isRecording (two_keyframes EDITOR_CONSTANTS) = true
  ∧ FrameRecorder.startRecording 5000 (frac 20 1) (two_keyframes EDITOR_CONSTANTS)
    = Normal tt (two_keyframes EDITOR_CONSTANTS)
  ∧ ∀ msg st', FrameRecorder.startRecording 5000 (frac 20 1)
                 (two_keyframes EDITOR_CONSTANTS) ≠ Throw (InvalidState msg) st'.
Proof.
  assert (Hrec : FrameRecorder.isRecording (two_keyframes EDITOR_CONSTANTS) = true)
    by compute_done.
  split; [done|].
  rewrite (startRecording_while_recording_noop _ _ _ Hrec).
  split; [done | by intros msg st'].
Qed.

(** ** Interpolation between two selections *)

Lemma easeInOut_0 : FrameRecorder.easeInOut 0 = 0.
Proof. compute_done. Qed.

Lemma easeInOut_1 : FrameRecorder.easeInOut (frac 1 1) = frac 1 1.
Proof. compute_done. Qed.

Lemma easeInOut_half : FrameRecorder.easeInOut (frac 1 2) = frac 1 2.
Proof. compute_done. Qed.

Lemma progress_at_start (t1 t2 : Qc) : (t1 - t1) / (t2 - t1) = 0.
Proof.
  replace (t1 - t1) with (Q2Qc 0) by ring.
  unfold Qcdiv. ring.
Qed.

Lemma progress_at_end (t1 t2 : Qc) : t1 < t2 → (t2 - t1) / (t2 - t1) = frac 1 1.
Proof.
  intros Hlt. replace (frac 1 1) with (Q2Qc 1) by compute_done.
  field. intros E. qc_lra.
Qed.

Lemma progress_at_midpoint (t1 t2 : Qc) :
  t1 < t2 → ((t1 + t2) / frac 2 1 - t1) / (t2 - t1) = frac 1 2.
Proof.
  intros Hlt.
  assert (Hne : t2 - t1 ≠ 0) by (intros E; qc_lra).
  replace ((t1 + t2) / frac 2 1 - t1) with ((t2 - t1) * frac 1 2).
  - unfold Qcdiv. rewrite (Qcmult_comm (t2 - t1)), <-Qcmult_assoc.
    rewrite Qcmult_inv_r by done. ring.
  - unfold Qcdiv. replace (/ frac 2 1) with (frac 1 2) by compute_done.
    assert (H2 : frac 1 2 + frac 1 2 = 1) by compute_done.
    transitivity ((t1 + t2) * frac 1 2 - t1 * (frac 1 2 + frac 1 2)); [ring|].
    rewrite H2. ring.
Qed.

Lemma interpolateSelection_linear c s1 s2 t1 t2 t :
  FrameRecorder.smoothing c = false →
  FrameRecorder.interpolateSelection c s1 s2 t1 t2 t =
  let progress := (t - t1) / (t2 - t1) in
  {| Selection.x := Selection.x s1 + (Selection.x s2 - Selection.x s1) * progress;
     Selection.y := Selection.y s1 + (Selection.y s2 - Selection.y s1) * progress;
     Selection.width :=
       Selection.width s1 + (Selection.width s2 - Selection.width s1) * progress;
     Selection.height :=
       Selection.height s1 + (Selection.height s2 - Selection.height s1) * progress;
     Selection.zoom :=
       Selection.zoom s1 + (Selection.zoom s2 - Selection.zoom s1) * progress;
     Selection.timestamp := None |}.
Proof.
  intros Hs. unfold FrameRecorder.interpolateSelection. by rewrite Hs.
Qed.

(** C8.  With keyframes [{x:0, y:0, width:100, height:100, zoom:1}] at 1.0
    and [{x:100, y:0, width:100, height:100, zoom:1}] at 3.0 and smoothing
    off, [getInterpolatedSelection(2.0)] returns
    [{x:50, y:0, width:100, height:100, zoom:1}]; and without smoothing every
    field of an interpolated selection is
    [v1 + (v2 - v1) * (t - tBefore) / (tAfter - tBefore)]. *)
Theorem interpolate_scenario_linear :
  FrameRecorder.getInterpolatedSelection (frac 2 1) (two_keyframes no_smoothing)
  = Normal (Some {| Selection.x := frac 50 1;
                    Selection.y := 0;
                    Selection.width := frac 100 1;
                    Selection.height := frac 100 1;
                    Selection.zoom := frac 1 1;
                    Selection.timestamp := None |})
           (two_keyframes no_smoothing)
  ∧ JsMap.keys (FrameRecorder.keyframes (two_keyframes no_smoothing))
    = [frac 1 1; frac 3 1]
  ∧ ∀ c s1 s2 t1 t2 t,
      FrameRecorder.smoothing c = false →
      FrameRecorder.interpolateSelection c s1 s2 t1 t2 t =
      let progress := (t - t1) / (t2 - t1) in
      {| Selection.x := Selection.x s1 + (Selection.x s2 - Selection.x s1) * progress;
         Selection.y := Selection.y s1 + (Selection.y s2 - Selection.y s1) * progress;
         Selection.width :=
           Selection.width s1 + (Selection.width s2 - Selection.width s1) * progress;
         Selection.height :=
           Selection.height s1 + (Selection.height s2 - Selection.height s1) * progress;
         Selection.zoom :=
           Selection.zoom s1 + (Selection.zoom s2 - Selection.zoom s1) * progress;
         Selection.timestamp := None |}.
Proof.
  split; [compute_done|].
  split; [compute_done|].
  apply interpolateSelection_linear.
Qed.

Lemma interpolate_scenario_linear_witness :
  FrameRecorder.smoothing no_smoothing = false
  ∧ Selection.x
      (FrameRecorder.interpolateSelection no_smoothing (box 0) (box 100)
         (frac 1 1) (frac 3 1) (frac 2 1))
    = Selection.x (box 0)
      + (Selection.x (box 100) - Selection.x (box 0))
        * ((frac 2 1 - frac 1 1) / (frac 3 1 - frac 1 1)).
Proof.
  split; [compute_done|].
  destruct interpolate_scenario_linear as (_ & _ & Hlin).
  rewrite (Hlin no_smoothing (box 0) (box 100) (frac 1 1) (frac 3 1) (frac 2 1));
    [done | compute_done].
Defined.

(** ** The selection controller: wheel zoom *)

Lemma min_of_remainder_fits (w c m : Qc) : 0 ≤ m → Math_min w (c - m) ≤ c.
Proof.
  intros Hm. pose proof (Math_min_le_r w (c - m)) as H1.
  remember (Math_min w (c - m)) as r eqn:Hr. clear Hr. qc_lra.
Qed.

Lemma constrain_fits cw ch s :
  Selection.width (SelectionController.constrain cw ch s) ≤ cw
  ∧ Selection.height (SelectionController.constrain cw ch s) ≤ ch.
Proof.
  unfold SelectionController.constrain; cbn [Selection.width Selection.height].
  split; apply min_of_remainder_fits, Math_max_ge_l.
Qed.

Lemma applyZoom_result newZoom st :
  SelectionController.applyZoom newZoom st
  = Normal tt
      (SelectionController.set_selection
         (SelectionController.constrain
            (SelectionController.canvas_width st)
            (SelectionController.canvas_height st)
            (SelectionController.scaleAboutCenter newZoom
               (SelectionController.selection st)))
         st).
Proof. done. Qed.

(** C9.  A wheel event whose clamped zoom equals the current zoom changes
    nothing: the selection rectangle, the zoom and the notifications stay as
    they were.  And whatever zoom [applyZoom] is given, the selection it
    leaves after [constrainToCanvas] is no wider and no higher than the
    canvas. *)
Theorem wheel_zoom_noop_and_fits :
  (∀ now deltaY st,
     SelectionController.wheelZoom (SelectionController.constants st)
       (Selection.zoom (SelectionController.selection st)) deltaY
     = Selection.zoom (SelectionController.selection st) →
     SelectionController.handleWheel now deltaY st = Normal tt st)
  ∧ (∀ newZoom st, ∃ st',
       SelectionController.applyZoom newZoom st = Normal tt st'
       ∧ SelectionController.canvas_width st' = SelectionController.canvas_width st
       ∧ SelectionController.canvas_height st' = SelectionController.canvas_height st
       ∧ Selection.width (SelectionController.selection st')
         ≤ SelectionController.canvas_width st
       ∧ Selection.height (SelectionController.selection st')
         ≤ SelectionController.canvas_height st)
  ∧ (∀ now deltaY st, ∃ st',
       SelectionController.handleWheel now deltaY st = Normal tt st'
       ∧ (st' = st
          ∨ Selection.width (SelectionController.selection st')
            ≤ SelectionController.canvas_width st
            ∧ Selection.height (SelectionController.selection st')
              ≤ SelectionController.canvas_height st)).
Proof.
  split; [|split].
  - intros now deltaY st Hsame.
    unfold SelectionController.handleWheel, bind, get_state, ret.
    rewrite Hsame. by rewrite decide_False by (intros H; by apply H).
  - intros newZoom st. eexists. rewrite applyZoom_result.
    split; [done|]. split; [done|]. split; [done|].
    apply constrain_fits.
  - intros now deltaY st.
    unfold SelectionController.handleWheel, bind, get_state, ret.
    case_decide as Hz.
    + rewrite applyZoom_result. eexists. split; [done|]. right.
      apply constrain_fits.
    + eexists. split; [done|]. by left.
Qed.

Lemma wheel_zoom_noop_and_fits_witness :
  SelectionController.wheelZoom EDITOR_CONSTANTS (frac 3 1) (- frac 120 1) = frac 3 1
  ∧ SelectionController.handleWheel 7000 (- frac 120 1) zoomed_in
    = Normal tt zoomed_in.
Proof.
  split; [compute_done|].
  apply (proj1 wheel_zoom_noop_and_fits 7000%Z (- frac 120 1) zoomed_in).
  compute_done.
Defined.

(** ** The export filter graph *)

Lemma render_loaded_nonempty st kfs trimStart trimEnd :
  VideoRenderer.isLoaded st = true →
  kfs ≠ [] →
  ∃ g, VideoRenderer.render (VideoRenderer.KfArray kfs) trimStart trimEnd st = Normal g st
       ∧ VideoRenderer.trim_start g = trimStart
       ∧ VideoRenderer.trim_end g = trimEnd
       ∧ VideoRenderer.zoompan_z g
         = VideoRenderer.zExpr (VideoRenderer.relativeKeyframes kfs trimStart)
       ∧ VideoRenderer.zoompan_x g
         = VideoRenderer.xExpr (VideoRenderer.relativeKeyframes kfs trimStart)
       ∧ VideoRenderer.zoompan_y g
         = VideoRenderer.yExpr (VideoRenderer.relativeKeyframes kfs trimStart).
Proof.
  intros Hl Hne.
  unfold VideoRenderer.render, bind, get_state, ret. rewrite Hl. cbn [negb].
  destruct kfs as [|kf kfs]; [done|].
  cbn [VideoRenderer.missing VideoRenderer.length_of orb].
  rewrite bool_decide_eq_false_2 by done.
  rewrite decide_True by (cbn; lia).
  eexists. split; [done|]. by repeat split.
Qed.

Lemma relativeKeyframes_timestamps kfs trimStart :
  map Keyframe.timestamp (VideoRenderer.relativeKeyframes kfs trimStart)
  = map (λ kf, Keyframe.timestamp kf - trimStart) kfs.
Proof.
  unfold VideoRenderer.relativeKeyframes. rewrite map_map. done.
Qed.

(** C7.  The filter builder re-timestamps every keyframe it is given onto
    the trim-relative timeline, [relativeT = t - trimStart], keeping its
    selection, and these relative timestamps are the thresholds of the
    emitted terms; a keyframe at [t = 5] under a trim range [[2, 8]] gets
    the relative timestamp [3]. *)
Theorem keyframes_shifted_to_trim_start :
  (∀ kfs trimStart,
     map Keyframe.timestamp (VideoRenderer.relativeKeyframes kfs trimStart)
     = map (λ kf, Keyframe.timestamp kf - trimStart) kfs
     ∧ map Keyframe.selection (VideoRenderer.relativeKeyframes kfs trimStart)
       = map Keyframe.selection kfs)
  ∧ (∀ st kfs trimStart trimEnd,
       VideoRenderer.isLoaded st = true →
       kfs ≠ [] →
       ∃ g, VideoRenderer.render (VideoRenderer.KfArray kfs) trimStart trimEnd st = Normal g st
            ∧ VideoRenderer.zoompan_z g
              = map (λ kf, VideoRenderer.If
                       (VideoRenderer.Gte VideoRenderer.Var_t
                          (VideoRenderer.Num (Keyframe.timestamp kf - trimStart)))
                       (VideoRenderer.Num (Selection.zoom (Keyframe.selection kf)))
                       (VideoRenderer.Num (frac 1 1))) kfs)
  ∧ map Keyframe.timestamp
      (VideoRenderer.relativeKeyframes [keyframe_at 5 (box 0)] (frac 2 1))
    = [frac 3 1].
Proof.
  split; [|split].
  - intros kfs trimStart. split; [apply relativeKeyframes_timestamps|].
    unfold VideoRenderer.relativeKeyframes. by rewrite map_map.
  - intros st kfs trimStart trimEnd Hl Hne.
    destruct (render_loaded_nonempty st kfs trimStart trimEnd Hl Hne)
      as (g & Hg & _ & _ & Hz & _).
    exists g. split; [done|]. rewrite Hz.
    unfold VideoRenderer.zExpr, VideoRenderer.relativeKeyframes.
    by rewrite map_map.
  - compute_done.
Qed.

Lemma keyframes_shifted_to_trim_start_witness :
  VideoRenderer.isLoaded loaded_renderer = true
  ∧ [keyframe_at 5 (box 0)] ≠ []
  ∧ ∃ g, VideoRenderer.render (VideoRenderer.KfArray [keyframe_at 5 (box 0)])
           (frac 2 1) (frac 8 1)
           loaded_renderer = Normal g loaded_renderer
         ∧ VideoRenderer.zoompan_z g
           = [VideoRenderer.If
                (VideoRenderer.Gte VideoRenderer.Var_t
                   (VideoRenderer.Num (frac 5 1 - frac 2 1)))
                (VideoRenderer.Num (frac 1 1))
                (VideoRenderer.Num (frac 1 1))].
Proof.
  split; [reflexivity|]. split; [discriminate|].
  apply (proj1 (proj2 keyframes_shifted_to_trim_start) loaded_renderer
           [keyframe_at 5 (box 0)] (frac 2 1) (frac 8 1));
    [reflexivity | discriminate].
Defined.

(** ** [Map] operations *)

Lemma JsMap_set_length {V} k (v : V) m :
  (length (JsMap.set k v m) ≤ S (length m))%nat.
Proof.
  induction m as [|[k' v'] m IH]; cbn; [lia|].
  case_decide; cbn; lia.
Qed.

Lemma JsMap_get_set_eq {V} k (v : V) m : JsMap.get k (JsMap.set k v m) = Some v.
Proof.
  induction m as [|[k' v'] m IH]; cbn.
  - by rewrite decide_True.
  - destruct (decide (k' = k)) as [->|Hk]; cbn.
    + by rewrite decide_True.
    + by rewrite decide_False.
Qed.

Lemma JsMap_get_set_ne {V} k k' (v : V) m :
  k ≠ k' → JsMap.get k' (JsMap.set k v m) = JsMap.get k' m.
Proof.
  intros Hne. induction m as [|[k0 v0] m IH]; cbn.
  - by rewrite decide_False.
  - destruct (decide (k0 = k)) as [->|Hk]; cbn.
    + by rewrite !decide_False.
    + destruct (decide (k0 = k')); [done | apply IH].
Qed.

Lemma JsMap_keys_set {V} k (v : V) m :
  JsMap.keys (JsMap.set k v m)
  = if decide (k ∈ JsMap.keys m) then JsMap.keys m else JsMap.keys m ++ [k].
Proof.
  unfold JsMap.keys. induction m as [|[k' v'] m IH]; cbn.
  - rewrite decide_False; [done | by intros ?%elem_of_nil].
  - destruct (decide (k' = k)) as [->|Hk]; cbn.
    + rewrite decide_True; [done | by left].
    + rewrite IH. destruct (decide (k ∈ m.*1)) as [Hin|Hin].
      * rewrite decide_True; [done | by right].
      * rewrite decide_False; [done|].
        intros [->|?]%elem_of_cons; [by apply Hk | by apply Hin].
Qed.

Lemma JsMap_has_keys {V} k (m : JsMap V) : JsMap.has k m = true ↔ k ∈ JsMap.keys m.
Proof.
  unfold JsMap.has, JsMap.keys. induction m as [|[k' v'] m IH]; cbn.
  - split; [done | by intros ?%elem_of_nil].
  - destruct (decide (k' = k)) as [->|Hk].
    + split; [intros _; by left | done].
    + rewrite IH. split; [by right|].
      intros [->|?]%elem_of_cons; [by destruct Hk | done].
Qed.

Lemma JsMap_get_keys {V} k (m : JsMap V) : k ∈ JsMap.keys m → is_Some (JsMap.get k m).
Proof.
  intros Hin%JsMap_has_keys. unfold JsMap.has in Hin.
  destruct (JsMap.get k m); [by eexists | done].
Qed.

(** ** [recordKeyframe] *)

Lemma recordKeyframe_unfold now t s st :
  FrameRecorder.recordKeyframe now t s st =
  if negb (FrameRecorder.isRecording st) then Normal tt st
  else if bool_decide (t < 0) || bool_decide (FrameRecorder.videoDuration st < t)
  then Normal tt st
  else if bool_decide (t - FrameRecorder.lastKeyframeTime st
                       < FrameRecorder.minInterval (FrameRecorder.constants st))
          && JsMap.has (FrameRecorder.lastKeyframeTime st) (FrameRecorder.keyframes st)
  then Normal tt st
  else Normal tt (stored now t s st).
Proof.
  unfold FrameRecorder.recordKeyframe, bind, get_state, ret.
  destruct (negb _); [done|].
  destruct (_ || _); [done|].
  destruct (_ && _); done.
Qed.

Lemma stored_differs now t s st : stored now t s st ≠ st.
Proof.
  intros E. apply (f_equal FrameRecorder.dispatched) in E. cbn in E.
  apply (f_equal length) in E. rewrite length_app in E. cbn in E. lia.
Qed.

Lemma recordKeyframe_in_bounds now t s st :
  FrameRecorder.isRecording st = true →
  0 ≤ t → t ≤ FrameRecorder.videoDuration st →
  FrameRecorder.recordKeyframe now t s st =
  if bool_decide (t - FrameRecorder.lastKeyframeTime st
                  < FrameRecorder.minInterval (FrameRecorder.constants st))
     && JsMap.has (FrameRecorder.lastKeyframeTime st) (FrameRecorder.keyframes st)
  then Normal tt st
  else Normal tt (stored now t s st).
Proof.
  intros Hrec H0 Hd. rewrite recordKeyframe_unfold, Hrec. cbn [negb].
  rewrite (bool_decide_eq_false_2 (t < 0)) by (by apply Qcle_not_lt).
  rewrite (bool_decide_eq_false_2 (_ < t)) by (by apply Qcle_not_lt).
  done.
Qed.

Lemma tooSoon_test t st :
  bool_decide (t - FrameRecorder.lastKeyframeTime st
               < FrameRecorder.minInterval (FrameRecorder.constants st))
  && JsMap.has (FrameRecorder.lastKeyframeTime st) (FrameRecorder.keyframes st) = true
  ↔ tooSoon t st.
Proof.
  unfold tooSoon. rewrite andb_true_iff, bool_decide_eq_true. done.
Qed.

Lemma recordKeyframe_total now t s st :
  ∃ st', FrameRecorder.recordKeyframe now t s st = Normal tt st'
         ∧ FrameRecorder.constants st' = FrameRecorder.constants st
         ∧ FrameRecorder.videoDuration st' = FrameRecorder.videoDuration st
         ∧ FrameRecorder.isRecording st' = FrameRecorder.isRecording st
         ∧ (JsMap.size (FrameRecorder.keyframes st')
            ≤ S (JsMap.size (FrameRecorder.keyframes st)))%nat.
Proof.
  rewrite recordKeyframe_unfold.
  destruct (negb _); [exists st; repeat split; unfold JsMap.size; lia|].
  destruct (_ || _); [exists st; repeat split; unfold JsMap.size; lia|].
  destruct (_ && _); [exists st; repeat split; unfold JsMap.size; lia|].
  exists (stored now t s st). repeat split. apply JsMap_set_length.
Qed.

Lemma startRecording_fresh now d st :
  FrameRecorder.isRecording st = false →
  FrameRecorder.startRecording now d st = Normal tt (started now d st).
Proof.
  intros Hrec. unfold FrameRecorder.startRecording, bind, get_state, ret.
  by rewrite Hrec.
Qed.

Lemma run_cons op rest st :
  run (op :: rest) st =
  match step op st with
  | Normal _ st' => run rest st'
  | Throw e st' => Throw e st'
  end.
Proof. done. Qed.

Lemma run_recordCalls calls st :
  ∃ st', run (recordCalls calls) st = Normal tt st'
         ∧ (JsMap.size (FrameRecorder.keyframes st')
            ≤ JsMap.size (FrameRecorder.keyframes st) + length calls)%nat.
Proof.
  revert st. induction calls as [|[[now t] s] calls IH]; intros st.
  - exists st. split; [done | lia].
  - cbn [recordCalls map]. rewrite run_cons. cbn [step fst snd].
    destruct (recordKeyframe_total now t s st) as (st1 & -> & _ & _ & _ & Hsz).
    destruct (IH st1) as (st' & Hrun & Hsz').
    exists st'. split; [done | cbn [length]; lia].
Qed.

Lemma first_sample_stored now d st now' t s :
  FrameRecorder.isRecording st = false →
  0 ≤ t → t ≤ d →
  FrameRecorder.recordKeyframe now' t s (started now d st)
  = Normal tt (stored now' t s (started now d st)).
Proof.
  intros Hrec H0 Hd.
  rewrite recordKeyframe_in_bounds by done.
  cbn [started FrameRecorder.lastKeyframeTime FrameRecorder.keyframes JsMap.has
       JsMap.get].
  by rewrite andb_false_r.
Qed.

Lemma sample_after_stored_dropped now0 t0 s0 now1 t1 s1 st :
  t1 - t0 < FrameRecorder.minInterval (FrameRecorder.constants st) →
  FrameRecorder.recordKeyframe now1 t1 s1 (stored now0 t0 s0 st)
  = Normal tt (stored now0 t0 s0 st).
Proof.
  intros Hclose. rewrite recordKeyframe_unfold.
  cbn [stored FrameRecorder.isRecording FrameRecorder.videoDuration
       FrameRecorder.lastKeyframeTime FrameRecorder.keyframes
       FrameRecorder.constants].
  destruct (negb _); [done|].
  destruct (_ || _); [done|].
  rewrite bool_decide_eq_true_2 by done.
  unfold JsMap.has. by rewrite JsMap_get_set_eq.
Qed.

Lemma two_close_samples_one_entry st c0 c1 :
  c1.1.2 - c0.1.2 < FrameRecorder.minInterval (FrameRecorder.constants st) →
  ∃ st', run (recordCalls [c0; c1]) st = Normal tt st'
         ∧ (JsMap.size (FrameRecorder.keyframes st')
            ≤ S (JsMap.size (FrameRecorder.keyframes st)))%nat.
Proof.
  destruct c0 as [[now0 t0] s0], c1 as [[now1 t1] s1]. cbn [fst snd].
  intros Hclose. cbn [recordCalls map fst snd].
  rewrite run_cons. cbn [step].
  assert (Hsecond : ∃ st',
            run [OpRecord now1 t1 s1] st = Normal tt st'
            ∧ (JsMap.size (FrameRecorder.keyframes st')
               ≤ S (JsMap.size (FrameRecorder.keyframes st)))%nat).
  { rewrite run_cons. cbn [step].
    destruct (recordKeyframe_total now1 t1 s1 st) as (st1 & -> & _ & _ & _ & Hsz).
    by exists st1. }
  rewrite recordKeyframe_unfold.
  destruct (negb _); [exact Hsecond|].
  destruct (_ || _); [exact Hsecond|].
  destruct (_ && _); [exact Hsecond|].
  rewrite run_cons. cbn [step].
  rewrite (sample_after_stored_dropped now0 t0 s0 now1 t1 s1 st Hclose).
  eexists. split; [done|].
  cbn [stored FrameRecorder.keyframes]. apply JsMap_set_length.
Qed.

Lemma close_stream_drops_a_sample st calls :
  (2 ≤ length calls)%nat →
  closelySpaced (FrameRecorder.minInterval (FrameRecorder.constants st)) calls →
  ∃ st', run (recordCalls calls) st = Normal tt st'
         ∧ (JsMap.size (FrameRecorder.keyframes st')
            < JsMap.size (FrameRecorder.keyframes st) + length calls)%nat.
Proof.
  intros Hlen Hclose.
  destruct calls as [|c0 [|c1 rest]]; [cbn in Hlen; lia..|].
  assert (Hc : c1.1.2 - c0.1.2
               < FrameRecorder.minInterval (FrameRecorder.constants st))
    by (by apply (Hclose 0%nat c0 c1)).
  destruct (two_close_samples_one_entry st c0 c1 Hc) as (st2 & Hrun2 & Hsz2).
  cbn [recordCalls map] in *.
  rewrite run_cons. rewrite run_cons in Hrun2.
  destruct (step _ st) as [[] sa|]; [|done].
  rewrite run_cons. rewrite run_cons in Hrun2.
  destruct (step _ sa) as [[] sb|]; [|done].
  cbn [run] in Hrun2. unfold ret in Hrun2. injection Hrun2 as ->.
  destruct (run_recordCalls rest st2) as (st' & Hrun & Hsz).
  exists st'. split; [exact Hrun|]. cbn [length]. lia.
Qed.

(** C2.  While recording, an in-bounds [recordKeyframe(timestamp, selection)]
    is dropped, leaving the recorder as it was, exactly when
    [timestamp - lastKeyframeTime < minInterval] and the track has a keyframe
    at [lastKeyframeTime]; otherwise the keyframe is stored under [timestamp]
    (replacing the one stored there, leaving the others) and
    [lastKeyframeTime] becomes [timestamp].  [minInterval] is
    [KEYFRAME_INTERVAL / 1000 = 0.033].  The first sample of a session is
    stored, and a stream of two or more calls in which each comes less than
    [minInterval] after the one before adds fewer entries than calls: in any
    state of the recorder, and counted from the empty track of a session
    that has just started. *)
Theorem recordKeyframe_min_spacing :
  (∀ now t s st,
     FrameRecorder.isRecording st = true →
     0 ≤ t → t ≤ FrameRecorder.videoDuration st →
     (FrameRecorder.recordKeyframe now t s st = Normal tt st ↔ tooSoon t st)
     ∧ (¬ tooSoon t st →
        ∃ st', FrameRecorder.recordKeyframe now t s st = Normal tt st'
               ∧ JsMap.get t (FrameRecorder.keyframes st')
                 = Some {| Keyframe.timestamp := t;
                           Keyframe.selection := s;
                           Keyframe.recordedAt := now |}
               ∧ (∀ k, k ≠ t →
                    JsMap.get k (FrameRecorder.keyframes st')
                    = JsMap.get k (FrameRecorder.keyframes st))
               ∧ FrameRecorder.lastKeyframeTime st' = t))
  ∧ FrameRecorder.minInterval EDITOR_CONSTANTS = frac 33 1000
  ∧ (∀ now d st now' t s,
       FrameRecorder.isRecording st = false →
       0 ≤ t → t ≤ d →
       ∃ st1 st2,
         FrameRecorder.startRecording now d st = Normal tt st1
         ∧ FrameRecorder.recordKeyframe now' t s st1 = Normal tt st2
         ∧ FrameRecorder.keyframes st2
           = [(t, {| Keyframe.timestamp := t;
                     Keyframe.selection := s;
                     Keyframe.recordedAt := now' |})])
  ∧ (∀ st calls,
       (2 ≤ length calls)%nat →
       closelySpaced (FrameRecorder.minInterval (FrameRecorder.constants st)) calls →
       ∃ st', run (recordCalls calls) st = Normal tt st'
              ∧ (JsMap.size (FrameRecorder.keyframes st')
                 < JsMap.size (FrameRecorder.keyframes st) + length calls)%nat)
  ∧ (∀ now d st calls,
       FrameRecorder.isRecording st = false →
       (2 ≤ length calls)%nat →
       closelySpaced (FrameRecorder.minInterval (FrameRecorder.constants st)) calls →
       ∃ st', run (OpStart now d :: recordCalls calls) st = Normal tt st'
              ∧ (JsMap.size (FrameRecorder.keyframes st') < length calls)%nat).
Proof.
  split; [|split; [|split; [|split]]].
  - intros now t s st Hrec H0 Hd.
    rewrite (recordKeyframe_in_bounds now t s st Hrec H0 Hd).
    split.
    + rewrite <-tooSoon_test. destruct (_ && _); split; try done.
      intros [= E]. by destruct (stored_differs now t s st).
    + intros Hnot. rewrite <-tooSoon_test in Hnot.
      apply not_true_is_false in Hnot. rewrite Hnot.
      exists (stored now t s st). split; [done|].
      cbn [stored FrameRecorder.keyframes FrameRecorder.lastKeyframeTime].
      split; [apply JsMap_get_set_eq|]. split; [|done].
      intros k Hk. by apply JsMap_get_set_ne.
  - compute_done.
  - intros now d st now' t s Hrec H0 Hd.
    exists (started now d st), (stored now' t s (started now d st)).
    split; [by apply startRecording_fresh|].
    split; [by apply first_sample_stored | done].
  - apply close_stream_drops_a_sample.
  - intros now d st calls Hrec Hlen Hclose.
    rewrite run_cons. cbn [step]. rewrite (startRecording_fresh _ _ _ Hrec).
    destruct (close_stream_drops_a_sample (started now d st) calls Hlen Hclose)
      as (st' & Hrun & Hsz).
    exists st'. split; [exact Hrun|]. cbn in Hsz. lia.
Qed.

Lemma recordKeyframe_min_spacing_witness :
  FrameRecorder.isRecording (FrameRecorder.new EDITOR_CONSTANTS) = false
  ∧ (2 ≤ length burst)%nat
  ∧ closelySpaced (frac 33 1000) burst
  ∧ ∃ st', run (OpStart 1000 (frac 10 1) :: recordCalls burst)
             (FrameRecorder.new EDITOR_CONSTANTS) = Normal tt st'
           ∧ (JsMap.size (FrameRecorder.keyframes st') < length burst)%nat.
Proof.
  assert (Hspaced : closelySpaced (frac 33 1000) burst).
  { intros [|[|[|i]]] a b Ha Hb; cbn in Ha, Hb; simplify_eq; compute_done. }
  split; [reflexivity|]. split; [cbn; lia|]. split; [exact Hspaced|].
  apply (proj2 (proj2 (proj2 (proj2 recordKeyframe_min_spacing))) 1000%Z (frac 10 1)
           (FrameRecorder.new EDITOR_CONSTANTS) burst);
    [reflexivity | cbn; lia | exact Hspaced].
Defined.

(** ** The scan of [getInterpolatedSelection] *)

Lemma findSurrounding_spec ts t i b :
  (Forall (λ x, x < t) ts
   ∧ FrameRecorder.findSurrounding ts t i b
     = (if decide (ts = []) then b else (i + Z.of_nat (length ts) - 1)%Z, (-1)%Z))
  ∨ (∃ j x,
       ts !! j = Some x ∧ t ≤ x ∧ Forall (λ y, y < t) (take j ts)
       ∧ FrameRecorder.findSurrounding ts t i b
         = (if decide (x ≤ t) then (i + Z.of_nat j)%Z
            else if decide (j = 0%nat) then b else (i + Z.of_nat j - 1)%Z,
            (i + Z.of_nat j)%Z)).
Proof.
  revert i b. induction ts as [|x ts IH]; intros i b.
  - left. split; [constructor | done].
  - cbn [FrameRecorder.findSurrounding].
    destruct (decide (t ≤ x)) as [Htx|Htx].
    + right. exists 0%nat, x. split; [done|]. split; [done|].
      split; [constructor|].
      rewrite Z.add_0_r. destruct (decide (x ≤ t)); done.
    + apply Qcnot_le_lt in Htx.
      rewrite decide_True by (by apply Qclt_le_weak).
      destruct (IH (i + 1)%Z i) as [[Hall ->]|(j & y & Hj & Hty & Hall & ->)].
      * left. split; [by constructor|].
        rewrite (decide_False (P := x :: ts = [])) by done.
        f_equal. destruct ts as [|x' ts'].
        -- rewrite decide_True by done. cbn. lia.
        -- rewrite decide_False by done. cbn [length]. lia.
      * right. exists (S j), y. split; [done|]. split; [done|].
        split; [cbn; by constructor|].
        f_equal; [|lia].
        destruct (decide (y ≤ t)); [lia|].
        rewrite (decide_False (P := S j = 0%nat)) by done.
        destruct (decide (j = 0%nat)); lia.
Qed.

Lemma sort_numbers_elem l k : k ∈ FrameRecorder.sort_numbers l ↔ k ∈ l.
Proof. unfold FrameRecorder.sort_numbers. by rewrite merge_sort_Permutation. Qed.

Lemma sort_numbers_sorted l : StronglySorted Qcle (FrameRecorder.sort_numbers l).
Proof. apply StronglySorted_merge_sort; apply _. Qed.

Lemma sort_numbers_length l : length (FrameRecorder.sort_numbers l) = length l.
Proof. unfold FrameRecorder.sort_numbers. by rewrite merge_sort_Permutation. Qed.

Lemma sorted_lookup_le (l : list Qc) i j a b :
  StronglySorted Qcle l → (i ≤ j)%nat → l !! i = Some a → l !! j = Some b → a ≤ b.
Proof.
  intros Hs. revert i j. induction Hs as [|x l Hs IH Hall]; intros i j Hij Hi Hj.
  - done.
  - destruct i as [|i], j as [|j]; cbn in Hi, Hj; simplify_eq.
    + apply Qcle_refl.
    + rewrite Forall_forall in Hall. apply Hall. by eapply list_elem_of_lookup_2.
    + lia.
    + apply (IH i j); [lia | done..].
Qed.

Lemma selectionAt_found ts (j : nat) k kf st :
  ts !! j = Some k →
  JsMap.get k (FrameRecorder.keyframes st) = Some kf →
  FrameRecorder.selectionAt ts (Z.of_nat j) st = Normal (Keyframe.selection kf) st.
Proof.
  intros Hj Hk. unfold FrameRecorder.selectionAt, FrameRecorder.at_index,
    bind, get_state, ret.
  rewrite decide_True by lia. rewrite Nat2Z.id, Hj. cbn. by rewrite Hk.
Qed.

Lemma timeAt_found ts (j : nat) k (st : FrameRecorder.state) :
  ts !! j = Some k → FrameRecorder.timeAt ts (Z.of_nat j) st = Normal k st.
Proof.
  intros Hj. unfold FrameRecorder.timeAt, FrameRecorder.at_index.
  rewrite decide_True by lia. by rewrite Nat2Z.id, Hj.
Qed.

Lemma sorted_keys_nonempty {V} (m : JsMap V) :
  m ≠ [] → (0 < length (FrameRecorder.sort_numbers (JsMap.keys m)))%nat.
Proof.
  intros Hne. rewrite sort_numbers_length. unfold JsMap.keys.
  rewrite length_fmap. destruct m; [done | cbn; lia].
Qed.

Lemma sorted_key_stored (m : JsMap Keyframe.t) j k :
  FrameRecorder.sort_numbers (JsMap.keys m) !! j = Some k →
  k ∈ JsMap.keys m ∧ ∃ kf, JsMap.get k m = Some kf.
Proof.
  intros Hj. assert (Hin : k ∈ JsMap.keys m).
  { apply sort_numbers_elem. by eapply list_elem_of_lookup_2. }
  split; [done|]. by apply JsMap_get_keys.
Qed.

(** What [getInterpolatedSelection] returns on a track that is not empty. *)
Lemma getInterpolatedSelection_cases t st :
  FrameRecorder.keyframes st ≠ [] →
  ∃ r, FrameRecorder.getInterpolatedSelection t st = Normal (Some r) st
  ∧ ((∃ kmax kf,
        Forall (λ k, k < t) (JsMap.keys (FrameRecorder.keyframes st))
        ∧ kmax ∈ JsMap.keys (FrameRecorder.keyframes st)
        ∧ (∀ k, k ∈ JsMap.keys (FrameRecorder.keyframes st) → k ≤ kmax)
        ∧ JsMap.get kmax (FrameRecorder.keyframes st) = Some kf
        ∧ r = Keyframe.selection kf)
     ∨ (∃ kf, JsMap.get t (FrameRecorder.keyframes st) = Some kf
              ∧ r = Keyframe.selection kf)
     ∨ (∃ kmin kf,
          Forall (λ k, t < k) (JsMap.keys (FrameRecorder.keyframes st))
          ∧ kmin ∈ JsMap.keys (FrameRecorder.keyframes st)
          ∧ (∀ k, k ∈ JsMap.keys (FrameRecorder.keyframes st) → kmin ≤ k)
          ∧ JsMap.get kmin (FrameRecorder.keyframes st) = Some kf
          ∧ r = Keyframe.selection kf)
     ∨ (∃ k1 k2 kf1 kf2,
          k1 < t ∧ t < k2
          ∧ (∀ k, k ∈ JsMap.keys (FrameRecorder.keyframes st) → k ≤ k1 ∨ k2 ≤ k)
          ∧ JsMap.get k1 (FrameRecorder.keyframes st) = Some kf1
          ∧ JsMap.get k2 (FrameRecorder.keyframes st) = Some kf2
          ∧ r = FrameRecorder.interpolateSelection (FrameRecorder.constants st)
                  (Keyframe.selection kf1) (Keyframe.selection kf2) k1 k2 t)).
Proof.
  intros Hne.
  pose proof (sorted_keys_nonempty _ Hne) as Hlen.
  pose proof (sort_numbers_sorted (JsMap.keys (FrameRecorder.keyframes st))) as Hsorted.
  unfold FrameRecorder.getInterpolatedSelection, bind, get_state.
  rewrite decide_False by (unfold JsMap.size; by destruct (FrameRecorder.keyframes st)).
  set (ts := FrameRecorder.sort_numbers (JsMap.keys (FrameRecorder.keyframes st))) in *.
  destruct (findSurrounding_spec ts t 0 (-1))
    as [[Hall ->]|(j & x & Hj & Htx & Hall & ->)].
  - (* every timestamp is before [t] *)
    rewrite decide_False by (intros E; rewrite E in Hlen; cbn in Hlen; lia).
    replace (0 + Z.of_nat (length ts) - 1)%Z with (Z.of_nat (pred (length ts))) by lia.
    destruct (lookup_lt_is_Some_2 ts (pred (length ts))) as [kmax Hmax]; [lia|].
    destruct (sorted_key_stored _ _ _ Hmax) as (Hin & kf & Hkf).
    rewrite (bool_decide_eq_false_2 (_ = (-1)%Z)) by lia.
    cbn [andb negb].
    rewrite (bool_decide_eq_true_2 ((-1)%Z = (-1)%Z)) by done.
    rewrite (selectionAt_found ts _ kmax kf st Hmax Hkf).
    exists (Keyframe.selection kf). split; [done|]. left.
    exists kmax, kf. split_and!; try done.
    + rewrite Forall_forall in Hall |- *. intros k Hk. by apply Hall, sort_numbers_elem.
    + intros k Hk. apply sort_numbers_elem in Hk.
      apply list_elem_of_lookup_1 in Hk as [p Hp]. fold ts in Hp.
      apply (sorted_lookup_le ts p (pred (length ts))); [done| |done..].
      apply lookup_lt_Some in Hp. lia.
  - rewrite !Z.add_0_l.
    destruct (sorted_key_stored _ _ _ Hj) as (Hin & kf & Hkf).
    destruct (decide (x ≤ t)) as [Hxt|Hxt].
    + (* a keyframe at [t] *)
      assert (x = t) as -> by (by apply Qcle_antisym).
      rewrite (bool_decide_eq_true_2 (Z.of_nat j = Z.of_nat j)) by done.
      rewrite (bool_decide_eq_false_2 (Z.of_nat j = (-1)%Z)) by lia.
      cbn [andb negb].
      rewrite (selectionAt_found ts _ t kf st Hj Hkf).
      exists (Keyframe.selection kf). split; [done|]. right. left. by exists kf.
    + apply Qcnot_le_lt in Hxt.
      assert (Hafter : ∀ p k, (j ≤ p)%nat → ts !! p = Some k → x ≤ k).
      { intros p k Hp Hk. by apply (sorted_lookup_le ts j p). }
      destruct (decide (j = 0%nat)) as [->|Hj0].
      * (* every timestamp is after [t] *)
        cbn [Z.of_nat].
        rewrite (bool_decide_eq_false_2 ((-1)%Z = 0%Z)) by done.
        rewrite (bool_decide_eq_true_2 ((-1)%Z = (-1)%Z)) by done.
        rewrite (bool_decide_eq_false_2 (0%Z = (-1)%Z)) by done.
        cbn [andb negb].
        rewrite (selectionAt_found ts 0%nat x kf st Hj Hkf).
        exists (Keyframe.selection kf). split; [done|]. right. right. left.
        exists x, kf.
        assert (Hmin : ∀ k, k ∈ JsMap.keys (FrameRecorder.keyframes st) → x ≤ k).
        { intros k Hk. apply sort_numbers_elem in Hk.
          apply list_elem_of_lookup_1 in Hk as [p Hp]. fold ts in Hp.
          apply (Hafter p k); [lia | done]. }
        split_and!; try done.
        rewrite Forall_forall. intros k Hk.
        apply Qclt_le_trans with x; [done | by apply Hmin].
      * (* [t] lies strictly between two neighbours *)
        destruct j as [|j']; [done|].
        replace (Z.of_nat (S j') - 1)%Z with (Z.of_nat j') by lia.
        assert (Hlt : (j' < length ts)%nat)
          by (apply lookup_lt_Some in Hj; lia).
        destruct (lookup_lt_is_Some_2 ts j' Hlt) as [k1 Hk1].
        destruct (sorted_key_stored _ _ _ Hk1) as (Hin1 & kf1 & Hkf1).
        assert (Hk1t : k1 < t).
        { rewrite Forall_forall in Hall. apply Hall.
          apply (list_elem_of_lookup_2 _ j'). rewrite lookup_take_lt by lia. done. }
        rewrite (bool_decide_eq_false_2 (Z.of_nat j' = Z.of_nat (S j'))) by lia.
        rewrite (bool_decide_eq_false_2 (Z.of_nat j' = (-1)%Z)) by lia.
        rewrite (bool_decide_eq_false_2 (Z.of_nat (S j') = (-1)%Z)) by lia.
        cbn [andb negb].
        rewrite (selectionAt_found ts _ k1 kf1 st Hk1 Hkf1).
        rewrite (selectionAt_found ts _ x kf st Hj Hkf).
        rewrite (timeAt_found ts _ k1 st Hk1), (timeAt_found ts _ x st Hj).
        eexists. split; [done|]. right. right. right.
        exists k1, x, kf1, kf. split_and!; try done.
        intros k Hk. apply sort_numbers_elem in Hk.
        apply list_elem_of_lookup_1 in Hk as [p Hp]. fold ts in Hp.
        destruct (decide (p ≤ j')%nat).
        -- left. by apply (sorted_lookup_le ts p j').
        -- right. apply (Hafter p k); [lia | done].
Qed.

Lemma JsMap_get_Some_keys {V} k (v : V) m : JsMap.get k m = Some v → k ∈ JsMap.keys m.
Proof.
  intros Hget. apply JsMap_has_keys. unfold JsMap.has. by rewrite Hget.
Qed.

Lemma getInterpolatedSelection_empty t st :
  FrameRecorder.keyframes st = [] →
  FrameRecorder.getInterpolatedSelection t st = Normal None st.
Proof.
  intros Hm. unfold FrameRecorder.getInterpolatedSelection, bind, get_state, ret.
  rewrite Hm. done.
Qed.

(** C1.  [getInterpolatedSelection(t)] returns and leaves the recorder as it
    was.  It returns [null] exactly when the track is empty.  When a keyframe
    is stored at [t] it returns the selection of that keyframe, as stored.
    When [t] is before the first stored timestamp it returns the selection of
    the first keyframe, and when [t] is after the last stored timestamp the
    selection of the last one, as stored. *)
Theorem getInterpolatedSelection_boundaries t st :
  ∃ r, FrameRecorder.getInterpolatedSelection t st = Normal r st
  ∧ (r = None ↔ FrameRecorder.keyframes st = [])
  ∧ (∀ kf, JsMap.get t (FrameRecorder.keyframes st) = Some kf →
           r = Some (Keyframe.selection kf))
  ∧ (∀ first kf,
       JsMap.get first (FrameRecorder.keyframes st) = Some kf →
       (∀ k, k ∈ JsMap.keys (FrameRecorder.keyframes st) → first ≤ k) →
       t < first →
       r = Some (Keyframe.selection kf))
  ∧ (∀ last kf,
       JsMap.get last (FrameRecorder.keyframes st) = Some kf →
       (∀ k, k ∈ JsMap.keys (FrameRecorder.keyframes st) → k ≤ last) →
       last < t →
       r = Some (Keyframe.selection kf)).
Proof.
  destruct (decide (FrameRecorder.keyframes st = [])) as [Hm|Hm].
  - exists None. split; [by apply getInterpolatedSelection_empty|].
    rewrite Hm. split; [done|]. split; [done|]. split; intros k kf Hget; done.
  - destruct (getInterpolatedSelection_cases t st Hm) as (r & Hr & Hcases).
    exists (Some r). split; [done|]. split; [done|].
    split; [|split].
    + (* a keyframe at [t] *)
      intros kf Hget. pose proof (JsMap_get_Some_keys _ _ _ Hget) as Hin.
      destruct Hcases as [(kmax & kf' & Hall & _)|[(kf' & Hget' & ->)
        |[(kmin & kf' & Hall & _)|(k1 & k2 & kf1 & kf2 & H1 & H2 & Hgap & _)]]].
      * rewrite Forall_forall in Hall. specialize (Hall t Hin). qc_lra.
      * by simplify_eq.
      * rewrite Forall_forall in Hall. specialize (Hall t Hin). qc_lra.
      * destruct (Hgap t Hin); qc_lra.
    + (* [t] before the first keyframe *)
      intros first kf Hget Hmin Hlt.
      pose proof (JsMap_get_Some_keys _ _ _ Hget) as Hin.
      destruct Hcases as [(kmax & kf' & Hall & _)|[(kf' & Hget' & ->)
        |[(kmin & kf' & Hall & Hin' & Hmin' & Hget' & ->)
         |(k1 & k2 & kf1 & kf2 & H1 & H2 & Hgap & Hget1 & _)]]].
      * rewrite Forall_forall in Hall. specialize (Hall first Hin). qc_lra.
      * specialize (Hmin t (JsMap_get_Some_keys _ _ _ Hget')). qc_lra.
      * assert (kmin = first) as ->
          by (apply Qcle_antisym; [by apply Hmin' | by apply Hmin]).
        by simplify_eq.
      * specialize (Hmin k1 (JsMap_get_Some_keys _ _ _ Hget1)). qc_lra.
    + (* [t] after the last keyframe *)
      intros last kf Hget Hmax Hlt.
      pose proof (JsMap_get_Some_keys _ _ _ Hget) as Hin.
      destruct Hcases as [(kmax & kf' & Hall & Hin' & Hmax' & Hget' & ->)
        |[(kf' & Hget' & ->)
        |[(kmin & kf' & Hall & _)
         |(k1 & k2 & kf1 & kf2 & H1 & H2 & Hgap & _ & Hget2 & _)]]].
      * assert (kmax = last) as ->
          by (apply Qcle_antisym; [by apply Hmax | by apply Hmax']).
        by simplify_eq.
      * specialize (Hmax t (JsMap_get_Some_keys _ _ _ Hget')). qc_lra.
      * rewrite Forall_forall in Hall. specialize (Hall last Hin). qc_lra.
      * specialize (Hmax k2 (JsMap_get_Some_keys _ _ _ Hget2)). qc_lra.
Qed.

Lemma getInterpolatedSelection_boundaries_witness :
  JsMap.get (frac 1 1) (FrameRecorder.keyframes (two_keyframes EDITOR_CONSTANTS))
  = Some {| Keyframe.timestamp := frac 1 1;
            Keyframe.selection := box 0;
            Keyframe.recordedAt := 2000 |}
  ∧ (∀ k, k ∈ JsMap.keys (FrameRecorder.keyframes (two_keyframes EDITOR_CONSTANTS)) →
          frac 1 1 ≤ k)
  ∧ frac 1 2 < frac 1 1
  ∧ FrameRecorder.getInterpolatedSelection (frac 1 2) (two_keyframes EDITOR_CONSTANTS)
    = Normal (Some (box 0)) (two_keyframes EDITOR_CONSTANTS).
Proof.
  assert (Hget : JsMap.get (frac 1 1)
                   (FrameRecorder.keyframes (two_keyframes EDITOR_CONSTANTS))
                 = Some {| Keyframe.timestamp := frac 1 1;
                           Keyframe.selection := box 0;
                           Keyframe.recordedAt := 2000 |}) by compute_done.
  assert (Hmin : ∀ k,
            k ∈ JsMap.keys (FrameRecorder.keyframes (two_keyframes EDITOR_CONSTANTS)) →
            frac 1 1 ≤ k).
  { intros k Hk.
    assert (Hkeys : JsMap.keys (FrameRecorder.keyframes (two_keyframes EDITOR_CONSTANTS))
                    = [frac 1 1; frac 3 1]) by compute_done.
    rewrite Hkeys in Hk.
    apply elem_of_cons in Hk as [->|Hk]; [compute_done|].
    apply list_elem_of_singleton in Hk as ->. compute_done. }
  assert (Hlt : frac 1 2 < frac 1 1) by compute_done.
  split; [exact Hget|]. split; [exact Hmin|]. split; [exact Hlt|].
  destruct (getInterpolatedSelection_boundaries (frac 1 2)
              (two_keyframes EDITOR_CONSTANTS)) as (r & Hr & _ & _ & Hfirst & _).
  rewrite Hr. f_equal. exact (Hfirst _ _ Hget Hmin Hlt).
Defined.

(** ** [exportKeyframes] *)

#[global] Instance byTimestamp_trans : Transitive FrameRecorder.byTimestamp.
Proof. intros a b c. unfold FrameRecorder.byTimestamp. apply Qcle_trans. Qed.

#[global] Instance byTimestamp_total : Total FrameRecorder.byTimestamp.
Proof. intros a b. unfold FrameRecorder.byTimestamp. apply (total Qcle). Qed.

Lemma filter_keys_subset {V} (P : Qc * V → Prop) `{!∀ e, Decision (P e)}
    (m : JsMap V) k :
  k ∈ (filter P m).*1 → k ∈ m.*1.
Proof.
  intros ((k' & v) & -> & Hin)%list_elem_of_fmap.
  apply list_elem_of_filter in Hin as [_ Hin].
  apply list_elem_of_fmap. by exists (k', v).
Qed.

Lemma filter_keys_NoDup {V} (P : Qc * V → Prop) `{!∀ e, Decision (P e)}
    (m : JsMap V) :
  NoDup m.*1 → NoDup (filter P m).*1.
Proof.
  induction m as [|[k v] m IH]; [done|].
  cbn [fmap list_fmap fst]. intros [Hk Hm]%NoDup_cons.
  rewrite filter_cons. destruct (decide (P (k, v))); [|by apply IH].
  cbn [fmap list_fmap fst]. apply NoDup_cons. split; [|by apply IH].
  intros Hin. by apply Hk, (filter_keys_subset P).
Qed.

Lemma keyed_timestamps m :
  keyedByTimestamp m → Keyframe.timestamp <$> m.*2 = m.*1.
Proof.
  unfold keyedByTimestamp. induction 1 as [|[k kf] m Hk _ IH]; [done|].
  cbn in *. by rewrite Hk, IH.
Qed.

Lemma filterRange_by_timestamp s e m :
  keyedByTimestamp m →
  FrameRecorder.filterRange s e m
  = filter (λ kf, s ≤ Keyframe.timestamp kf ∧ Keyframe.timestamp kf ≤ e) m.*2.
Proof.
  unfold keyedByTimestamp, FrameRecorder.filterRange.
  induction 1 as [|[k kf] m Hk _ IH]; [done|].
  cbn [fmap list_fmap snd]. rewrite !filter_cons. cbn [fst snd] in *. rewrite Hk.
  destruct (decide (s ≤ k ∧ k ≤ e)); cbn [fmap list_fmap snd]; by rewrite IH.
Qed.

Lemma filterRange_timestamps_NoDup s e m :
  track_wf m → NoDup (Keyframe.timestamp <$> FrameRecorder.filterRange s e m).
Proof.
  intros [Hwf Hkeyed]. unfold FrameRecorder.filterRange.
  rewrite keyed_timestamps.
  - by apply filter_keys_NoDup.
  - unfold keyedByTimestamp in *. rewrite Forall_forall in Hkeyed |- *.
    intros x [_ Hx]%list_elem_of_filter. by apply Hkeyed.
Qed.

Lemma sorted_strict (l : list Keyframe.t) :
  StronglySorted FrameRecorder.byTimestamp l →
  NoDup (Keyframe.timestamp <$> l) →
  StronglySorted (λ a b, Keyframe.timestamp a < Keyframe.timestamp b) l.
Proof.
  induction 1 as [|a l Hs IH Hall]; [constructor|].
  cbn [fmap list_fmap]. intros [Ha Hl]%NoDup_cons.
  constructor; [by apply IH|].
  rewrite Forall_forall in Hall |- *. intros b Hb.
  specialize (Hall b Hb). unfold FrameRecorder.byTimestamp in Hall.
  destruct (decide (Keyframe.timestamp a = Keyframe.timestamp b)) as [E|E].
  - destruct Ha. rewrite E. apply list_elem_of_fmap. by exists b.
  - qc_lra.
Qed.

Lemma sort_keyframes_unique l1 l2 :
  NoDup (Keyframe.timestamp <$> l2) →
  l1 ≡ₚ l2 →
  FrameRecorder.sort_keyframes l1 = FrameRecorder.sort_keyframes l2.
Proof.
  intros Hnd Hp. unfold FrameRecorder.sort_keyframes.
  apply (StronglySorted_unique_strong FrameRecorder.byTimestamp).
  - intros x1 x2 Hx1 Hx2 H12 H21.
    rewrite merge_sort_Permutation in Hx1, Hx2. rewrite Hp in Hx1.
    unfold FrameRecorder.byTimestamp in *.
    assert (E : Keyframe.timestamp x1 = Keyframe.timestamp x2)
      by (by apply Qcle_antisym).
    apply list_elem_of_lookup_1 in Hx1 as [i Hi].
    apply list_elem_of_lookup_1 in Hx2 as [j Hj].
    assert (i = j).
    { apply (NoDup_lookup _ i j (Keyframe.timestamp x1) Hnd).
      - by rewrite list_lookup_fmap, Hi.
      - by rewrite list_lookup_fmap, Hj, E. }
    by simplify_eq.
  - apply StronglySorted_merge_sort; apply _.
  - apply StronglySorted_merge_sort; apply _.
  - by rewrite !merge_sort_Permutation.
Qed.

(** C6.  On a track in which no timestamp occurs twice and every keyframe is
    stored under its own timestamp, [exportKeyframes(start, end)] returns and
    leaves the recorder as it was; the keyframes it returns are exactly those
    of the track with [start <= timestamp <= end], in strictly ascending
    order of timestamp; and a track with the same entries inserted in another
    order gives the same list.  An omitted [start] is [0], an omitted [end]
    is the video duration. *)
Theorem exportKeyframes_range_sorted now startTime endTime st :
  track_wf (FrameRecorder.keyframes st) →
  let s := default 0 startTime in
  let e := default (FrameRecorder.videoDuration st) endTime in
  ∃ data,
    FrameRecorder.exportKeyframes now startTime endTime st = Normal data st
    ∧ FrameRecorder.ed_keyframes data
      ≡ₚ filter (λ kf, s ≤ Keyframe.timestamp kf ∧ Keyframe.timestamp kf ≤ e)
           (JsMap.values (FrameRecorder.keyframes st))
    ∧ StronglySorted (λ a b, Keyframe.timestamp a < Keyframe.timestamp b)
        (FrameRecorder.ed_keyframes data)
    ∧ FrameRecorder.ed_startTime data = s
    ∧ FrameRecorder.ed_endTime data = e
    ∧ FrameRecorder.ed_totalKeyframes data = length (FrameRecorder.ed_keyframes data)
    ∧ ∀ st2,
        track_wf (FrameRecorder.keyframes st2) →
        FrameRecorder.keyframes st2 ≡ₚ FrameRecorder.keyframes st →
        ∃ data2,
          FrameRecorder.exportKeyframes now (Some s) (Some e) st2 = Normal data2 st2
          ∧ FrameRecorder.ed_keyframes data2 = FrameRecorder.ed_keyframes data.
Proof.
  intros Hwf s e.
  unfold FrameRecorder.exportKeyframes, bind, get_state, ret.
  fold s e. eexists. split; [done|].
  cbn [FrameRecorder.ed_keyframes FrameRecorder.ed_startTime
       FrameRecorder.ed_endTime FrameRecorder.ed_totalKeyframes].
  split_and!; try done.
  - unfold FrameRecorder.sort_keyframes. rewrite merge_sort_Permutation.
    by rewrite (filterRange_by_timestamp s e _ (proj2 Hwf)).
  - apply sorted_strict.
    + apply StronglySorted_merge_sort; apply _.
    + unfold FrameRecorder.sort_keyframes. rewrite merge_sort_Permutation.
      by apply filterRange_timestamps_NoDup.
  - intros st2 Hwf2 Hperm. eexists. split; [done|].
    cbn [FrameRecorder.ed_keyframes default].
    apply sort_keyframes_unique.
    + by apply filterRange_timestamps_NoDup.
    + unfold FrameRecorder.filterRange. by rewrite Hperm.
Qed.

Lemma exportKeyframes_range_sorted_witness :
  track_wf (FrameRecorder.keyframes (two_keyframes EDITOR_CONSTANTS))
  ∧ track_wf (FrameRecorder.keyframes (two_keyframes_reversed EDITOR_CONSTANTS))
  ∧ JsMap.keys (FrameRecorder.keyframes (two_keyframes_reversed EDITOR_CONSTANTS))
    = [frac 3 1; frac 1 1]
  ∧ ∃ data data2,
      FrameRecorder.exportKeyframes 9000 (Some 0) (Some (frac 10 1))
        (two_keyframes EDITOR_CONSTANTS)
      = Normal data (two_keyframes EDITOR_CONSTANTS)
      ∧ FrameRecorder.exportKeyframes 9000 (Some 0) (Some (frac 10 1))
          (two_keyframes_reversed EDITOR_CONSTANTS)
        = Normal data2 (two_keyframes_reversed EDITOR_CONSTANTS)
      ∧ FrameRecorder.ed_keyframes data2 = FrameRecorder.ed_keyframes data.
Proof.
  assert (Hwf : track_wf (FrameRecorder.keyframes (two_keyframes EDITOR_CONSTANTS))).
  { split; [unfold JsMap.wf | unfold keyedByTimestamp]; compute_done. }
  assert (Hwf2 : track_wf
                   (FrameRecorder.keyframes (two_keyframes_reversed EDITOR_CONSTANTS))).
  { split; [unfold JsMap.wf | unfold keyedByTimestamp]; compute_done. }
  assert (Hperm : FrameRecorder.keyframes (two_keyframes_reversed EDITOR_CONSTANTS)
                  ≡ₚ FrameRecorder.keyframes (two_keyframes EDITOR_CONSTANTS)).
  { assert (H1 : FrameRecorder.keyframes (two_keyframes EDITOR_CONSTANTS)
                 = [(frac 1 1, {| Keyframe.timestamp := frac 1 1;
                                  Keyframe.selection := box 0;
                                  Keyframe.recordedAt := 2000 |});
                    (frac 3 1, {| Keyframe.timestamp := frac 3 1;
                                  Keyframe.selection := box 100;
                                  Keyframe.recordedAt := 4000 |})]) by compute_done.
    assert (H2 : FrameRecorder.keyframes (two_keyframes_reversed EDITOR_CONSTANTS)
                 = [(frac 3 1, {| Keyframe.timestamp := frac 3 1;
                                  Keyframe.selection := box 100;
                                  Keyframe.recordedAt := 4000 |});
                    (frac 1 1, {| Keyframe.timestamp := frac 1 1;
                                  Keyframe.selection := box 0;
                                  Keyframe.recordedAt := 2000 |})]) by compute_done.
    rewrite H1, H2. apply Permutation_swap. }
  split; [exact Hwf|]. split; [exact Hwf2|]. split; [compute_done|].
  destruct (exportKeyframes_range_sorted 9000 (Some 0) (Some (frac 10 1))
              (two_keyframes EDITOR_CONSTANTS) Hwf)
    as (data & Hdata & _ & _ & _ & _ & _ & Horder).
  destruct (Horder (two_keyframes_reversed EDITOR_CONSTANTS) Hwf2 Hperm)
    as (data2 & Hdata2 & Hsame).
  exists data, data2. split; [exact Hdata|]. split; [exact Hdata2 | exact Hsame].
Defined.

(** ** Invariants of the track along operation sequences *)

Lemma JsMap_set_Forall {V} (P : Qc * V → Prop) k v (m : JsMap V) :
  Forall P m → P (k, v) → Forall P (JsMap.set k v m).
Proof.
  intros Hm Hkv. induction Hm as [|[k' v'] m Hx Hm IH]; cbn.
  - by constructor.
  - destruct (decide (k' = k)) as [->|Hne]; by constructor.
Qed.

Lemma JsMap_set_wf {V} k (v : V) m : JsMap.wf m → JsMap.wf (JsMap.set k v m).
Proof.
  unfold JsMap.wf. intros Hwf. rewrite JsMap_keys_set.
  destruct (decide (k ∈ JsMap.keys m)); [done|].
  apply NoDup_app. split; [done|]. split; [|apply NoDup_singleton].
  intros x Hx ->%list_elem_of_singleton. done.
Qed.

Lemma JsMap_keys_set_elem {V} k (v : V) m k' :
  k' ∈ JsMap.keys (JsMap.set k v m) ↔ k' = k ∨ k' ∈ JsMap.keys m.
Proof.
  rewrite JsMap_keys_set. destruct (decide (k ∈ JsMap.keys m)) as [Hin|Hin].
  - split; [by right | by intros [->|?]].
  - rewrite elem_of_app, list_elem_of_singleton. tauto.
Qed.

Lemma setAll_keys kfs m k :
  k ∈ JsMap.keys (FrameRecorder.setAll kfs m)
  ↔ k ∈ JsMap.keys m ∨ k ∈ Keyframe.timestamp <$> kfs.
Proof.
  unfold FrameRecorder.setAll. revert m.
  induction kfs as [|kf kfs IH]; intros m; cbn [foldl fmap list_fmap].
  - split; [by left | by intros [?|?%elem_of_nil]].
  - rewrite IH, JsMap_keys_set_elem, elem_of_cons. tauto.
Qed.

Lemma setAll_wf kfs m : track_wf m → track_wf (FrameRecorder.setAll kfs m).
Proof.
  unfold FrameRecorder.setAll. revert m.
  induction kfs as [|kf kfs IH]; intros m Hm; cbn [foldl]; [done|].
  apply IH. destruct Hm as [Hwf Hkeyed]. split.
  - by apply JsMap_set_wf.
  - by apply JsMap_set_Forall.
Qed.

Lemma delete_wf k m : track_wf m → track_wf (JsMap.delete k m).
Proof.
  intros [Hwf Hkeyed]. split.
  - unfold JsMap.wf, JsMap.keys, JsMap.delete. by apply filter_keys_NoDup.
  - unfold keyedByTimestamp, JsMap.delete in *.
    rewrite Forall_forall in Hkeyed |- *.
    intros x [_ Hx]%list_elem_of_filter. by apply Hkeyed.
Qed.

Lemma delete_keys_subset {V} k (m : JsMap V) k' :
  k' ∈ JsMap.keys (JsMap.delete k m) → k' ∈ JsMap.keys m.
Proof. apply filter_keys_subset. Qed.

(** What one operation does to the track and to the duration. *)
Lemma step_effect op st :
  ∃ st', step op st = Normal tt st'
  ∧ FrameRecorder.constants st' = FrameRecorder.constants st
  ∧ match op with
    | OpStart _ d =>
        (st' = st ∧ FrameRecorder.isRecording st = true)
        ∨ (FrameRecorder.keyframes st' = [] ∧ FrameRecorder.videoDuration st' = d)
    | OpStop _ =>
        FrameRecorder.keyframes st' = FrameRecorder.keyframes st
        ∧ FrameRecorder.videoDuration st' = FrameRecorder.videoDuration st
    | OpRecord now t s =>
        st' = st
        ∨ (0 ≤ t ∧ t ≤ FrameRecorder.videoDuration st ∧ st' = stored now t s st)
    | OpImport _ d =>
        FrameRecorder.keyframes st' = FrameRecorder.setAll (imported d) []
        ∧ FrameRecorder.videoDuration st' = FrameRecorder.videoDuration st
    | OpDelete _ t =>
        FrameRecorder.videoDuration st' = FrameRecorder.videoDuration st
        ∧ (FrameRecorder.keyframes st' = FrameRecorder.keyframes st
           ∨ FrameRecorder.keyframes st'
             = JsMap.delete t (FrameRecorder.keyframes st))
    | OpClear _ =>
        FrameRecorder.keyframes st' = []
        ∧ FrameRecorder.videoDuration st' = FrameRecorder.videoDuration st
    end.
Proof.
  destruct op as [now d|now|now t s|now d|now t|now]; cbn [step].
  - unfold FrameRecorder.startRecording, bind, get_state, ret.
    destruct (FrameRecorder.isRecording st) eqn:Hrec.
    + exists st. split; [done|]. split; [done|]. by left.
    + eexists. split; [done|]. split; [done|]. by right.
  - unfold FrameRecorder.stopRecording, bind, get_state, ret.
    destruct (negb _); eexists; (split; [done|]); done.
  - rewrite recordKeyframe_unfold.
    destruct (negb _); [exists st; split; [done|]; split; [done | by left]|].
    destruct (bool_decide (t < 0)) eqn:H0;
      [exists st; split; [done|]; split; [done | by left]|].
    destruct (bool_decide (FrameRecorder.videoDuration st < t)) eqn:Hd;
      [exists st; split; [done|]; split; [done | by left]|].
    cbn [orb].
    destruct (_ && _); [exists st; split; [done|]; split; [done | by left]|].
    exists (stored now t s st). split; [done|]. split; [done|]. right.
    apply bool_decide_eq_false in H0, Hd.
    split; [by apply Qcnot_lt_le|]. split; [by apply Qcnot_lt_le | done].
  - unfold FrameRecorder.importKeyframes, FrameRecorder.clearKeyframes, imported,
      bind, modify, FrameRecorder.emitRecordingEvent, ret.
    destruct (FrameRecorder.kd_keyframes d); eexists; (split; [done|]); done.
  - unfold FrameRecorder.deleteKeyframe, bind, get_state, modify,
      FrameRecorder.emitRecordingEvent, ret.
    destruct (JsMap.has _ _); eexists; (split; [done|]); cbn; auto.
  - unfold FrameRecorder.clearKeyframes, bind, modify,
      FrameRecorder.emitRecordingEvent.
    eexists. split; [done|]. done.
Qed.

Lemma step_keeps_bounds op st :
  inBounds st →
  match op with
  | OpImport _ d =>
      Forall (λ kf, 0 ≤ Keyframe.timestamp kf
                    ∧ Keyframe.timestamp kf ≤ FrameRecorder.videoDuration st)
             (imported d)
  | _ => True
  end →
  ∃ st', step op st = Normal tt st' ∧ inBounds st'.
Proof.
  intros Hin Himp. destruct (step_effect op st) as (st' & Hstep & _ & Heff).
  exists st'. split; [done|]. unfold inBounds in *.
  destruct op as [now d|now|now t s|now d|now t|now].
  - destruct Heff as [[-> _]|[-> _]]; [done | constructor].
  - destruct Heff as [-> ->]. done.
  - destruct Heff as [->|(H0 & Hd & ->)]; [done|].
    cbn [stored FrameRecorder.keyframes FrameRecorder.videoDuration].
    rewrite Forall_forall in Hin |- *.
    intros k [->|Hk]%JsMap_keys_set_elem; [done | by apply Hin].
  - destruct Heff as [-> ->]. cbv beta iota in Himp.
    rewrite Forall_forall in Himp. rewrite Forall_forall.
    intros k [Hk|Hk]%setAll_keys; [by apply elem_of_nil in Hk|].
    apply list_elem_of_fmap in Hk as (kf & -> & Hkf). by apply Himp.
  - destruct Heff as [-> [->| ->]]; [done|].
    rewrite Forall_forall in Hin |- *.
    intros k Hk%delete_keys_subset. by apply Hin.
  - destruct Heff as [-> _]. constructor.
Qed.

Lemma step_keeps_wf op st :
  track_wf (FrameRecorder.keyframes st) →
  ∃ st', step op st = Normal tt st' ∧ track_wf (FrameRecorder.keyframes st').
Proof.
  intros Hwf. destruct (step_effect op st) as (st' & Hstep & _ & Heff).
  assert (Hnil : track_wf ([] : JsMap Keyframe.t))
    by (split; [apply NoDup_nil_2 | constructor]).
  exists st'. split; [done|].
  destruct op as [now d|now|now t s|now d|now t|now].
  - destruct Heff as [[-> _]|[-> _]]; done.
  - destruct Heff as [-> _]. done.
  - destruct Heff as [->|(_ & _ & ->)]; [done|].
    cbn [stored FrameRecorder.keyframes]. destruct Hwf as [Hwf Hkeyed].
    split; [by apply JsMap_set_wf | by apply JsMap_set_Forall].
  - destruct Heff as [-> _]. by apply setAll_wf.
  - destruct Heff as [_ [->| ->]]; [done | by apply delete_wf].
  - destruct Heff as [-> _]. done.
Qed.

Lemma run_keeps_bounds ops st :
  inBounds st → importsInBounds ops st →
  ∃ st', run ops st = Normal tt st' ∧ inBounds st'.
Proof.
  revert st. induction ops as [|op ops IH]; intros st Hin Himp.
  - by exists st.
  - cbn [importsInBounds] in Himp. destruct Himp as [Hop Hrest].
    assert (Hop' : match op with
                   | OpImport _ d =>
                       Forall (λ kf, 0 ≤ Keyframe.timestamp kf
                                     ∧ Keyframe.timestamp kf
                                       ≤ FrameRecorder.videoDuration st)
                              (imported d)
                   | _ => True
                   end) by (by destruct op).
    destruct (step_keeps_bounds op st Hin Hop') as (st1 & Hstep & Hin1).
    rewrite run_cons, Hstep. rewrite Hstep in Hrest. by apply IH.
Qed.

(** Every state a sequence of operations reaches from a new recorder has a
    track without repeated keys in which each keyframe is stored under its
    own timestamp. *)
Lemma run_keeps_wf ops st :
  track_wf (FrameRecorder.keyframes st) →
  ∃ st', run ops st = Normal tt st' ∧ track_wf (FrameRecorder.keyframes st').
Proof.
  revert st. induction ops as [|op ops IH]; intros st Hwf.
  - by exists st.
  - destruct (step_keeps_wf op st Hwf) as (st1 & Hstep & Hwf1).
    rewrite run_cons, Hstep. by apply IH.
Qed.

Lemma recordKeyframe_out_of_bounds now t s st :
  t < 0 ∨ FrameRecorder.videoDuration st < t →
  FrameRecorder.recordKeyframe now t s st = Normal tt st.
Proof.
  intros Hout. rewrite recordKeyframe_unfold.
  destruct (negb _); [done|].
  destruct Hout as [H|H].
  - by rewrite (bool_decide_eq_true_2 _ H).
  - rewrite (bool_decide_eq_true_2 _ H). by rewrite orb_true_r.
Qed.

(** C5 (as the code has it).  From a new recorder, after every sequence of
    [startRecording], [stopRecording], [recordKeyframe], [importKeyframes],
    [deleteKeyframe] and [clearKeyframes] in which each import brings only
    timestamps within [[0, videoDuration]] of the recorder at that moment,
    every stored timestamp lies within [[0, videoDuration]].
    [recordKeyframe] silently rejects a timestamp outside the bound.
    [importKeyframes] checks nothing: it stores every keyframe it is given
    under the keyframe's own timestamp. *)
Theorem timestamps_in_bounds_given_imports_in_bounds :
  (∀ c ops,
     importsInBounds ops (FrameRecorder.new c) →
     ∃ st, run ops (FrameRecorder.new c) = Normal tt st ∧ inBounds st)
  ∧ (∀ now t s st,
       t < 0 ∨ FrameRecorder.videoDuration st < t →
       FrameRecorder.recordKeyframe now t s st = Normal tt st)
  ∧ (∀ now kfs st,
       ∃ st', FrameRecorder.importKeyframes now
                {| FrameRecorder.kd_keyframes := Some kfs |} st = Normal tt st'
              ∧ FrameRecorder.videoDuration st' = FrameRecorder.videoDuration st
              ∧ ∀ kf, kf ∈ kfs →
                      Keyframe.timestamp kf ∈ JsMap.keys (FrameRecorder.keyframes st')).
Proof.
  split; [|split].
  - intros c ops Himp. apply run_keeps_bounds; [constructor | done].
  - apply recordKeyframe_out_of_bounds.
  - intros now kfs st.
    destruct (step_effect (OpImport now {| FrameRecorder.kd_keyframes := Some kfs |}) st)
      as (st' & Hstep & _ & Hk & Hd).
    exists st'. split; [exact Hstep|]. split; [exact Hd|].
    intros kf Hkf. rewrite Hk. apply setAll_keys. right.
    apply list_elem_of_fmap. by exists kf.
Qed.

Lemma timestamps_in_bounds_given_imports_in_bounds_witness :
  importsInBounds import_within (FrameRecorder.new EDITOR_CONSTANTS)
  ∧ ∃ st, run import_within (FrameRecorder.new EDITOR_CONSTANTS) = Normal tt st
          ∧ inBounds st.
Proof.
  assert (Himp : importsInBounds import_within (FrameRecorder.new EDITOR_CONSTANTS)).
  { cbn [importsInBounds import_within]. split_and!; try done.
    constructor; [|constructor]. split; compute_done. }
  split; [exact Himp|].
  apply (proj1 timestamps_in_bounds_given_imports_in_bounds EDITOR_CONSTANTS
           import_within Himp).
Defined.

(** C5 (as the specification states it) fails: [importKeyframes] does not
    check the timestamps it inserts.  After a 10 s session, importing a
    keyframe at 99 s leaves it in the track. *)
Lemma import_leaves_timestamp_out_of_bounds :
  ∃ st, run import_beyond_end (FrameRecorder.new EDITOR_CONSTANTS) = Normal tt st
        ∧ FrameRecorder.videoDuration st = frac 10 1
        ∧ JsMap.keys (FrameRecorder.keyframes st) = [frac 99 1]
        ∧ ¬ inBounds st.
Proof.
  exists (state_after (run import_beyond_end (FrameRecorder.new EDITOR_CONSTANTS))).
  split.
  - destruct (run_keeps_wf import_beyond_end (FrameRecorder.new EDITOR_CONSTANTS))
      as (st' & -> & _); [|done].
    split; [apply NoDup_nil_2 | constructor].
  - split; [compute_done|]. split; [compute_done|].
    unfold inBounds. intros Hb. apply Forall_inv in Hb as [_ Hb].
    revert Hb. compute_done.
Qed.

(** ** The step terms of the export *)

Lemma eval_holdTerm iw ih t kf v fallback :
  VideoRenderer.eval iw ih t (VideoRenderer.holdTerm kf v fallback)
  = if decide (Keyframe.timestamp kf ≤ t) then v
    else VideoRenderer.eval iw ih t fallback.
Proof.
  unfold VideoRenderer.holdTerm. cbn [VideoRenderer.eval].
  destruct (decide (Keyframe.timestamp kf ≤ t)).
  - rewrite decide_False; [done | compute_done].
  - by rewrite decide_True.
Qed.

Lemma termValues_zExpr iw ih t rel :
  termValues iw ih t (VideoRenderer.zExpr rel)
  = map (λ kf, if decide (Keyframe.timestamp kf ≤ t)
               then Selection.zoom (Keyframe.selection kf) else frac 1 1) rel.
Proof.
  unfold termValues, VideoRenderer.zExpr. rewrite map_map.
  apply map_ext. intros kf. by rewrite eval_holdTerm.
Qed.

Lemma termValues_xExpr iw ih t rel :
  termValues iw ih t (VideoRenderer.xExpr rel)
  = map (λ kf, if decide (Keyframe.timestamp kf ≤ t)
               then Selection.x (Keyframe.selection kf) else iw / frac 2 1) rel.
Proof.
  unfold termValues, VideoRenderer.xExpr. rewrite map_map.
  apply map_ext. intros kf. by rewrite eval_holdTerm.
Qed.

Lemma termValues_yExpr iw ih t rel :
  termValues iw ih t (VideoRenderer.yExpr rel)
  = map (λ kf, if decide (Keyframe.timestamp kf ≤ t)
               then Selection.y (Keyframe.selection kf) else ih / frac 2 1) rel.
Proof.
  unfold termValues, VideoRenderer.yExpr. rewrite map_map.
  apply map_ext. intros kf. by rewrite eval_holdTerm.
Qed.

Lemma latestAtOrBefore_single kf t :
  VideoRenderer.latestAtOrBefore [kf] t
  = if decide (Keyframe.timestamp kf ≤ t) then Some kf else None.
Proof. done. Qed.

(** C3 (as the code has it).  For an export built from a keyframe list that
    is not empty and a trim range, every keyframe contributes one term to
    each of the zoom, x and y options; at render time [t] the term is the
    keyframe's zoom, x or y when [t] is at or after the keyframe's timestamp
    relative to the trim start, and the default ([1], [iw/2], [ih/2])
    before it.  For a single keyframe the emitted zoom, x and y are those of
    the latest keyframe at or before [t] when there is one, and the defaults
    when there is none. *)
Theorem render_emits_one_hold_term_per_keyframe st kfs trimStart trimEnd :
  VideoRenderer.isLoaded st = true →
  kfs ≠ [] →
  ∃ g, VideoRenderer.render (VideoRenderer.KfArray kfs) trimStart trimEnd st = Normal g st
  ∧ (∀ iw ih t,
       termValues iw ih t (VideoRenderer.zoompan_z g)
       = map (λ kf, if decide (Keyframe.timestamp kf - trimStart ≤ t)
                    then Selection.zoom (Keyframe.selection kf) else frac 1 1) kfs
       ∧ termValues iw ih t (VideoRenderer.zoompan_x g)
         = map (λ kf, if decide (Keyframe.timestamp kf - trimStart ≤ t)
                      then Selection.x (Keyframe.selection kf) else iw / frac 2 1) kfs
       ∧ termValues iw ih t (VideoRenderer.zoompan_y g)
         = map (λ kf, if decide (Keyframe.timestamp kf - trimStart ≤ t)
                      then Selection.y (Keyframe.selection kf) else ih / frac 2 1) kfs)
  ∧ (∀ kf iw ih t,
       kfs = [kf] →
       match VideoRenderer.latestAtOrBefore
               (VideoRenderer.relativeKeyframes kfs trimStart) t with
       | Some k =>
           termValues iw ih t (VideoRenderer.zoompan_z g)
           = [Selection.zoom (Keyframe.selection k)]
           ∧ termValues iw ih t (VideoRenderer.zoompan_x g)
             = [Selection.x (Keyframe.selection k)]
           ∧ termValues iw ih t (VideoRenderer.zoompan_y g)
             = [Selection.y (Keyframe.selection k)]
       | None =>
           termValues iw ih t (VideoRenderer.zoompan_z g) = [frac 1 1]
           ∧ termValues iw ih t (VideoRenderer.zoompan_x g) = [iw / frac 2 1]
           ∧ termValues iw ih t (VideoRenderer.zoompan_y g) = [ih / frac 2 1]
       end).
Proof.
  intros Hl Hne.
  destruct (render_loaded_nonempty st kfs trimStart trimEnd Hl Hne)
    as (g & Hg & _ & _ & Hz & Hx & Hy).
  exists g. split; [done|]. rewrite Hz, Hx, Hy. split.
  - intros iw ih t.
    rewrite termValues_zExpr, termValues_xExpr, termValues_yExpr.
    unfold VideoRenderer.relativeKeyframes. by rewrite !map_map.
  - intros kf iw ih t ->.
    rewrite termValues_zExpr, termValues_xExpr, termValues_yExpr.
    cbn [VideoRenderer.relativeKeyframes map].
    rewrite latestAtOrBefore_single. cbn [Keyframe.timestamp Keyframe.selection].
    destruct (decide (Keyframe.timestamp kf - trimStart ≤ t)); done.
Qed.

Lemma render_emits_one_hold_term_per_keyframe_witness :
  VideoRenderer.isLoaded loaded_renderer = true
  ∧ [keyframe_at 5 (zoomed_box 10 2)] ≠ []
  ∧ ∃ g, VideoRenderer.render (VideoRenderer.KfArray [keyframe_at 5 (zoomed_box 10 2)])
         (frac 2 1) (frac 8 1)
           loaded_renderer = Normal g loaded_renderer
         ∧ termValues (frac 1920 1) (frac 1080 1) (frac 4 1) (VideoRenderer.zoompan_z g)
           = [Selection.zoom (zoomed_box 10 2)].
Proof.
  split; [reflexivity|]. split; [discriminate|].
  destruct (render_emits_one_hold_term_per_keyframe loaded_renderer
              [keyframe_at 5 (zoomed_box 10 2)] (frac 2 1) (frac 8 1))
    as (g & Hg & Hterms & _); [reflexivity | discriminate |].
  exists g. split; [exact Hg|].
  destruct (Hterms (frac 1920 1) (frac 1080 1) (frac 4 1)) as (-> & _).
  cbn [map]. rewrite decide_True; [done | compute_done].
Defined.

(** One keyframe at 5 s with zoom 2, trim range [[2, 8]]: at render time
    1 s, inside [[0, trimmed duration)], the emitted zoom is the default 1; no
    keyframe lies at or before that time, and 1 is not the zoom of the
    keyframe. *)
Lemma default_emitted_before_first_keyframe :
  ∃ g, VideoRenderer.render (VideoRenderer.KfArray [keyframe_at 5 (zoomed_box 10 2)])
         (frac 2 1) (frac 8 1)
         loaded_renderer = Normal g loaded_renderer
  ∧ 0 ≤ frac 1 1 ∧ frac 1 1 < frac 8 1 - frac 2 1
  ∧ termValues (frac 1920 1) (frac 1080 1) (frac 1 1) (VideoRenderer.zoompan_z g)
    = [frac 1 1]
  ∧ VideoRenderer.latestAtOrBefore
      (VideoRenderer.relativeKeyframes [keyframe_at 5 (zoomed_box 10 2)] (frac 2 1))
      (frac 1 1) = None
  ∧ Selection.zoom (Keyframe.selection (keyframe_at 5 (zoomed_box 10 2))) ≠ frac 1 1.
Proof.
  eexists. split; [reflexivity|].
  split; [compute_done|]. split; [compute_done|]. split; [compute_done|].
  split; compute_done.
Qed.

(** With the two keyframes of [zoom_in_then_out] and the trim range
    [[0, 10]], the terms of the zoom option take the same values at 3 s and
    at 7 s, while the latest keyframe at or before 3 s has zoom 2 and the one
    at or before 7 s has zoom 1: however the engine combines the values of
    the terms, the result is not the hold-last-value step function. *)
Lemma hold_terms_are_not_hold_last :
  ∃ g, VideoRenderer.render (VideoRenderer.KfArray zoom_in_then_out) 0 (frac 10 1) loaded_renderer
       = Normal g loaded_renderer
  ∧ termValues (frac 1920 1) (frac 1080 1) (frac 3 1) (VideoRenderer.zoompan_z g)
    = termValues (frac 1920 1) (frac 1080 1) (frac 7 1) (VideoRenderer.zoompan_z g)
  ∧ (Selection.zoom ∘ Keyframe.selection)
      <$> VideoRenderer.latestAtOrBefore
            (VideoRenderer.relativeKeyframes zoom_in_then_out 0) (frac 3 1)
    = Some (frac 2 1)
  ∧ (Selection.zoom ∘ Keyframe.selection)
      <$> VideoRenderer.latestAtOrBefore
            (VideoRenderer.relativeKeyframes zoom_in_then_out 0) (frac 7 1)
    = Some (frac 1 1)
  ∧ ∀ combine : list Qc → Qc,
      ¬ ∀ t, 0 ≤ t → t < frac 10 1 →
             Some (combine (termValues (frac 1920 1) (frac 1080 1) t
                              (VideoRenderer.zoompan_z g)))
             = (Selection.zoom ∘ Keyframe.selection)
                 <$> VideoRenderer.latestAtOrBefore
                       (VideoRenderer.relativeKeyframes zoom_in_then_out 0) t.
Proof.
  eexists. split; [reflexivity|].
  assert (Hsame :
    termValues (frac 1920 1) (frac 1080 1) (frac 3 1)
      (VideoRenderer.zExpr (VideoRenderer.relativeKeyframes zoom_in_then_out 0))
    = termValues (frac 1920 1) (frac 1080 1) (frac 7 1)
        (VideoRenderer.zExpr (VideoRenderer.relativeKeyframes zoom_in_then_out 0)))
    by compute_done.
  assert (H3 : (Selection.zoom ∘ Keyframe.selection)
                 <$> VideoRenderer.latestAtOrBefore
                       (VideoRenderer.relativeKeyframes zoom_in_then_out 0) (frac 3 1)
               = Some (frac 2 1)) by compute_done.
  assert (H7 : (Selection.zoom ∘ Keyframe.selection)
                 <$> VideoRenderer.latestAtOrBefore
                       (VideoRenderer.relativeKeyframes zoom_in_then_out 0) (frac 7 1)
               = Some (frac 1 1)) by compute_done.
  split; [exact Hsame|]. split; [exact H3|]. split; [exact H7|].
  intros combine Hall.
  assert (E3 := Hall (frac 3 1) ltac:(compute_done) ltac:(compute_done)).
  assert (E7 := Hall (frac 7 1) ltac:(compute_done) ltac:(compute_done)).
  cbn [VideoRenderer.zoompan_z] in E3, E7.
  rewrite H3 in E3. rewrite H7 in E7. rewrite Hsame in E3. rewrite E3 in E7.
  revert E7. compute_done.
Qed.

(** The editor's export passes the whole object returned by
    [exportKeyframes()] to [render]; it has no [length], so [render] takes
    neither of its guards nor its keyframe branch, and the filter graph holds
    the initial expressions whatever was recorded. *)
Lemma handleExport_renders_defaults now ed :
  VideoEditor.hasVideoBlob ed = true →
  VideoRenderer.isLoaded (VideoEditor.renderer ed) = true →
  FrameRecorder.keyframes (VideoEditor.frameRecorder ed) ≠ [] →
  Forall (λ k, 0 ≤ k ∧ k ≤ FrameRecorder.videoDuration (VideoEditor.frameRecorder ed))
         (JsMap.keys (FrameRecorder.keyframes (VideoEditor.frameRecorder ed))) →
  ∃ g, VideoEditor.handleExport now ed = (VideoEditor.Rendered g, ed)
       ∧ VideoRenderer.zoompan_z g = VideoRenderer.defaultZ
       ∧ VideoRenderer.zoompan_x g = VideoRenderer.defaultX
       ∧ VideoRenderer.zoompan_y g = VideoRenderer.defaultY.
Proof.
  intros Hblob Hl Hne Hb. destruct ed as [blob rec ren ts te]. cbn in *. subst blob.
  unfold VideoEditor.handleExport. cbn [VideoEditor.hasVideoBlob negb
    VideoEditor.frameRecorder VideoEditor.renderer VideoEditor.trimStart
    VideoEditor.trimEnd].
  unfold FrameRecorder.exportKeyframes, bind, get_state, ret.
  cbn [FrameRecorder.ed_totalKeyframes default].
  rewrite decide_False.
  - unfold VideoRenderer.render, bind, get_state, ret. rewrite Hl.
    cbn [negb VideoRenderer.missing VideoRenderer.length_of orb].
    rewrite bool_decide_eq_false_2 by done.
    eexists. split; [done|]. done.
  - unfold FrameRecorder.sort_keyframes. rewrite merge_sort_Permutation.
    unfold FrameRecorder.filterRange. rewrite length_fmap.
    destruct (FrameRecorder.keyframes rec) as [|[k kf] m]; [done|].
    apply Forall_inv in Hb. cbn [fst] in Hb.
    rewrite filter_cons_True by done. done.
Qed.

(** C3 (as the specification states it) fails, in two ways.  Before the
    first keyframe the emitted values are the defaults, not those of a
    keyframe (one keyframe at 5 s, trim range [[2, 8]], render time 1 s).  And
    with several keyframes the terms do not fall back on the keyframe before:
    for [zoom_in_then_out] they take the same values at 3 s and at 7 s, where
    the hold-last-value function takes zoom 2 and zoom 1. *)
Lemma render_is_not_hold_last_value :
  (∃ g, VideoRenderer.render (VideoRenderer.KfArray [keyframe_at 5 (zoomed_box 10 2)])
         (frac 2 1) (frac 8 1)
          loaded_renderer = Normal g loaded_renderer
   ∧ 0 ≤ frac 1 1 ∧ frac 1 1 < frac 8 1 - frac 2 1
   ∧ termValues (frac 1920 1) (frac 1080 1) (frac 1 1) (VideoRenderer.zoompan_z g)
     = [frac 1 1]
   ∧ VideoRenderer.latestAtOrBefore
       (VideoRenderer.relativeKeyframes [keyframe_at 5 (zoomed_box 10 2)] (frac 2 1))
       (frac 1 1) = None
   ∧ Selection.zoom (Keyframe.selection (keyframe_at 5 (zoomed_box 10 2))) ≠ frac 1 1)
  ∧ (∃ g, VideoRenderer.render (VideoRenderer.KfArray zoom_in_then_out) 0 (frac 10 1) loaded_renderer
          = Normal g loaded_renderer
     ∧ termValues (frac 1920 1) (frac 1080 1) (frac 3 1) (VideoRenderer.zoompan_z g)
       = termValues (frac 1920 1) (frac 1080 1) (frac 7 1) (VideoRenderer.zoompan_z g)
     ∧ (Selection.zoom ∘ Keyframe.selection)
         <$> VideoRenderer.latestAtOrBefore
               (VideoRenderer.relativeKeyframes zoom_in_then_out 0) (frac 3 1)
       = Some (frac 2 1)
     ∧ (Selection.zoom ∘ Keyframe.selection)
         <$> VideoRenderer.latestAtOrBefore
               (VideoRenderer.relativeKeyframes zoom_in_then_out 0) (frac 7 1)
       = Some (frac 1 1)
     ∧ ∀ combine : list Qc → Qc,
         ¬ ∀ t, 0 ≤ t → t < frac 10 1 →
                Some (combine (termValues (frac 1920 1) (frac 1080 1) t
                                 (VideoRenderer.zoompan_z g)))
                = (Selection.zoom ∘ Keyframe.selection)
                    <$> VideoRenderer.latestAtOrBefore
                          (VideoRenderer.relativeKeyframes zoom_in_then_out 0) t).
Proof.
  split; [apply default_emitted_before_first_keyframe
         | apply hold_terms_are_not_hold_last].
Qed.

(** ** Smoothing *)

Lemma getInterpolatedSelection_exact t st kf :
  JsMap.get t (FrameRecorder.keyframes st) = Some kf →
  FrameRecorder.getInterpolatedSelection t st
  = Normal (Some (Keyframe.selection kf)) st.
Proof.
  intros Hget. pose proof (JsMap_get_Some_keys _ _ _ Hget) as Hin.
  assert (Hm : FrameRecorder.keyframes st ≠ [])
    by (intros E; rewrite E in Hget; done).
  destruct (getInterpolatedSelection_cases t st Hm) as (r & -> & Hcases).
  do 2 f_equal.
  destruct Hcases as [(kmax & kf' & Hall & _)|[(kf' & Hget' & ->)
    |[(kmin & kf' & Hall & _)|(k1 & k2 & kf1 & kf2 & H1 & H2 & Hgap & _)]]].
  - rewrite Forall_forall in Hall. specialize (Hall t Hin). qc_lra.
  - by simplify_eq.
  - rewrite Forall_forall in Hall. specialize (Hall t Hin). qc_lra.
  - destruct (Hgap t Hin); qc_lra.
Qed.

(** Between two neighbouring timestamps the result is the interpolation of
    their two keyframes. *)
Lemma getInterpolatedSelection_between t st k1 k2 kf1 kf2 :
  JsMap.get k1 (FrameRecorder.keyframes st) = Some kf1 →
  JsMap.get k2 (FrameRecorder.keyframes st) = Some kf2 →
  (∀ k, k ∈ JsMap.keys (FrameRecorder.keyframes st) → k ≤ k1 ∨ k2 ≤ k) →
  k1 < t → t < k2 →
  FrameRecorder.getInterpolatedSelection t st
  = Normal (Some (FrameRecorder.interpolateSelection (FrameRecorder.constants st)
                    (Keyframe.selection kf1) (Keyframe.selection kf2) k1 k2 t)) st.
Proof.
  intros Hget1 Hget2 Hgap Hlt1 Hlt2.
  pose proof (JsMap_get_Some_keys _ _ _ Hget1) as Hin1.
  pose proof (JsMap_get_Some_keys _ _ _ Hget2) as Hin2.
  assert (Hm : FrameRecorder.keyframes st ≠ [])
    by (intros E; rewrite E in Hget1; done).
  destruct (getInterpolatedSelection_cases t st Hm) as (r & -> & Hcases).
  do 2 f_equal.
  destruct Hcases as [(kmax & kf' & Hall & _)|[(kf' & Hget' & ->)
    |[(kmin & kf' & Hall & _)
     |(j1 & j2 & jf1 & jf2 & H1 & H2 & Hgap' & Hj1 & Hj2 & ->)]]].
  - rewrite Forall_forall in Hall. specialize (Hall k2 Hin2). qc_lra.
  - destruct (Hgap t (JsMap_get_Some_keys _ _ _ Hget')); qc_lra.
  - rewrite Forall_forall in Hall. specialize (Hall k1 Hin1). qc_lra.
  - pose proof (JsMap_get_Some_keys _ _ _ Hj1) as Hjn1.
    pose proof (JsMap_get_Some_keys _ _ _ Hj2) as Hjn2.
    assert (j1 = k1) as ->.
    { apply Qcle_antisym.
      - destruct (Hgap j1 Hjn1); [done | qc_lra].
      - destruct (Hgap' k1 Hin1); [done | qc_lra]. }
    assert (j2 = k2) as ->.
    { apply Qcle_antisym.
      - destruct (Hgap' k2 Hin2); [qc_lra | done].
      - destruct (Hgap j2 Hjn2); [qc_lra | done]. }
    by simplify_eq.
Qed.

Lemma midpoint_between (t1 t2 : Qc) :
  t1 < t2 → t1 < (t1 + t2) / frac 2 1 ∧ (t1 + t2) / frac 2 1 < t2.
Proof.
  intros Hlt. unfold Qcdiv.
  replace (/ frac 2 1) with (frac 1 2) by compute_done.
  split; qc_lra.
Qed.

(** C10.  The ease-in-out curve fixes 0, 1/2 and 1.  Hence between two
    bounding keyframes at [t1 < t2], interpolation with smoothing and
    interpolation without it return the same selection at [t1], at [t2] and
    at the midpoint [(t1 + t2) / 2]; and on two recorders with the same track,
    one with smoothing and one without, [getInterpolatedSelection] returns
    the same selection at two neighbouring keyframe timestamps and at the
    midpoint between them. *)
Theorem smoothing_fixes_endpoints_and_midpoint :
  FrameRecorder.easeInOut 0 = 0
  ∧ FrameRecorder.easeInOut (frac 1 1) = frac 1 1
  ∧ FrameRecorder.easeInOut (frac 1 2) = frac 1 2
  ∧ (∀ c c' s1 s2 t1 t2,
       FrameRecorder.smoothing c = true →
       FrameRecorder.smoothing c' = false →
       t1 < t2 →
       FrameRecorder.interpolateSelection c s1 s2 t1 t2 t1
       = FrameRecorder.interpolateSelection c' s1 s2 t1 t2 t1
       ∧ FrameRecorder.interpolateSelection c s1 s2 t1 t2 t2
         = FrameRecorder.interpolateSelection c' s1 s2 t1 t2 t2
       ∧ FrameRecorder.interpolateSelection c s1 s2 t1 t2 ((t1 + t2) / frac 2 1)
         = FrameRecorder.interpolateSelection c' s1 s2 t1 t2 ((t1 + t2) / frac 2 1))
  ∧ (∀ st st' t1 t2 t,
       FrameRecorder.smoothing (FrameRecorder.constants st) = true →
       FrameRecorder.smoothing (FrameRecorder.constants st') = false →
       FrameRecorder.keyframes st' = FrameRecorder.keyframes st →
       t1 ∈ JsMap.keys (FrameRecorder.keyframes st) →
       t2 ∈ JsMap.keys (FrameRecorder.keyframes st) →
       (∀ k, k ∈ JsMap.keys (FrameRecorder.keyframes st) → k ≤ t1 ∨ t2 ≤ k) →
       t1 < t2 →
       t = t1 ∨ t = t2 ∨ t = (t1 + t2) / frac 2 1 →
       ∃ r, FrameRecorder.getInterpolatedSelection t st = Normal (Some r) st
            ∧ FrameRecorder.getInterpolatedSelection t st' = Normal (Some r) st').
Proof.
  assert (Hpure : ∀ c c' s1 s2 t1 t2,
    FrameRecorder.smoothing c = true →
    FrameRecorder.smoothing c' = false →
    t1 < t2 →
    FrameRecorder.interpolateSelection c s1 s2 t1 t2 t1
    = FrameRecorder.interpolateSelection c' s1 s2 t1 t2 t1
    ∧ FrameRecorder.interpolateSelection c s1 s2 t1 t2 t2
      = FrameRecorder.interpolateSelection c' s1 s2 t1 t2 t2
    ∧ FrameRecorder.interpolateSelection c s1 s2 t1 t2 ((t1 + t2) / frac 2 1)
      = FrameRecorder.interpolateSelection c' s1 s2 t1 t2 ((t1 + t2) / frac 2 1)).
  { intros c c' s1 s2 t1 t2 Hc Hc' Hlt.
    unfold FrameRecorder.interpolateSelection. rewrite Hc, Hc'.
    rewrite progress_at_start, (progress_at_end _ _ Hlt),
      (progress_at_midpoint _ _ Hlt).
    by rewrite easeInOut_0, easeInOut_1, easeInOut_half. }
  split; [apply easeInOut_0|].
  split; [apply easeInOut_1|].
  split; [apply easeInOut_half|].
  split; [exact Hpure|].
  intros st st' t1 t2 t Hc Hc' Hm Hin1 Hin2 Hgap Hlt Ht.
  destruct (JsMap_get_keys _ _ Hin1) as [kf1 Hget1].
  destruct (JsMap_get_keys _ _ Hin2) as [kf2 Hget2].
  destruct Ht as [->|[->| ->]].
  - exists (Keyframe.selection kf1).
    split; apply getInterpolatedSelection_exact; by rewrite ?Hm.
  - exists (Keyframe.selection kf2).
    split; apply getInterpolatedSelection_exact; by rewrite ?Hm.
  - destruct (midpoint_between t1 t2 Hlt) as [Hlo Hhi].
    eexists. split.
    + by apply (getInterpolatedSelection_between _ st t1 t2 kf1 kf2).
    + rewrite (getInterpolatedSelection_between _ st' t1 t2 kf1 kf2);
        rewrite ?Hm; try done.
      do 2 f_equal. symmetry.
      by apply (Hpure (FrameRecorder.constants st) (FrameRecorder.constants st')).
Qed.

Lemma smoothing_fixes_endpoints_and_midpoint_witness :
  FrameRecorder.smoothing EDITOR_CONSTANTS = true
  ∧ FrameRecorder.smoothing no_smoothing = false
  ∧ frac 1 1 < frac 3 1
  ∧ FrameRecorder.interpolateSelection EDITOR_CONSTANTS (box 0) (box 100)
      (frac 1 1) (frac 3 1) ((frac 1 1 + frac 3 1) / frac 2 1)
    = FrameRecorder.interpolateSelection no_smoothing (box 0) (box 100)
        (frac 1 1) (frac 3 1) ((frac 1 1 + frac 3 1) / frac 2 1).
Proof.
  assert (H1 : FrameRecorder.smoothing EDITOR_CONSTANTS = true) by compute_done.
  assert (H2 : FrameRecorder.smoothing no_smoothing = false) by compute_done.
  assert (H3 : frac 1 1 < frac 3 1) by compute_done.
  split; [done|]. split; [done|]. split; [done|].
  destruct smoothing_fixes_endpoints_and_midpoint as (_ & _ & _ & Hpure & _).
  apply (Hpure EDITOR_CONSTANTS no_smoothing (box 0) (box 100)
           (frac 1 1) (frac 3 1) H1 H2 H3).
Defined.

(** * Further properties of the recorder *)

(** ** Sorted timestamps and statistics *)

Lemma sorted_numbers_strict (l : list Qc) :
  StronglySorted Qcle l → NoDup l → StronglySorted Qclt l.
Proof.
  induction 1 as [|a l Hs IH Hall]; [constructor|].
  intros [Ha Hl]%NoDup_cons. constructor; [by apply IH|].
  rewrite Forall_forall in Hall |- *. intros b Hb.
  specialize (Hall b Hb).
  destruct (decide (a = b)) as [->|Hne]; [done | qc_lra].
Qed.

Lemma sort_numbers_perm l : FrameRecorder.sort_numbers l ≡ₚ l.
Proof. apply merge_sort_Permutation. Qed.

(** X1.  On a track without repeated keys, [getKeyframeTimestamps()] returns
    the stored timestamps, each once, in strictly ascending order, and leaves
    the recorder as it was. *)
Theorem getKeyframeTimestamps_strictly_ascending st :
  JsMap.wf (FrameRecorder.keyframes st) →
  ∃ ts, FrameRecorder.getKeyframeTimestamps st = Normal ts st
        ∧ StronglySorted Qclt ts
        ∧ NoDup ts
        ∧ ts ≡ₚ JsMap.keys (FrameRecorder.keyframes st).
Proof.
  intros Hwf. eexists. split; [done|].
  assert (Hnd : NoDup (FrameRecorder.sort_numbers
                         (JsMap.keys (FrameRecorder.keyframes st))))
    by (by rewrite sort_numbers_perm).
  split; [|split; [done | apply sort_numbers_perm]].
  apply sorted_numbers_strict; [apply sort_numbers_sorted | done].
Qed.

Lemma getKeyframeTimestamps_strictly_ascending_witness :
  JsMap.wf (FrameRecorder.keyframes (two_keyframes_reversed EDITOR_CONSTANTS))
  ∧ JsMap.keys (FrameRecorder.keyframes (two_keyframes_reversed EDITOR_CONSTANTS))
    = [frac 3 1; frac 1 1]
  ∧ ∃ ts, FrameRecorder.getKeyframeTimestamps (two_keyframes_reversed EDITOR_CONSTANTS)
          = Normal ts (two_keyframes_reversed EDITOR_CONSTANTS)
          ∧ StronglySorted Qclt ts.
Proof.
  assert (Hwf : JsMap.wf
                  (FrameRecorder.keyframes (two_keyframes_reversed EDITOR_CONSTANTS)))
    by (unfold JsMap.wf; compute_done).
  split; [exact Hwf|]. split; [compute_done|].
  destruct (getKeyframeTimestamps_strictly_ascending
              (two_keyframes_reversed EDITOR_CONSTANTS) Hwf) as (ts & Hts & Hs & _).
  by exists ts.
Defined.

Lemma sorted_head_least (l : list Qc) a k :
  StronglySorted Qcle l → head l = Some a → k ∈ l → a ≤ k.
Proof.
  intros Hs Ha Hk. apply list_elem_of_lookup_1 in Hk as [i Hi].
  rewrite head_lookup in Ha. apply (sorted_lookup_le l 0 i); [done | lia | done..].
Qed.

Lemma sorted_last_greatest (l : list Qc) b k :
  StronglySorted Qcle l → last l = Some b → k ∈ l → k ≤ b.
Proof.
  intros Hs Hb Hk. apply list_elem_of_lookup_1 in Hk as [i Hi].
  rewrite last_lookup in Hb.
  apply (sorted_lookup_le l i (pred (length l))); [done| |done..].
  apply lookup_lt_Some in Hi. lia.
Qed.

Lemma least_key_is_head (keys : list Qc) kmin :
  kmin ∈ keys → (∀ k, k ∈ keys → kmin ≤ k) →
  head (FrameRecorder.sort_numbers keys) = Some kmin.
Proof.
  intros Hin Hmin.
  destruct (FrameRecorder.sort_numbers keys) as [|a l] eqn:E.
  - apply sort_numbers_elem in Hin. rewrite E in Hin. by apply elem_of_nil in Hin.
  - cbn. f_equal. apply Qcle_antisym.
    + apply (sorted_head_least (a :: l)); [|done|].
      * rewrite <-E. apply sort_numbers_sorted.
      * rewrite <-E. by apply sort_numbers_elem.
    + apply Hmin, sort_numbers_elem. rewrite E. by left.
Qed.

Lemma greatest_key_is_last (keys : list Qc) kmax :
  kmax ∈ keys → (∀ k, k ∈ keys → k ≤ kmax) →
  last (FrameRecorder.sort_numbers keys) = Some kmax.
Proof.
  intros Hin Hmax.
  destruct (last (FrameRecorder.sort_numbers keys)) as [b|] eqn:E.
  - f_equal. apply Qcle_antisym.
    + apply Hmax, sort_numbers_elem. by apply last_Some_elem_of.
    + apply (sorted_last_greatest (FrameRecorder.sort_numbers keys));
        [apply sort_numbers_sorted | done | by apply sort_numbers_elem].
  - apply sort_numbers_elem in Hin.
    assert (Hne : FrameRecorder.sort_numbers keys ≠ [])
      by (intros E'; rewrite E' in Hin; by apply elem_of_nil in Hin).
    apply last_is_Some in Hne as [b Hb]. congruence.
Qed.

Ltac qc_nra := qc_unfold; nra.

Lemma Qcdiv_nonneg (a n : Qc) : 0 ≤ a → 0 < n → 0 ≤ a / n.
Proof.
  intros Ha Hn. remember (a / n) as q eqn:Hq.
  assert (E : q * n = a) by (subst q; field; intros E; qc_lra).
  clear Hq. qc_nra.
Qed.

Lemma Qc_of_Z_pos z : (0 < z)%Z → 0 < Qc_of_Z z.
Proof. intros Hz. rewrite <-Z2Qc_inj_0. by apply (proj1 (Z2Qc_inj_lt 0 z)). Qed.

(** X2.  [getAverageKeyframeInterval()] returns [0] for a track of fewer
    than two keyframes; otherwise it returns the span between the earliest and
    the latest stored timestamp divided by the number of gaps, which is never
    negative. *)
Theorem average_interval_is_span_over_gaps st :
  ∃ a, RecorderStats.getAverageKeyframeInterval st = Normal a st
  ∧ ((JsMap.size (FrameRecorder.keyframes st) < 2)%nat → a = 0)
  ∧ (∀ kmin kmax,
       (2 ≤ JsMap.size (FrameRecorder.keyframes st))%nat →
       kmin ∈ JsMap.keys (FrameRecorder.keyframes st) →
       kmax ∈ JsMap.keys (FrameRecorder.keyframes st) →
       (∀ k, k ∈ JsMap.keys (FrameRecorder.keyframes st) → kmin ≤ k ∧ k ≤ kmax) →
       a = (kmax - kmin)
           / Qc_of_Z (Z.of_nat (JsMap.size (FrameRecorder.keyframes st)) - 1)
       ∧ 0 ≤ a).
Proof.
  unfold RecorderStats.getAverageKeyframeInterval, FrameRecorder.getKeyframeTimestamps,
    bind, get_state, ret.
  pose proof (sort_numbers_length (JsMap.keys (FrameRecorder.keyframes st))) as Hlen.
  unfold JsMap.keys in Hlen at 2. rewrite length_fmap in Hlen.
  unfold JsMap.size.
  destruct (FrameRecorder.sort_numbers (JsMap.keys (FrameRecorder.keyframes st)))
    as [|first [|second rest]] eqn:E.
  - eexists. split; [done|]. split; [done|]. cbn in Hlen. intros; lia.
  - eexists. split; [done|]. split; [done|]. cbn in Hlen. intros; lia.
  - eexists. split; [done|]. split; [cbn in Hlen; intros; lia|].
    intros kmin kmax _ Hin Hax Hall.
    assert (Hhead : head (first :: second :: rest) = Some kmin).
    { rewrite <-E. apply least_key_is_head; [done | intros k Hk; by apply Hall]. }
    assert (Hlast : last (first :: second :: rest) = Some kmax).
    { rewrite <-E. apply greatest_key_is_last; [done | intros k Hk; by apply Hall]. }
    cbn in Hhead. injection Hhead as ->. rewrite Hlast. cbn [default].
    rewrite Hlen. split; [done|].
    assert (Hpos : 0 < Qc_of_Z (Z.of_nat (length (FrameRecorder.keyframes st)) - 1)).
    { apply Qc_of_Z_pos. rewrite <-Hlen. cbn [length]. lia. }
    assert (Hspan : 0 ≤ kmax - kmin) by (destruct (Hall kmin Hin); qc_lra).
    by apply Qcdiv_nonneg.
Qed.

Lemma average_interval_is_span_over_gaps_witness :
  JsMap.keys (FrameRecorder.keyframes three_keyframes) = [0; frac 2 1; frac 6 1]
  ∧ RecorderStats.getAverageKeyframeInterval three_keyframes
    = Normal (frac 3 1) three_keyframes.
Proof.
  split; [compute_done|].
  destruct (average_interval_is_span_over_gaps three_keyframes) as (a & -> & _ & Hspan).
  f_equal.
  assert (Hkeys : JsMap.keys (FrameRecorder.keyframes three_keyframes)
                  = [0; frac 2 1; frac 6 1]) by compute_done.
  destruct (Hspan 0 (frac 6 1)) as [-> _].
  - compute_done.
  - rewrite Hkeys. by left.
  - rewrite Hkeys. by do 2 right; left.
  - intros k Hk. rewrite Hkeys in Hk.
    apply elem_of_cons in Hk as [->|Hk]; [split; compute_done|].
    apply elem_of_cons in Hk as [->|Hk]; [split; compute_done|].
    apply list_elem_of_singleton in Hk as ->. split; compute_done.
  - compute_done.
Defined.

Lemma at_index_last {A} (l : list A) :
  FrameRecorder.at_index l (Z.of_nat (length l) - 1) = last l.
Proof.
  unfold FrameRecorder.at_index. destruct l as [|a l]; [done|].
  rewrite decide_True by (cbn [length]; lia).
  rewrite last_lookup. f_equal. cbn [length]. lia.
Qed.

Lemma at_index_head {A} (l : list A) : FrameRecorder.at_index l 0 = head l.
Proof. unfold FrameRecorder.at_index. by rewrite head_lookup. Qed.

Lemma getAverageKeyframeInterval_returns st :
  ∃ a, RecorderStats.getAverageKeyframeInterval st = Normal a st.
Proof.
  unfold RecorderStats.getAverageKeyframeInterval, FrameRecorder.getKeyframeTimestamps,
    bind, get_state, ret.
  destruct (FrameRecorder.sort_numbers _) as [|first [|second rest]]; by eexists.
Qed.

(** X3.  [getRecordingStats()] counts the stored keyframes and reports the
    earliest and the latest stored timestamp, except that a timestamp equal to
    [0] is reported as [null], like an empty track: a session whose first
    keyframe is at 0 s has [firstKeyframe: null]. *)
Theorem recording_stats_report_zero_as_null st :
  ∃ s, RecorderStats.getRecordingStats st = Normal s st
  ∧ RecorderStats.totalKeyframes s = JsMap.size (FrameRecorder.keyframes st)
  ∧ RecorderStats.isRecording s = FrameRecorder.isRecording st
  ∧ (FrameRecorder.keyframes st = [] →
     RecorderStats.firstKeyframe s = None ∧ RecorderStats.lastKeyframe s = None)
  ∧ (∀ kmin,
       kmin ∈ JsMap.keys (FrameRecorder.keyframes st) →
       (∀ k, k ∈ JsMap.keys (FrameRecorder.keyframes st) → kmin ≤ k) →
       RecorderStats.firstKeyframe s = if decide (kmin = 0) then None else Some kmin)
  ∧ (∀ kmax,
       kmax ∈ JsMap.keys (FrameRecorder.keyframes st) →
       (∀ k, k ∈ JsMap.keys (FrameRecorder.keyframes st) → k ≤ kmax) →
       RecorderStats.lastKeyframe s = if decide (kmax = 0) then None else Some kmax).
Proof.
  destruct (getAverageKeyframeInterval_returns st) as [a Ha].
  unfold RecorderStats.getRecordingStats, FrameRecorder.getKeyframeTimestamps,
    bind, get_state, ret. rewrite Ha.
  eexists. split; [done|].
  cbn [RecorderStats.totalKeyframes RecorderStats.isRecording
       RecorderStats.firstKeyframe RecorderStats.lastKeyframe].
  rewrite at_index_last, at_index_head.
  split; [done|]. split; [done|]. split; [|split].
  - intros ->. done.
  - intros kmin Hin Hmin. by rewrite (least_key_is_head _ kmin Hin Hmin).
  - intros kmax Hin Hmax. by rewrite (greatest_key_is_last _ kmax Hin Hmax).
Qed.

Lemma recording_stats_report_zero_as_null_witness :
  JsMap.keys (FrameRecorder.keyframes three_keyframes) = [0; frac 2 1; frac 6 1]
  ∧ ∃ s, RecorderStats.getRecordingStats three_keyframes = Normal s three_keyframes
         ∧ RecorderStats.totalKeyframes s = 3%nat
         ∧ RecorderStats.firstKeyframe s = None.
Proof.
  assert (Hkeys : JsMap.keys (FrameRecorder.keyframes three_keyframes)
                  = [0; frac 2 1; frac 6 1]) by compute_done.
  split; [exact Hkeys|].
  destruct (recording_stats_report_zero_as_null three_keyframes)
    as (s & Hs & Hn & _ & _ & Hfirst & _).
  exists s. split; [exact Hs|]. split; [rewrite Hn; compute_done|].
  rewrite (Hfirst 0).
  - by rewrite decide_True.
  - rewrite Hkeys. by left.
  - intros k Hk. rewrite Hkeys in Hk.
    apply elem_of_cons in Hk as [->|Hk]; [compute_done|].
    apply elem_of_cons in Hk as [->|Hk]; [compute_done|].
    apply list_elem_of_singleton in Hk as ->. compute_done.
Defined.

(** ** [deleteKeyframe], [stopRecording], [cleanup] *)

Lemma JsMap_get_delete_eq {V} k (m : JsMap V) : JsMap.get k (JsMap.delete k m) = None.
Proof.
  unfold JsMap.delete. induction m as [|[k' v] m IH]; [done|].
  rewrite filter_cons. cbn [fst].
  destruct (decide (k' ≠ k)) as [Hne|Heq]; [|done].
  cbn [JsMap.get]. by rewrite decide_False.
Qed.

Lemma JsMap_get_delete_ne {V} k k' (m : JsMap V) :
  k' ≠ k → JsMap.get k' (JsMap.delete k m) = JsMap.get k' m.
Proof.
  intros Hne. unfold JsMap.delete. induction m as [|[k0 v] m IH]; [done|].
  rewrite filter_cons. cbn [fst JsMap.get].
  destruct (decide (k0 ≠ k)) as [H0|H0].
  - cbn [JsMap.get]. by rewrite IH.
  - apply dec_stable in H0 as ->. rewrite decide_False by done. apply IH.
Qed.

Lemma JsMap_delete_absent {V} k (m : JsMap V) :
  k ∉ JsMap.keys m → JsMap.delete k m = m.
Proof.
  unfold JsMap.delete, JsMap.keys. induction m as [|[k' v] m IH]; [done|].
  cbn [fmap list_fmap fst]. intros Hnin. apply not_elem_of_cons in Hnin as [Hne Hnin].
  rewrite filter_cons_True by (cbn; congruence). by rewrite IH.
Qed.

Lemma JsMap_delete_size {V} k (m : JsMap V) :
  JsMap.wf m → k ∈ JsMap.keys m →
  S (JsMap.size (JsMap.delete k m)) = JsMap.size m.
Proof.
  unfold JsMap.wf, JsMap.size, JsMap.keys.
  induction m as [|[k' v] m IH]; [by intros _ ?%elem_of_nil|].
  cbn [fmap list_fmap fst]. intros [Hk' Hm]%NoDup_cons Hin.
  unfold JsMap.delete. rewrite filter_cons. cbn [fst].
  destruct (decide (k' ≠ k)) as [Hne|Heq].
  - cbn [length]. f_equal. apply IH; [done|].
    apply elem_of_cons in Hin as [->|Hin]; [done | done].
  - apply dec_stable in Heq as ->.
    fold (JsMap.delete k m). rewrite JsMap_delete_absent by done. done.
Qed.

(** X4.  [deleteKeyframe(timestamp)] is a no-op, with no event, when no
    keyframe is stored at [timestamp].  Otherwise it removes that keyframe and
    no other, dispatches one [keyframeDeleted] event, and leaves the recording
    flag and [lastKeyframeTime] as they were; on a track without repeated keys
    the size goes down by one. *)
Theorem deleteKeyframe_removes_one now t st :
  (JsMap.has t (FrameRecorder.keyframes st) = false →
   FrameRecorder.deleteKeyframe now t st = Normal tt st)
  ∧ (JsMap.has t (FrameRecorder.keyframes st) = true →
     ∃ st', FrameRecorder.deleteKeyframe now t st = Normal tt st'
     ∧ JsMap.get t (FrameRecorder.keyframes st') = None
     ∧ (∀ k, k ≠ t → JsMap.get k (FrameRecorder.keyframes st')
                      = JsMap.get k (FrameRecorder.keyframes st))
     ∧ (JsMap.wf (FrameRecorder.keyframes st) →
        S (JsMap.size (FrameRecorder.keyframes st'))
        = JsMap.size (FrameRecorder.keyframes st))
     ∧ FrameRecorder.dispatched st'
       = FrameRecorder.dispatched st
         ++ [FrameRecorder.mkEvent (FrameRecorder.keyframeDeleted t) now]
     ∧ FrameRecorder.isRecording st' = FrameRecorder.isRecording st
     ∧ FrameRecorder.lastKeyframeTime st' = FrameRecorder.lastKeyframeTime st).
Proof.
  unfold FrameRecorder.deleteKeyframe, bind, get_state, modify,
    FrameRecorder.emitRecordingEvent, ret.
  split; intros Hhas; rewrite Hhas; [done|].
  eexists. split; [done|]. cbn.
  split; [apply JsMap_get_delete_eq|].
  split; [intros k Hk; by apply JsMap_get_delete_ne|].
  split; [|done].
  intros Hwf. apply JsMap_delete_size; [done | by apply JsMap_has_keys].
Qed.

Lemma deleteKeyframe_removes_one_witness :
  JsMap.has (frac 1 1) (FrameRecorder.keyframes (two_keyframes EDITOR_CONSTANTS)) = true
  ∧ ∃ st', FrameRecorder.deleteKeyframe 8000 (frac 1 1) (two_keyframes EDITOR_CONSTANTS)
           = Normal tt st'
           ∧ JsMap.get (frac 1 1) (FrameRecorder.keyframes st') = None.
Proof.
  assert (Hhas : JsMap.has (frac 1 1)
                   (FrameRecorder.keyframes (two_keyframes EDITOR_CONSTANTS)) = true)
    by compute_done.
  split; [exact Hhas|].
  destruct (proj2 (deleteKeyframe_removes_one 8000 (frac 1 1)
                     (two_keyframes EDITOR_CONSTANTS)) Hhas) as (st' & Hst & Hget & _).
  by exists st'.
Defined.

(** X5.  While recording, once the keyframe at [lastKeyframeTime] has been
    deleted, the next in-bounds sample is stored however soon it comes: the
    spacing test only holds a sample back while that keyframe is in the
    track. *)
Theorem sample_after_deleting_last_keyframe_is_stored now now' t s st :
  FrameRecorder.isRecording st = true →
  0 ≤ t → t ≤ FrameRecorder.videoDuration st →
  ∃ st1, FrameRecorder.deleteKeyframe now (FrameRecorder.lastKeyframeTime st) st
         = Normal tt st1
  ∧ FrameRecorder.recordKeyframe now' t s st1 = Normal tt (stored now' t s st1)
  ∧ JsMap.get t (FrameRecorder.keyframes (stored now' t s st1))
    = Some {| Keyframe.timestamp := t;
              Keyframe.selection := s;
              Keyframe.recordedAt := now' |}.
Proof.
  intros Hrec H0 Hd.
  assert (Hdel : ∃ st1,
            FrameRecorder.deleteKeyframe now (FrameRecorder.lastKeyframeTime st) st
            = Normal tt st1
            ∧ FrameRecorder.isRecording st1 = true
            ∧ FrameRecorder.videoDuration st1 = FrameRecorder.videoDuration st
            ∧ FrameRecorder.lastKeyframeTime st1 = FrameRecorder.lastKeyframeTime st
            ∧ JsMap.has (FrameRecorder.lastKeyframeTime st)
                (FrameRecorder.keyframes st1) = false).
  { unfold FrameRecorder.deleteKeyframe, bind, get_state, modify,
      FrameRecorder.emitRecordingEvent, ret.
    destruct (JsMap.has _ _) eqn:Hhas.
    - eexists. split; [done|]. cbn. split; [done|]. split; [done|]. split; [done|].
      unfold JsMap.has. by rewrite JsMap_get_delete_eq.
    - by exists st. }
  destruct Hdel as (st1 & Hst1 & Hrec1 & Hd1 & Hlast1 & Hhas1).
  exists st1. split; [exact Hst1|].
  split.
  - rewrite recordKeyframe_in_bounds; [|done..|by rewrite Hd1].
    rewrite Hlast1, Hhas1. by rewrite andb_false_r.
  - cbn [stored FrameRecorder.keyframes]. apply JsMap_get_set_eq.
Qed.

Lemma sample_after_deleting_last_keyframe_is_stored_witness :
  FrameRecorder.isRecording (two_keyframes EDITOR_CONSTANTS) = true
  ∧ FrameRecorder.lastKeyframeTime (two_keyframes EDITOR_CONSTANTS) = frac 3 1
  ∧ ∃ st1, FrameRecorder.deleteKeyframe 8000 (frac 3 1) (two_keyframes EDITOR_CONSTANTS)
           = Normal tt st1
           ∧ FrameRecorder.recordKeyframe 8001 (frac 301 100) (box 7) st1
             = Normal tt (stored 8001 (frac 301 100) (box 7) st1).
Proof.
  assert (Hrec : FrameRecorder.isRecording (two_keyframes EDITOR_CONSTANTS) = true)
    by compute_done.
  assert (Hlast : FrameRecorder.lastKeyframeTime (two_keyframes EDITOR_CONSTANTS)
                  = frac 3 1) by compute_done.
  split; [exact Hrec|]. split; [exact Hlast|].
  destruct (sample_after_deleting_last_keyframe_is_stored 8000 8001 (frac 301 100)
              (box 7) (two_keyframes EDITOR_CONSTANTS) Hrec)
    as (st1 & Hst1 & Hstore & _); [compute_done..|].
  exists st1. rewrite Hlast in Hst1. by split.
Defined.

Lemma recordKeyframe_not_recording now t s st :
  FrameRecorder.isRecording st = false →
  FrameRecorder.recordKeyframe now t s st = Normal tt st.
Proof. intros Hrec. rewrite recordKeyframe_unfold. by rewrite Hrec. Qed.

Lemma recordCalls_not_recording calls st :
  FrameRecorder.isRecording st = false →
  run (recordCalls calls) st = Normal tt st.
Proof.
  intros Hrec. induction calls as [|[[now t] s] calls IH]; [done|].
  cbn [recordCalls map]. rewrite run_cons. cbn [step fst snd].
  by rewrite recordKeyframe_not_recording.
Qed.

(** X6.  [stopRecording()] on a recorder that is not recording does nothing.
    On a recorder that is recording it keeps every keyframe and the duration,
    and dispatches one [stopped] event carrying the number of keyframes and
    the duration.  Either way, every [recordKeyframe] call that follows is
    ignored: nothing is stored outside a session. *)
Theorem stopRecording_ends_the_session now st calls :
  ∃ st1, FrameRecorder.stopRecording now st = Normal tt st1
  ∧ FrameRecorder.isRecording st1 = false
  ∧ FrameRecorder.keyframes st1 = FrameRecorder.keyframes st
  ∧ FrameRecorder.videoDuration st1 = FrameRecorder.videoDuration st
  ∧ (FrameRecorder.isRecording st = false → st1 = st)
  ∧ (FrameRecorder.isRecording st = true →
     FrameRecorder.dispatched st1
     = FrameRecorder.dispatched st
       ++ [FrameRecorder.mkEvent
             (FrameRecorder.stopped (JsMap.size (FrameRecorder.keyframes st))
                (FrameRecorder.videoDuration st)) now])
  ∧ run (recordCalls calls) st1 = Normal tt st1.
Proof.
  unfold FrameRecorder.stopRecording, bind, get_state, modify,
    FrameRecorder.emitRecordingEvent, ret.
  destruct (FrameRecorder.isRecording st) eqn:Hrec; cbn [negb].
  - eexists. split; [done|]. cbn.
    split; [done|]. split; [done|]. split; [done|]. split; [done|].
    split; [done|]. by apply recordCalls_not_recording.
  - exists st. split; [done|]. split; [done|]. split; [done|]. split; [done|].
    split; [done|]. split; [done|]. by apply recordCalls_not_recording.
Qed.

(** X7.  [cleanup()] leaves a recorder that is not recording and has an empty
    track, whatever state it was in; [getInterpolatedSelection] then returns
    [null] for every timestamp. *)
Theorem cleanup_stops_and_empties now st t :
  ∃ st', FrameRecorder.cleanup now st = Normal tt st'
  ∧ FrameRecorder.isRecording st' = false
  ∧ FrameRecorder.keyframes st' = []
  ∧ FrameRecorder.getInterpolatedSelection t st' = Normal None st'.
Proof.
  unfold FrameRecorder.cleanup, FrameRecorder.stopRecording,
    FrameRecorder.clearKeyframes, bind, get_state, modify,
    FrameRecorder.emitRecordingEvent, ret.
  destruct (FrameRecorder.isRecording st) eqn:Hrec; cbn [negb];
    (eexists; split; [done|];
     split; [by cbn; rewrite ?Hrec|]; split; [done|];
     by apply getInterpolatedSelection_empty).
Qed.

(** ** Spacing of the keyframes of one session *)








(** ** Export and import *)

Lemma JsMap_set_fresh {V} k (v : V) m :
  k ∉ JsMap.keys m → JsMap.set k v m = m ++ [(k, v)].
Proof.
  induction m as [|[k' v'] m IH]; cbn; [done|].
  intros [Hne Hnin]%not_elem_of_cons.
  rewrite decide_False by done. by rewrite IH.
Qed.

Lemma setAll_snoc kfs kf m :
  FrameRecorder.setAll (kfs ++ [kf]) m
  = JsMap.set (Keyframe.timestamp kf) kf (FrameRecorder.setAll kfs m).
Proof. unfold FrameRecorder.setAll. by rewrite foldl_app. Qed.

Lemma setAll_fresh kfs m :
  NoDup (Keyframe.timestamp <$> kfs) →
  (∀ kf, kf ∈ kfs → Keyframe.timestamp kf ∉ JsMap.keys m) →
  FrameRecorder.setAll kfs m = m ++ (entryOf <$> kfs).
Proof.
  revert m. induction kfs as [|kf kfs IH]; intros m Hnd Hfresh.
  - cbn. by rewrite app_nil_r.
  - cbn [fmap list_fmap] in Hnd. apply NoDup_cons in Hnd as [Hkf Hnd].
    change (FrameRecorder.setAll (kf :: kfs) m)
      with (FrameRecorder.setAll kfs (JsMap.set (Keyframe.timestamp kf) kf m)).
    rewrite JsMap_set_fresh by (apply Hfresh; by left).
    rewrite IH; [by rewrite <-app_assoc|done|].
    intros kf' Hin. unfold JsMap.keys. rewrite fmap_app.
    intros [Hm|Heq%list_elem_of_singleton]%elem_of_app.
    + by apply (Hfresh kf'); [right|].
    + apply Hkf. cbn in Heq. rewrite <-Heq. apply list_elem_of_fmap. by exists kf'.
Qed.

Lemma setAll_get kfs k :
  JsMap.get k (FrameRecorder.setAll kfs [])
  = last (filter (λ kf, Keyframe.timestamp kf = k) kfs).
Proof.
  induction kfs as [|kf kfs IH] using rev_ind; [done|].
  rewrite setAll_snoc, filter_app, filter_cons, filter_nil.
  destruct (decide (Keyframe.timestamp kf = k)) as [<-|Hne].
  - by rewrite JsMap_get_set_eq, last_snoc.
  - by rewrite JsMap_get_set_ne, app_nil_r.
Qed.

Lemma setAll_size kfs (m : JsMap Keyframe.t) :
  (length (FrameRecorder.setAll kfs m) ≤ length m + length kfs)%nat.
Proof.
  induction kfs as [|kf kfs IH] using rev_ind; [cbn; lia|].
  rewrite setAll_snoc, length_app. cbn [length].
  pose proof (JsMap_set_length (Keyframe.timestamp kf) kf (FrameRecorder.setAll kfs m)).
  lia.
Qed.

Lemma entryOf_values kfs : (entryOf <$> kfs).*2 = kfs.
Proof. rewrite <-list_fmap_compose. apply list_fmap_id. Qed.

Lemma entryOf_keys kfs : (entryOf <$> kfs).*1 = Keyframe.timestamp <$> kfs.
Proof. by rewrite <-list_fmap_compose. Qed.

Lemma importKeyframes_unfold now kfs st :
  ∃ st', FrameRecorder.importKeyframes now
           {| FrameRecorder.kd_keyframes := Some kfs |} st = Normal tt st'
  ∧ FrameRecorder.keyframes st' = FrameRecorder.setAll kfs []
  ∧ FrameRecorder.isRecording st' = FrameRecorder.isRecording st
  ∧ FrameRecorder.videoDuration st' = FrameRecorder.videoDuration st
  ∧ FrameRecorder.constants st' = FrameRecorder.constants st
  ∧ FrameRecorder.dispatched st'
    = FrameRecorder.dispatched st
      ++ [FrameRecorder.mkEvent FrameRecorder.keyframesCleared now;
          FrameRecorder.mkEvent (FrameRecorder.keyframesImported (length kfs)) now].
Proof.
  eexists. split; [reflexivity|]. cbn. split_and!; try done.
  by rewrite <-app_assoc.
Qed.

(** X9.  [importKeyframes] discards the track it finds and stores each listed
    keyframe under its own timestamp, a later keyframe replacing an earlier
    one of the same timestamp: afterwards the entry of a timestamp is the last
    listed keyframe that has it.  So the track holds at most as many keyframes
    as the list, while the [keyframesImported] event reports the length of the
    list; when no timestamp is listed twice the track holds the list itself,
    in its order.  The recording flag and the duration are kept. *)
Theorem importKeyframes_last_duplicate_wins now kfs st :
  ∃ st', FrameRecorder.importKeyframes now
           {| FrameRecorder.kd_keyframes := Some kfs |} st = Normal tt st'
  ∧ (∀ k, JsMap.get k (FrameRecorder.keyframes st')
          = last (filter (λ kf, Keyframe.timestamp kf = k) kfs))
  ∧ (JsMap.size (FrameRecorder.keyframes st') ≤ length kfs)%nat
  ∧ last (FrameRecorder.dispatched st')
    = Some (FrameRecorder.mkEvent (FrameRecorder.keyframesImported (length kfs)) now)
  ∧ (NoDup (Keyframe.timestamp <$> kfs) →
     JsMap.values (FrameRecorder.keyframes st') = kfs)
  ∧ track_wf (FrameRecorder.keyframes st')
  ∧ FrameRecorder.isRecording st' = FrameRecorder.isRecording st
  ∧ FrameRecorder.videoDuration st' = FrameRecorder.videoDuration st.
Proof.
  destruct (importKeyframes_unfold now kfs st)
    as (st' & Himp & Hk & Hrec & Hdur & _ & Hev).
  exists st'. split; [exact Himp|]. rewrite Hk, Hev.
  split; [intros k; apply setAll_get|].
  split; [apply (setAll_size kfs [])|].
  split; [by rewrite last_app|].
  split.
  - intros Hnd. rewrite setAll_fresh by (done || intros ? _ ?%elem_of_nil; done).
    apply entryOf_values.
  - split; [|done]. apply setAll_wf. split; [apply NoDup_nil_2 | constructor].
Qed.

Lemma filterRange_elem s e m kf :
  keyedByTimestamp m → kf ∈ FrameRecorder.filterRange s e m →
  s ≤ Keyframe.timestamp kf ∧ Keyframe.timestamp kf ≤ e.
Proof.
  intros Hkeyed. rewrite filterRange_by_timestamp by done.
  by intros [? _]%list_elem_of_filter.
Qed.

Lemma filterRange_all s e (l : list Keyframe.t) :
  Forall (λ kf, s ≤ Keyframe.timestamp kf ∧ Keyframe.timestamp kf ≤ e) l →
  FrameRecorder.filterRange s e (entryOf <$> l) = l.
Proof.
  unfold FrameRecorder.filterRange. induction 1 as [|kf l Hkf _ IH]; [done|].
  cbn [fmap list_fmap]. rewrite filter_cons, decide_True by done.
  cbn [fmap list_fmap]. cbn [fmap] in IH. by rewrite IH.
Qed.

(** X10.  Export followed by import is a round trip: importing what
    [exportKeyframes(start, end)] returned, into any recorder, gives a track
    that holds exactly the exported keyframes in their order, each under its
    own timestamp; and exporting the same range from that recorder returns
    the same list of keyframes. *)
Theorem export_import_round_trip now now1 now2 startTime endTime st st0 :
  track_wf (FrameRecorder.keyframes st) →
  ∃ data st1 data1,
    FrameRecorder.exportKeyframes now startTime endTime st = Normal data st
    ∧ FrameRecorder.importKeyframes now1
        {| FrameRecorder.kd_keyframes := Some (FrameRecorder.ed_keyframes data) |} st0
      = Normal tt st1
    ∧ FrameRecorder.keyframes st1 = entryOf <$> FrameRecorder.ed_keyframes data
    ∧ track_wf (FrameRecorder.keyframes st1)
    ∧ FrameRecorder.exportKeyframes now2
        (Some (FrameRecorder.ed_startTime data))
        (Some (FrameRecorder.ed_endTime data)) st1
      = Normal data1 st1
    ∧ FrameRecorder.ed_keyframes data1 = FrameRecorder.ed_keyframes data
    ∧ FrameRecorder.ed_totalKeyframes data1 = FrameRecorder.ed_totalKeyframes data.
Proof.
  intros Hwf.
  set (s := default 0 startTime).
  set (e := default (FrameRecorder.videoDuration st) endTime).
  set (L := FrameRecorder.sort_keyframes
              (FrameRecorder.filterRange s e (FrameRecorder.keyframes st))).
  assert (Hperm : L ≡ₚ FrameRecorder.filterRange s e (FrameRecorder.keyframes st))
    by apply merge_sort_Permutation.
  assert (Hnd : NoDup (Keyframe.timestamp <$> L)).
  { rewrite Hperm. by apply filterRange_timestamps_NoDup. }
  assert (Hrange : Forall (λ kf, s ≤ Keyframe.timestamp kf ∧ Keyframe.timestamp kf ≤ e) L).
  { rewrite Forall_forall. intros kf Hkf. rewrite Hperm in Hkf.
    by apply (filterRange_elem s e _ kf (proj2 Hwf)). }
  destruct (importKeyframes_unfold now1 L st0) as (st1 & Himp & Hk & _).
  rewrite setAll_fresh in Hk by (done || intros ? _ ?%elem_of_nil; done).
  cbn [app] in Hk.
  eexists _, st1, _. split; [reflexivity|].
  cbn [FrameRecorder.ed_keyframes FrameRecorder.ed_startTime
       FrameRecorder.ed_endTime FrameRecorder.ed_totalKeyframes].
  fold s e L. split; [exact Himp|]. split; [exact Hk|].
  split.
  { rewrite Hk. split.
    - unfold JsMap.wf, JsMap.keys. by rewrite entryOf_keys.
    - unfold keyedByTimestamp. rewrite Forall_fmap. by apply Forall_true. }
  unfold FrameRecorder.exportKeyframes, bind, get_state, ret. cbn [default].
  split; [reflexivity|].
  cbn [FrameRecorder.ed_keyframes FrameRecorder.ed_totalKeyframes].
  rewrite Hk, filterRange_all by done.
  assert (E : FrameRecorder.sort_keyframes L = L).
  { unfold L at 2.
    by apply sort_keyframes_unique;
      [rewrite <-Hperm | apply merge_sort_Permutation]. }
  by rewrite E.
Qed.

Lemma export_import_round_trip_witness :
  ∃ data st1 data1,
    FrameRecorder.exportKeyframes 9000 None None (two_keyframes EDITOR_CONSTANTS)
    = Normal data (two_keyframes EDITOR_CONSTANTS)
    ∧ FrameRecorder.importKeyframes 9500
        {| FrameRecorder.kd_keyframes := Some (FrameRecorder.ed_keyframes data) |}
        (FrameRecorder.new EDITOR_CONSTANTS)
      = Normal tt st1
    ∧ FrameRecorder.exportKeyframes 9900
        (Some (FrameRecorder.ed_startTime data))
        (Some (FrameRecorder.ed_endTime data)) st1
      = Normal data1 st1
    ∧ FrameRecorder.ed_keyframes data1 = FrameRecorder.ed_keyframes data
    ∧ FrameRecorder.ed_totalKeyframes data = 2%nat.
Proof.
  assert (Hwf : track_wf (FrameRecorder.keyframes (two_keyframes EDITOR_CONSTANTS))).
  { split; [unfold JsMap.wf; compute_done | unfold keyedByTimestamp; compute_done]. }
  destruct (export_import_round_trip 9000 9500 9900 None None
              (two_keyframes EDITOR_CONSTANTS) (FrameRecorder.new EDITOR_CONSTANTS) Hwf)
    as (data & st1 & data1 & Hexp & Himp & _ & _ & Hexp1 & Hsame & _).
  exists data, st1, data1. split; [exact Hexp|]. split; [exact Himp|].
  split; [exact Hexp1|]. split; [exact Hsame|].
  injection Hexp as <-. compute_done.
Defined.

Lemma timestamps_of_sorted_keyframes l :
  StronglySorted Qcle (Keyframe.timestamp <$> FrameRecorder.sort_keyframes l).
Proof.
  unfold FrameRecorder.sort_keyframes.
  assert (Hs : StronglySorted FrameRecorder.byTimestamp
                 (merge_sort FrameRecorder.byTimestamp l))
    by (apply StronglySorted_merge_sort; apply _).
  induction Hs as [|a l' Hs IH Hall]; [constructor|].
  cbn [fmap list_fmap]. constructor; [done|]. by rewrite Forall_fmap.
Qed.

(** X11.  On a track in which no timestamp occurs twice, every keyframe is
    stored under its own timestamp and every timestamp lies within
    [[0, videoDuration]], [exportKeyframes()] without arguments returns the
    whole track: its keyframes are a permutation of the track's, their number
    is [keyframes.size], the range is [[0, videoDuration]], and their
    timestamps are, in order, the list [getKeyframeTimestamps()] returns. *)
Theorem exportKeyframes_default_is_whole_track now st :
  track_wf (FrameRecorder.keyframes st) →
  inBounds st →
  ∃ data ts,
    FrameRecorder.exportKeyframes now None None st = Normal data st
    ∧ FrameRecorder.getKeyframeTimestamps st = Normal ts st
    ∧ FrameRecorder.ed_keyframes data ≡ₚ JsMap.values (FrameRecorder.keyframes st)
    ∧ FrameRecorder.ed_totalKeyframes data = JsMap.size (FrameRecorder.keyframes st)
    ∧ FrameRecorder.ed_startTime data = 0
    ∧ FrameRecorder.ed_endTime data = FrameRecorder.videoDuration st
    ∧ Keyframe.timestamp <$> FrameRecorder.ed_keyframes data = ts.
Proof.
  intros [Hwf Hkeyed] Hb.
  unfold FrameRecorder.exportKeyframes, FrameRecorder.getKeyframeTimestamps,
    bind, get_state, ret. cbn [default].
  eexists _, _. split; [reflexivity|]. split; [reflexivity|].
  cbn [FrameRecorder.ed_keyframes FrameRecorder.ed_startTime
       FrameRecorder.ed_endTime FrameRecorder.ed_totalKeyframes].
  assert (Hall : FrameRecorder.filterRange 0 (FrameRecorder.videoDuration st)
                   (FrameRecorder.keyframes st)
                 = JsMap.values (FrameRecorder.keyframes st)).
  { unfold FrameRecorder.filterRange, JsMap.values. f_equal.
    unfold inBounds, JsMap.keys in Hb. rewrite Forall_fmap in Hb.
    clear Hwf Hkeyed. induction Hb as [|x m Hx _ IH]; [done|].
    rewrite filter_cons, decide_True by done. by rewrite IH. }
  rewrite Hall.
  assert (Hperm : FrameRecorder.sort_keyframes (JsMap.values (FrameRecorder.keyframes st))
                  ≡ₚ JsMap.values (FrameRecorder.keyframes st))
    by apply merge_sort_Permutation.
  split; [exact Hperm|].
  split; [by rewrite Hperm; unfold JsMap.values, JsMap.size; rewrite length_fmap|].
  split; [done|]. split; [done|].
  apply (StronglySorted_unique Qcle).
  - apply timestamps_of_sorted_keyframes.
  - apply sort_numbers_sorted.
  - rewrite Hperm, sort_numbers_perm. unfold JsMap.values, JsMap.keys.
    by rewrite keyed_timestamps.
Qed.

Lemma exportKeyframes_default_is_whole_track_witness :
  ∃ data,
    FrameRecorder.exportKeyframes 9000 None None three_keyframes
    = Normal data three_keyframes
    ∧ FrameRecorder.ed_totalKeyframes data = 3%nat
    ∧ Keyframe.timestamp <$> FrameRecorder.ed_keyframes data
      = [0; frac 2 1; frac 6 1].
Proof.
  assert (Hwf : track_wf (FrameRecorder.keyframes three_keyframes)).
  { split; [unfold JsMap.wf; compute_done | unfold keyedByTimestamp; compute_done]. }
  assert (Hb : inBounds three_keyframes) by (unfold inBounds; compute_done).
  destruct (exportKeyframes_default_is_whole_track 9000 three_keyframes Hwf Hb)
    as (data & ts & Hexp & Hts & _ & Hn & _ & _ & Hsame).
  exists data. split; [exact Hexp|]. split; [rewrite Hn; compute_done|].
  rewrite Hsame. injection Hts as <-. compute_done.
Defined.

(** ** Interpolation stays between the keyframes *)









(** * Further properties of the selection controller *)

Ltac qc_minmax :=
  unfold Math_max, Math_min, Math_abs in *; repeat case_decide; qc_lra.

Lemma constrain_inside cw ch s :
  insideCanvas cw ch (SelectionController.constrain cw ch s).
Proof.
  unfold insideCanvas, SelectionController.constrain. cbn.
  split_and!; qc_minmax.
Qed.

Lemma constrain_fixes_inside cw ch s :
  insideCanvas cw ch s → SelectionController.constrain cw ch s = s.
Proof.
  intros (Hx & Hxw & Hy & Hyh). destruct s as [x y w h z ts].
  unfold SelectionController.constrain. cbn in *.
  assert (Ex : Math_max 0 (Math_min (cw - w) x) = x) by qc_minmax.
  assert (Ey : Math_max 0 (Math_min (ch - h) y) = y) by qc_minmax.
  rewrite Ex, Ey.
  assert (Ew : Math_min w (cw - x) = w) by qc_minmax.
  assert (Eh : Math_min h (ch - y) = h) by qc_minmax.
  by rewrite Ew, Eh.
Qed.

Lemma setSelection_unfold data st :
  SelectionController.setSelection data st
  = Normal tt (SelectionController.set_selection
                 (SelectionController.constrain
                    (SelectionController.canvas_width st)
                    (SelectionController.canvas_height st) data) st).
Proof. reflexivity. Qed.

(** X14.  [setSelection(data)] always leaves a selection that lies within the
    canvas ([0 <= x], [x + width <= canvas.width], and the same vertically),
    keeps the zoom of [data] and notifies nobody; a selection that already
    lies within the canvas is stored as it is, so setting the stored selection
    again changes nothing. *)
Theorem setSelection_lands_inside_canvas data st :
  ∃ st', SelectionController.setSelection data st = Normal tt st'
  ∧ insideCanvas (SelectionController.canvas_width st)
      (SelectionController.canvas_height st) (SelectionController.selection st')
  ∧ Selection.zoom (SelectionController.selection st') = Selection.zoom data
  ∧ SelectionController.notified st' = SelectionController.notified st
  ∧ (insideCanvas (SelectionController.canvas_width st)
       (SelectionController.canvas_height st) data →
     SelectionController.selection st' = data)
  ∧ SelectionController.setSelection (SelectionController.selection st') st'
    = Normal tt st'.
Proof.
  rewrite setSelection_unfold. eexists. split; [reflexivity|].
  cbn [SelectionController.set_selection SelectionController.selection
       SelectionController.notified].
  split; [apply constrain_inside|]. split; [done|]. split; [done|].
  split; [apply constrain_fixes_inside|].
  rewrite setSelection_unfold.
  cbn [SelectionController.set_selection SelectionController.selection
       SelectionController.canvas_width SelectionController.canvas_height].
  by rewrite (constrain_fixes_inside _ _ _ (constrain_inside _ _ data)).
Qed.

(** ** Dragging *)

Lemma handleDrag_unfold x y st :
  SelectionGestures.handleDrag x y st
  = Normal tt
      (SelectionGestures.set_dragStart (x, y)
         (SelectionGestures.set_selection
            (SelectionGestures.with_y
               (Math_max 0
                  (Math_min
                     (SelectionController.canvas_height (SelectionGestures.controller st)
                      - Selection.height (SelectionGestures.selection st))
                     (Selection.y (SelectionGestures.selection st)
                      + (y - (SelectionGestures.dragStart st).2))))
               (SelectionGestures.with_x
                  (Math_max 0
                     (Math_min
                        (SelectionController.canvas_width (SelectionGestures.controller st)
                         - Selection.width (SelectionGestures.selection st))
                        (Selection.x (SelectionGestures.selection st)
                         + (x - (SelectionGestures.dragStart st).1))))
                  (SelectionGestures.selection st))) st)).
Proof. reflexivity. Qed.


(** ** A gesture: press, move, release *)

Lemma handleResize_unfold x y st :
  SelectionGestures.handleResize x y st
  = Normal tt
      (SelectionGestures.set_selection
         (SelectionController.constrain
            (SelectionController.canvas_width (SelectionGestures.controller st))
            (SelectionController.canvas_height (SelectionGestures.controller st))
            (SelectionGestures.resized
               (SelectionCfg.MIN_WIDTH
                  (Constants.SELECTION
                     (SelectionController.constants (SelectionGestures.controller st))))
               x y (SelectionGestures.resizeHandle st)
               (SelectionGestures.selection st))) st).
Proof. reflexivity. Qed.

Lemma handleMouseMove_keeps rect event st :
  ∃ st', SelectionGestures.handleMouseMove rect event st = Normal tt st'
  ∧ SelectionController.isDragging (SelectionGestures.controller st')
    = SelectionController.isDragging (SelectionGestures.controller st)
  ∧ SelectionController.isResizing (SelectionGestures.controller st')
    = SelectionController.isResizing (SelectionGestures.controller st)
  ∧ SelectionController.notified (SelectionGestures.controller st')
    = SelectionController.notified (SelectionGestures.controller st)
  ∧ SelectionGestures.resizeHandle st' = SelectionGestures.resizeHandle st
  ∧ (SelectionController.isDragging (SelectionGestures.controller st) = false →
     SelectionController.isResizing (SelectionGestures.controller st) = false →
     SelectionGestures.selection st' = SelectionGestures.selection st).
Proof.
  unfold SelectionGestures.handleMouseMove, bind, get_state.
  destruct (SelectionController.isDragging (SelectionGestures.controller st)) eqn:Hd.
  - rewrite handleDrag_unfold. eexists. split; [reflexivity|]. cbn.
    split_and!; done.
  - destruct (SelectionController.isResizing (SelectionGestures.controller st)) eqn:Hr.
    + rewrite handleResize_unfold. eexists. split; [reflexivity|]. cbn.
      split_and!; done.
    + unfold SelectionGestures.updateCursor, SelectionGestures.getResizeHandle,
        SelectionGestures.isInsideSelection, bind, get_state, ret, modify.
      destruct (SelectionGestures.firstNear _ _ _ _);
        [|destruct (SelectionGestures.inside _ _ _)];
        (eexists; split; [reflexivity|]; cbn; split_and!; done).
Qed.

Lemma moves_keeps rect path st :
  ∃ st', SelectionGestures.moves rect path st = Normal tt st'
  ∧ SelectionController.isDragging (SelectionGestures.controller st')
    = SelectionController.isDragging (SelectionGestures.controller st)
  ∧ SelectionController.isResizing (SelectionGestures.controller st')
    = SelectionController.isResizing (SelectionGestures.controller st)
  ∧ SelectionController.notified (SelectionGestures.controller st')
    = SelectionController.notified (SelectionGestures.controller st)
  ∧ SelectionGestures.resizeHandle st' = SelectionGestures.resizeHandle st
  ∧ (SelectionController.isDragging (SelectionGestures.controller st) = false →
     SelectionController.isResizing (SelectionGestures.controller st) = false →
     SelectionGestures.selection st' = SelectionGestures.selection st).
Proof.
  revert st. induction path as [|event path IH]; intros st.
  - exists st. by split_and!.
  - cbn [SelectionGestures.moves]. unfold bind.
    destruct (handleMouseMove_keeps rect event st)
      as (st1 & -> & Hd1 & Hr1 & Hn1 & Hh1 & Hs1).
    destruct (IH st1) as (st2 & -> & Hd2 & Hr2 & Hn2 & Hh2 & Hs2).
    exists st2. split; [done|].
    rewrite Hd2, Hr2, Hn2, Hh2, Hd1, Hr1, Hn1, Hh1. split_and!; try done.
    intros Hd Hr. rewrite Hs2, Hs1; congruence.
Qed.

Lemma handleMouseDown_cases rect down st :
  SelectionController.isDragging (SelectionGestures.controller st) = false →
  SelectionController.isResizing (SelectionGestures.controller st) = false →
  ∃ st', SelectionGestures.handleMouseDown rect down st = Normal tt st'
  ∧ SelectionGestures.selection st' = SelectionGestures.selection st
  ∧ SelectionController.notified (SelectionGestures.controller st')
    = SelectionController.notified (SelectionGestures.controller st)
  ∧ (if grabs rect down st
     then SelectionController.isDragging (SelectionGestures.controller st')
          || SelectionController.isResizing (SelectionGestures.controller st') = true
     else st' = st).
Proof.
  intros Hd Hr. unfold grabs.
  unfold SelectionGestures.handleMouseDown, SelectionGestures.getResizeHandle,
    SelectionGestures.isInsideSelection, bind, get_state, ret, modify.
  destruct (SelectionGestures.firstNear _ _ _ _) as [h|] eqn:Hh.
  - eexists. split; [reflexivity|]. cbn. split; [done|]. split; [done|].
    apply orb_true_r.
  - rewrite bool_decide_eq_false_2 by (by intros []). cbn [orb].
    destruct (SelectionGestures.inside _ _ _).
    + eexists. split; [reflexivity|]. cbn. by split_and!.
    + exists st. by split_and!.
Qed.

Lemma handleMouseUp_cases now st :
  ∃ st', SelectionGestures.handleMouseUp now st = Normal tt st'
  ∧ SelectionGestures.selection st' = SelectionGestures.selection st
  ∧ (if SelectionController.isDragging (SelectionGestures.controller st)
        || SelectionController.isResizing (SelectionGestures.controller st)
     then SelectionController.isDragging (SelectionGestures.controller st') = false
          ∧ SelectionController.isResizing (SelectionGestures.controller st') = false
          ∧ SelectionGestures.resizeHandle st' = None
          ∧ SelectionController.notified (SelectionGestures.controller st')
            = SelectionController.notified (SelectionGestures.controller st)
              ++ [dataAt now (SelectionGestures.selection st)]
     else st' = st).
Proof.
  unfold SelectionGestures.handleMouseUp, bind, get_state.
  destruct (_ || _).
  - eexists. split; [reflexivity|]. cbn. by split_and!.
  - exists st. by split_and!.
Qed.

(** X16.  A gesture on an idle controller (press, any number of moves,
    release) ends with the controller idle again.  When the press lands on a
    resize handle or inside the selection, [editor.onSelectionChanged] is
    called exactly once, at the release, with the final selection stamped
    with the time of the release: the moves in between notify nobody.  When
    the press lands elsewhere, nobody is notified and the selection is
    unchanged. *)
Theorem gesture_notifies_once_on_release rect down path now st :
  SelectionController.isDragging (SelectionGestures.controller st) = false →
  SelectionController.isResizing (SelectionGestures.controller st) = false →
  ∃ st', SelectionGestures.gesture rect down path now st = Normal tt st'
  ∧ SelectionController.isDragging (SelectionGestures.controller st') = false
  ∧ SelectionController.isResizing (SelectionGestures.controller st') = false
  ∧ (if grabs rect down st
     then SelectionGestures.resizeHandle st' = None
          ∧ SelectionController.notified (SelectionGestures.controller st')
            = SelectionController.notified (SelectionGestures.controller st)
              ++ [dataAt now (SelectionGestures.selection st')]
     else SelectionGestures.selection st' = SelectionGestures.selection st
          ∧ SelectionController.notified (SelectionGestures.controller st')
            = SelectionController.notified (SelectionGestures.controller st)).
Proof.
  intros Hd Hr. unfold SelectionGestures.gesture, bind.
  destruct (handleMouseDown_cases rect down st Hd Hr) as (st1 & -> & Hs1 & Hn1 & Hg).
  destruct (moves_keeps rect path st1) as (st2 & -> & Hd2 & Hr2 & Hn2 & _ & Hs2).
  destruct (handleMouseUp_cases now st2) as (st3 & -> & Hs3 & Hup).
  exists st3. split; [done|]. rewrite Hd2, Hr2 in Hup.
  destruct (grabs rect down st).
  - rewrite Hg in Hup. destruct Hup as (Hd3 & Hr3 & Hh3 & Hn3).
    split; [done|]. split; [done|]. split; [done|].
    by rewrite Hn3, Hn2, Hn1, Hs3.
  - subst st1. rewrite Hd, Hr in Hup. cbn [orb] in Hup. subst st3.
    rewrite Hd2, Hr2, Hn2, Hs2 by done. by split_and!.
Qed.

Lemma gesture_notifies_once_on_release_witness :
  ∃ st', SelectionGestures.gesture page_rect (mouse_at 210 170)
           [mouse_at 220 170; mouse_at 260 190; mouse_at 1200 190] 5000 idle_gestures
         = Normal tt st'
  ∧ SelectionController.isDragging (SelectionGestures.controller st') = false
  ∧ SelectionController.notified (SelectionGestures.controller st')
    = [dataAt 5000 (SelectionGestures.selection st')]
  ∧ Selection.x (SelectionGestures.selection st') = frac 500 1
  ∧ Selection.y (SelectionGestures.selection st') = frac 70 1.
Proof.
  assert (Hd : SelectionController.isDragging
                 (SelectionGestures.controller idle_gestures) = false) by reflexivity.
  assert (Hr : SelectionController.isResizing
                 (SelectionGestures.controller idle_gestures) = false) by reflexivity.
  destruct (gesture_notifies_once_on_release page_rect (mouse_at 210 170)
              [mouse_at 220 170; mouse_at 260 190; mouse_at 1200 190] 5000
              idle_gestures Hd Hr) as (st' & Hrun & Hd' & _ & Hg).
  exists st'. split; [exact Hrun|]. split; [exact Hd'|].
  assert (Hgrab : grabs page_rect (mouse_at 210 170) idle_gestures = true)
    by compute_done.
  rewrite Hgrab in Hg. destruct Hg as [_ Hn]. split; [exact Hn|].
  assert (E : SelectionGestures.gesture page_rect (mouse_at 210 170)
                [mouse_at 220 170; mouse_at 260 190; mouse_at 1200 190] 5000
                idle_gestures
              = Normal tt (state_after (SelectionGestures.gesture page_rect
                  (mouse_at 210 170)
                  [mouse_at 220 170; mouse_at 260 190; mouse_at 1200 190] 5000
                  idle_gestures))) by compute_done.
  rewrite E in Hrun. injection Hrun as <-. split; compute_done.
Defined.

(** ** Resizing *)

Ltac resize_cases :=
  unfold SelectionController.constrain, SelectionGestures.resized,
    SelectionGestures.with_x, SelectionGestures.with_y,
    SelectionGestures.with_width, SelectionGestures.with_height,
    corner, opposite, reach, insideCanvas in *;
  cbn in *.



(** X18.  [handleResize(x, y)] with the pointer horizontally closer than
    [MIN_WIDTH] to the edge across, on a selection within the canvas: the west
    handles ([nw], [sw]) refuse the horizontal change and keep [x] and
    [width], while the east handles ([ne], [se]) set [width] to [MIN_WIDTH]
    (when the canvas has room for it at [x]). *)
Theorem handleResize_below_min_width h x y st :
  let c := SelectionGestures.controller st in
  let s := SelectionGestures.selection st in
  let minSize := SelectionCfg.MIN_WIDTH (Constants.SELECTION (SelectionController.constants c)) in
  SelectionGestures.resizeHandle st = Some h →
  insideCanvas (SelectionController.canvas_width c) (SelectionController.canvas_height c) s →
  (reach h x y s).1 < minSize →
  ∃ st', SelectionGestures.handleResize x y st = Normal tt st'
  ∧ let r := SelectionGestures.selection st' in
    match h with
    | SelectionGestures.nw | SelectionGestures.sw =>
        Selection.x r = Selection.x s ∧ Selection.width r = Selection.width s
    | SelectionGestures.ne | SelectionGestures.se =>
        Selection.x s + minSize ≤ SelectionController.canvas_width c →
        Selection.x r = Selection.x s ∧ Selection.width r = minSize
    end.
Proof.
  intros c s minSize Hh Hin Hw.
  rewrite handleResize_unfold, Hh. eexists. split; [reflexivity|].
  fold c s minSize. cbn [SelectionGestures.selection SelectionGestures.set_selection
    SelectionGestures.set_controller SelectionGestures.controller
    SelectionController.set_selection SelectionController.selection].
  destruct Hin as (? & ? & ? & ?), h; resize_cases;
    rewrite ?(decide_False (P := minSize ≤ Selection.x s + Selection.width s - x))
      by (intros ?; qc_lra);
    try intros ?; split; repeat case_decide; cbn; qc_minmax.
Qed.

Lemma handleResize_below_min_width_witness :
  ∃ st_w st_e,
    SelectionGestures.handleResize (frac 390 1) (frac 350 1)
      (SelectionGestures.set_resizeHandle (Some SelectionGestures.sw) idle_gestures)
    = Normal tt st_w
    ∧ Selection.width (SelectionGestures.selection st_w) = frac 300 1
    ∧ SelectionGestures.handleResize (frac 110 1) (frac 350 1)
        (SelectionGestures.set_resizeHandle (Some SelectionGestures.se) idle_gestures)
      = Normal tt st_e
    ∧ Selection.width (SelectionGestures.selection st_e) = frac 50 1.
Proof.
  destruct (handleResize_below_min_width SelectionGestures.sw (frac 390 1) (frac 350 1)
              (SelectionGestures.set_resizeHandle (Some SelectionGestures.sw)
                 idle_gestures))
    as (st_w & Hw & _ & Hww);
    [reflexivity | unfold insideCanvas; compute_done | compute_done |].
  destruct (handleResize_below_min_width SelectionGestures.se (frac 110 1) (frac 350 1)
              (SelectionGestures.set_resizeHandle (Some SelectionGestures.se)
                 idle_gestures))
    as (st_e & He & Hee);
    [reflexivity | unfold insideCanvas; compute_done | compute_done |].
  exists st_w, st_e. split; [exact Hw|]. split; [rewrite Hww; compute_done|].
  split; [exact He|].
  destruct Hee as [_ Hwe]; [compute_done|]. rewrite Hwe. compute_done.
Defined.

(** ** Video coordinates and the initial selection *)








(** * Further properties of the editor's handlers *)

Lemma set_frameRecorder_same st :
  EditorPlayback.set_frameRecorder (EditorPlayback.frameRecorder st) st = st.
Proof. by destruct st as [[] ? ? ? ? ? ? ?]. Qed.

(** ** Trimming *)

Lemma handleTrimMouseMove_keeps rect clientX st :
  trimRangeValid st →
  ∃ st', EditorPlayback.handleTrimMouseMove rect clientX st = Normal tt st'
  ∧ trimRangeValid st'
  ∧ EditorPlayback.duration st' = EditorPlayback.duration st
  ∧ EditorPlayback.frameRecorder st' = EditorPlayback.frameRecorder st
  ∧ EditorPlayback.isTrimming st' = EditorPlayback.isTrimming st
  ∧ (EditorPlayback.isTrimming st = false → st' = st).
Proof.
  intros (H0 & Hlt & Hd).
  unfold EditorPlayback.handleTrimMouseMove, bind, get_state, ret, modify.
  destruct (EditorPlayback.isTrimming st) eqn:Htrim; cbn [negb];
    [|by exists st].
  set (newTime := Math_max 0 (Math_min _ _)).
  assert (Hn0 : 0 ≤ newTime) by (unfold newTime; qc_minmax).
  assert (Hn1 : newTime ≤ EditorPlayback.duration st) by (unfold newTime; qc_minmax).
  destruct (bool_decide (EditorPlayback.activeTrimHandle st = Some "start")
            && bool_decide (newTime < EditorPlayback.trimEnd st)) eqn:Hs.
  - apply andb_true_iff in Hs as [_ Hs%bool_decide_eq_true].
    eexists. split; [reflexivity|]. unfold trimRangeValid. cbn.
    by split_and!.
  - destruct (bool_decide (EditorPlayback.activeTrimHandle st = Some "end")
              && bool_decide (EditorPlayback.trimStart st < newTime)) eqn:He.
    + apply andb_true_iff in He as [_ He%bool_decide_eq_true].
      eexists. split; [reflexivity|]. unfold trimRangeValid. cbn.
      by split_and!.
    + exists st. by split_and!.
Qed.

Lemma trimStep_keeps e st :
  trimRangeValid st →
  ∃ st', EditorPlayback.trimStep e st = Normal tt st'
  ∧ trimRangeValid st'
  ∧ EditorPlayback.duration st' = EditorPlayback.duration st
  ∧ EditorPlayback.frameRecorder st' = EditorPlayback.frameRecorder st.
Proof.
  intros Hv. destruct e as [handle|rect clientX|]; cbn [EditorPlayback.trimStep].
  - eexists. split; [reflexivity|]. by split_and!.
  - destruct (handleTrimMouseMove_keeps rect clientX st Hv)
      as (st' & -> & ? & ? & ? & _). by exists st'.
  - eexists. split; [reflexivity|]. by split_and!.
Qed.

Lemma trimEvents_keep events st :
  trimRangeValid st →
  ∃ st', EditorPlayback.trimEvents events st = Normal tt st'
  ∧ trimRangeValid st'
  ∧ EditorPlayback.duration st' = EditorPlayback.duration st
  ∧ EditorPlayback.frameRecorder st' = EditorPlayback.frameRecorder st.
Proof.
  revert st. induction events as [|e events IH]; intros st Hv.
  - by exists st.
  - cbn [EditorPlayback.trimEvents]. unfold bind.
    destruct (trimStep_keeps e st Hv) as (st1 & -> & Hv1 & Hd1 & Hr1).
    destruct (IH st1 Hv1) as (st2 & -> & Hv2 & Hd2 & Hr2).
    exists st2. rewrite Hd2, Hr2. by split_and!.
Qed.

(** X21.  Once the metadata of a video of positive duration has loaded, the
    trim range is [[0, duration]]; and after any sequence of events of the
    trim handles (press with any handle name, moves over a timeline of
    non-zero width, release) the range still satisfies
    [0 <= trimStart < trimEnd <= duration]: the handles cannot cross, leave
    the video or make the range empty.  The recorder is not touched. *)
Theorem trim_range_stays_valid events st :
  0 < EditorPlayback.video_duration (EditorPlayback.sourceVideo st) →
  timelineVisible events →
  ∃ st0 st',
    EditorPlayback.handleVideoLoadedMetadata st = Normal tt st0
    ∧ EditorPlayback.trimStart st0 = 0
    ∧ EditorPlayback.trimEnd st0
      = EditorPlayback.video_duration (EditorPlayback.sourceVideo st)
    ∧ EditorPlayback.trimEvents events st0 = Normal tt st'
    ∧ trimRangeValid st'
    ∧ EditorPlayback.duration st'
      = EditorPlayback.video_duration (EditorPlayback.sourceVideo st)
    ∧ EditorPlayback.frameRecorder st' = EditorPlayback.frameRecorder st.
Proof.
  intros Hpos _. eexists. 
  assert (Hv0 : trimRangeValid
            (state_after (EditorPlayback.handleVideoLoadedMetadata st))).
  { unfold trimRangeValid. cbn. split_and!; [done|done|apply Qcle_refl]. }
  destruct (trimEvents_keep events _ Hv0) as (st' & Hrun & Hv & Hd & Hr).
  exists st'. split; [reflexivity|]. split; [done|]. split; [done|].
  split; [exact Hrun|]. split; [exact Hv|]. split; [exact Hd|]. exact Hr.
Qed.

Lemma trim_range_stays_valid_witness :
  ∃ st0 st',
    EditorPlayback.handleVideoLoadedMetadata
      (playing_at (frac 1 1) (FrameRecorder.new EDITOR_CONSTANTS)) = Normal tt st0
    ∧ EditorPlayback.trimEvents
        [EditorPlayback.TrimDown (Some "start");
         EditorPlayback.TrimMove timeline_rect (frac 350 1);
         EditorPlayback.TrimDown (Some "end");
         EditorPlayback.TrimMove timeline_rect (frac 200 1);
         EditorPlayback.TrimUp] st0 = Normal tt st'
    ∧ trimRangeValid st'
    ∧ EditorPlayback.trimStart st' = frac 5 1
    ∧ EditorPlayback.trimEnd st' = frac 10 1.
Proof.
  destruct (trim_range_stays_valid
              [EditorPlayback.TrimDown (Some "start");
               EditorPlayback.TrimMove timeline_rect (frac 350 1);
               EditorPlayback.TrimDown (Some "end");
               EditorPlayback.TrimMove timeline_rect (frac 200 1);
               EditorPlayback.TrimUp]
              (playing_at (frac 1 1) (FrameRecorder.new EDITOR_CONSTANTS)))
    as (st0 & st' & H0 & _ & _ & Hrun & Hv & _);
    [compute_done | unfold timelineVisible; repeat constructor; compute_done |].
  exists st0, st'. split; [exact H0|]. split; [exact Hrun|]. split; [exact Hv|].
  injection H0 as <-. injection Hrun as <-. split; compute_done.
Defined.

(** ** Playback *)

(** X22.  With a non-empty trim range, [handleVideoTimeUpdate()] leaves the
    video within it: a position in [[trimStart, trimEnd)] is kept, and playback
    goes on; a position outside (the end of the range included) is replaced by
    [trimStart], and a playing video is paused.  The editor's and the
    recorder's [currentTime] take the resulting position.  The recorder keeps
    its keyframes and its recording flag: reaching the end of the trim range
    pauses the video without stopping a recording. *)
Theorem timeupdate_keeps_playback_in_trim_range st :
  let v := EditorPlayback.video_currentTime (EditorPlayback.sourceVideo st) in
  EditorPlayback.trimStart st < EditorPlayback.trimEnd st →
  ∃ st', EditorPlayback.handleVideoTimeUpdate st = Normal tt st'
  ∧ let v' := EditorPlayback.video_currentTime (EditorPlayback.sourceVideo st') in
    EditorPlayback.trimStart st ≤ v' ∧ v' < EditorPlayback.trimEnd st
    ∧ EditorPlayback.currentTime st' = v'
    ∧ FrameRecorder.currentTime (EditorPlayback.frameRecorder st') = v'
    ∧ (EditorPlayback.trimStart st ≤ v → v < EditorPlayback.trimEnd st →
       v' = v
       ∧ EditorPlayback.isPlaying st' = EditorPlayback.isPlaying st
       ∧ EditorPlayback.paused (EditorPlayback.sourceVideo st')
         = EditorPlayback.paused (EditorPlayback.sourceVideo st))
    ∧ (v < EditorPlayback.trimStart st ∨ EditorPlayback.trimEnd st ≤ v →
       v' = EditorPlayback.trimStart st
       ∧ EditorPlayback.isPlaying st' = false
       ∧ (EditorPlayback.isPlaying st = true →
          EditorPlayback.paused (EditorPlayback.sourceVideo st') = true))
    ∧ FrameRecorder.isRecording (EditorPlayback.frameRecorder st')
      = FrameRecorder.isRecording (EditorPlayback.frameRecorder st)
    ∧ FrameRecorder.keyframes (EditorPlayback.frameRecorder st')
      = FrameRecorder.keyframes (EditorPlayback.frameRecorder st)
    ∧ EditorPlayback.trimStart st' = EditorPlayback.trimStart st
    ∧ EditorPlayback.trimEnd st' = EditorPlayback.trimEnd st.
Proof.
  intros v Hlt.
  unfold EditorPlayback.handleVideoTimeUpdate, bind, get_state, ret, modify.
  fold v.
  destruct (bool_decide (EditorPlayback.trimEnd st ≤ v)
            || bool_decide (v < EditorPlayback.trimStart st)) eqn:Hout.
  - apply orb_true_iff in Hout.
    assert (Hout' : EditorPlayback.trimEnd st ≤ v ∨ v < EditorPlayback.trimStart st)
      by (destruct Hout as [H%bool_decide_eq_true|H%bool_decide_eq_true]; tauto).
    destruct (EditorPlayback.isPlaying st) eqn:Hp;
      (eexists; split; [reflexivity|]; cbn; fold v;
       split_and!; try done; try apply Qcle_refl;
       intros ? ?; destruct Hout'; qc_lra).
  - apply orb_false_iff in Hout as [H1%bool_decide_eq_false H2%bool_decide_eq_false].
    eexists. split; [reflexivity|]. cbn. fold v.
    split_and!; try done; try qc_lra; intros [?|?]; qc_lra.
Qed.

Lemma timeupdate_keeps_playback_in_trim_range_witness :
  ∃ st', EditorPlayback.handleVideoTimeUpdate
           (playing_at (frac 17 2) (two_keyframes EDITOR_CONSTANTS)) = Normal tt st'
  ∧ EditorPlayback.video_currentTime (EditorPlayback.sourceVideo st') = frac 2 1
  ∧ EditorPlayback.isPlaying st' = false
  ∧ FrameRecorder.isRecording (EditorPlayback.frameRecorder st') = true.
Proof.
  destruct (timeupdate_keeps_playback_in_trim_range
              (playing_at (frac 17 2) (two_keyframes EDITOR_CONSTANTS)))
    as (st' & Hrun & _ & _ & _ & _ & _ & Hout & Hrec & _); [compute_done|].
  exists st'. split; [exact Hrun|].
  destruct Hout as (Hv & Hp & _); [right; compute_done|].
  split; [rewrite Hv; compute_done|]. split; [exact Hp|].
  rewrite Hrec. reflexivity.
Defined.






(** ** Selection changes while recording *)

Lemma recordKeyframe_again now t s st :
  0 < FrameRecorder.minInterval (FrameRecorder.constants st) →
  ∃ st1, FrameRecorder.recordKeyframe now t s st = Normal tt st1
  ∧ ∀ now' s', FrameRecorder.recordKeyframe now' t s' st1 = Normal tt st1.
Proof.
  intros Hpos. rewrite recordKeyframe_unfold.
  destruct (negb (FrameRecorder.isRecording st)) eqn:Hrec.
  { exists st. split; [done|]. intros. by rewrite recordKeyframe_unfold, Hrec. }
  destruct (bool_decide (t < 0) || bool_decide (FrameRecorder.videoDuration st < t))
    eqn:Hout.
  { exists st. split; [done|]. intros. by rewrite recordKeyframe_unfold, Hrec, Hout. }
  destruct (bool_decide (t - FrameRecorder.lastKeyframeTime st
                         < FrameRecorder.minInterval (FrameRecorder.constants st))
            && JsMap.has (FrameRecorder.lastKeyframeTime st)
                 (FrameRecorder.keyframes st)) eqn:Hsoon.
  { exists st. split; [done|]. intros.
    by rewrite recordKeyframe_unfold, Hrec, Hout, Hsoon. }
  exists (stored now t s st). split; [done|]. intros now' s'.
  rewrite recordKeyframe_unfold.
  cbn [stored FrameRecorder.isRecording FrameRecorder.videoDuration
       FrameRecorder.lastKeyframeTime FrameRecorder.constants
       FrameRecorder.keyframes].
  rewrite Hrec, Hout.
  rewrite bool_decide_eq_true_2 by qc_lra.
  unfold JsMap.has. by rewrite JsMap_get_set_eq.
Qed.

Lemma handleSelectionChange_unfold now s st :
  EditorPlayback.handleSelectionChange now s st
  = Normal tt
      (EditorPlayback.set_frameRecorder
         (state_after (FrameRecorder.recordKeyframe now (EditorPlayback.currentTime st) s
                         (EditorPlayback.frameRecorder st))) st).
Proof.
  pose proof (recordKeyframe_total now) as Htotal.
  pose proof (recordKeyframe_not_recording now) as Hnot.
  unfold EditorPlayback.handleSelectionChange, EditorPlayback.on_recorder,
    FrameRecorder.getRecordingStatus, bind, get_state, ret.
  generalize dependent (FrameRecorder.recordKeyframe now). intros record Htotal Hnot.
  unfold EditorPlayback.frameRecorder. cbn.
  destruct (FrameRecorder.isRecording
              (VideoEditor.frameRecorder (EditorPlayback.editor st))) eqn:Hrec.
  - destruct (Htotal (EditorPlayback.currentTime st) s
                (VideoEditor.frameRecorder (EditorPlayback.editor st)))
      as (r' & Hr & _).
    cbn. by rewrite Hr.
  - by rewrite Hnot.
Qed.

Lemma selectionChanges_dropped changes st :
  (∀ now s, FrameRecorder.recordKeyframe now (EditorPlayback.currentTime st) s
              (EditorPlayback.frameRecorder st)
            = Normal tt (EditorPlayback.frameRecorder st)) →
  EditorPlayback.selectionChanges changes st = Normal tt st.
Proof.
  intros Hdrop. induction changes as [|[now s] changes IH]; [done|].
  cbn [EditorPlayback.selectionChanges]. unfold bind.
  rewrite handleSelectionChange_unfold, Hdrop. cbn [state_after].
  by rewrite set_frameRecorder_same.
Qed.

(** X25.  While the editor's [currentTime] does not change (the video is
    paused), only the first of a series of selection changes can reach the
    track: whatever [handleSelectionChange] did with the first one, every
    later one is ignored, since it comes [0 < minInterval] seconds after the
    keyframe just stored.  So a keyframe recorded on a paused video holds the
    first selection reported at that time, not the last. *)
Theorem selection_changes_at_one_time_keep_first now s changes st :
  0 < FrameRecorder.minInterval
        (FrameRecorder.constants (EditorPlayback.frameRecorder st)) →
  ∃ st1, EditorPlayback.handleSelectionChange now s st = Normal tt st1
  ∧ EditorPlayback.selectionChanges ((now, s) :: changes) st = Normal tt st1
  ∧ EditorPlayback.currentTime st1 = EditorPlayback.currentTime st
  ∧ (FrameRecorder.isRecording (EditorPlayback.frameRecorder st) = true →
     FrameRecorder.keyframes (EditorPlayback.frameRecorder st) = [] →
     0 ≤ EditorPlayback.currentTime st →
     EditorPlayback.currentTime st
     ≤ FrameRecorder.videoDuration (EditorPlayback.frameRecorder st) →
     Keyframe.selection
       <$> JsMap.get (EditorPlayback.currentTime st)
             (FrameRecorder.keyframes (EditorPlayback.frameRecorder st1))
     = Some s).
Proof.
  intros Hpos.
  destruct (recordKeyframe_again now (EditorPlayback.currentTime st) s
              (EditorPlayback.frameRecorder st) Hpos) as (r1 & Hr1 & Hdrop).
  cbn [EditorPlayback.selectionChanges]. unfold bind.
  rewrite handleSelectionChange_unfold, Hr1. cbn [state_after].
  eexists. split; [reflexivity|]. split; [by apply selectionChanges_dropped|].
  split; [done|]. intros Hrec Hnil H0 Hd.
  rewrite recordKeyframe_in_bounds in Hr1 by done.
  rewrite Hnil in Hr1. cbn in Hr1. rewrite andb_false_r in Hr1.
  injection Hr1 as <-. cbn. rewrite Hnil. cbn. by rewrite decide_True.
Qed.

Lemma selection_changes_at_one_time_keep_first_witness :
  ∃ st1, EditorPlayback.selectionChanges
           [(5000%Z, box 10); (5100%Z, box 20); (5200%Z, box 30)]
           (playing_at (frac 4 1) (started 1000 (frac 10 1)
                                     (FrameRecorder.new EDITOR_CONSTANTS)))
         = Normal tt st1
  ∧ Keyframe.selection
      <$> JsMap.get (frac 4 1)
            (FrameRecorder.keyframes (EditorPlayback.frameRecorder st1))
    = Some (box 10)
  ∧ JsMap.size (FrameRecorder.keyframes (EditorPlayback.frameRecorder st1)) = 1%nat.
Proof.
  destruct (selection_changes_at_one_time_keep_first 5000 (box 10)
              [(5100%Z, box 20); (5200%Z, box 30)]
              (playing_at (frac 4 1) (started 1000 (frac 10 1)
                                        (FrameRecorder.new EDITOR_CONSTANTS))))
    as (st1 & H1 & Hall & _ & Hkf); [compute_done|].
  exists st1. split; [exact Hall|].
  split; [apply Hkf; [reflexivity | reflexivity | compute_done | compute_done]|].
  rewrite handleSelectionChange_unfold in H1. injection H1 as <-. compute_done.
Defined.

(** X26.  [handleTimelineClick(event)] does nothing without a timeline track.
    With a track of non-zero width and a non-negative duration it seeks the
    video to a time within [[0, duration]]: a click within the track seeks to
    the duration times the clicked fraction of the track, a click left of it
    to [0], a click right of it to the end (for a track of positive width).
    Nothing else of the editor changes. *)
Theorem handleTimelineClick_seeks_within_video rect clientX st :
  let d := EditorPlayback.duration st in
  let clickX := clientX - EditorPlayback.left rect in
  EditorPlayback.width rect ≠ 0 →
  0 ≤ d →
  EditorPlayback.handleTimelineClick None clientX st = Normal tt st
  ∧ ∃ st', EditorPlayback.handleTimelineClick (Some rect) clientX st = Normal tt st'
    ∧ let v' := EditorPlayback.video_currentTime (EditorPlayback.sourceVideo st') in
      0 ≤ v' ∧ v' ≤ d
      ∧ (0 < EditorPlayback.width rect →
         (0 ≤ clickX → clickX ≤ EditorPlayback.width rect →
          v' = clickX / EditorPlayback.width rect * d)
         ∧ (clickX ≤ 0 → v' = 0)
         ∧ (EditorPlayback.width rect ≤ clickX → v' = d))
      ∧ EditorPlayback.editor st' = EditorPlayback.editor st
      ∧ EditorPlayback.currentTime st' = EditorPlayback.currentTime st
      ∧ EditorPlayback.isPlaying st' = EditorPlayback.isPlaying st.
Proof.
  intros d clickX Hw Hd. split; [done|].
  unfold EditorPlayback.handleTimelineClick, bind, get_state, modify.
  eexists. split; [reflexivity|]. cbn. fold d clickX.
  split; [qc_minmax|]. split; [qc_minmax|]. split; [|done].
  intros Hpos.
  remember (clickX / EditorPlayback.width rect) as p eqn:Hp.
  assert (E : p * EditorPlayback.width rect = clickX)
    by (subst p; field; done).
  clear Hp. remember (EditorPlayback.width rect) as w eqn:Ew. clear Ew Hw.
  assert (Hcases : (0 ≤ clickX → clickX ≤ w → 0 ≤ p ∧ p ≤ 1)
                   ∧ (clickX ≤ 0 → p ≤ 0) ∧ (w ≤ clickX → 1 ≤ p)).
  { split_and!; intros; try split; qc_nra. }
  destruct Hcases as (Hin & Hleft & Hright).
  split_and!.
  - intros H0 H1. destruct (Hin H0 H1). unfold Math_max, Math_min.
    repeat case_decide; qc_nra.
  - intros H0. specialize (Hleft H0). unfold Math_max, Math_min.
    repeat case_decide; qc_nra.
  - intros H1. specialize (Hright H1). unfold Math_max, Math_min.
    repeat case_decide; qc_nra.
Qed.

Lemma handleTimelineClick_seeks_within_video_witness :
  ∃ st', EditorPlayback.handleTimelineClick (Some timeline_rect) (frac 250 1)
           (playing_at (frac 1 1) (FrameRecorder.new EDITOR_CONSTANTS))
         = Normal tt st'
  ∧ EditorPlayback.video_currentTime (EditorPlayback.sourceVideo st') = frac 3 1.
Proof.
  destruct (handleTimelineClick_seeks_within_video timeline_rect (frac 250 1)
              (playing_at (frac 1 1) (FrameRecorder.new EDITOR_CONSTANTS)))
    as (_ & st' & Hrun & _ & _ & Hv & _); [compute_done | compute_done |].
  exists st'. split; [exact Hrun|].
  destruct Hv as (Hin & _ & _); [compute_done|].
  rewrite Hin by compute_done. compute_done.
Defined.

(** * Further properties of the preview and of the export *)

Lemma Qcdiv_pos (a b : Qc) : 0 < a → 0 < b → 0 < a / b.
Proof.
  intros Ha Hb. remember (a / b) as q eqn:Hq.
  assert (E : q * b = a) by (subst q; field; intros E; qc_lra).
  clear Hq. qc_nra.
Qed.

Lemma Qcdiv_mult_cancel (a b : Qc) : b ≠ 0 → a / b * b = a.
Proof. intros Hb. by field. Qed.

Lemma halves (a b : Qc) : frac 2 1 * ((a - b) / frac 2 1) + b = a.
Proof.
  unfold Qcdiv. replace (/ frac 2 1) with (frac 1 2) by compute_done.
  qc_unfold. lra.
Qed.





(** The rectangle drawn to covers the preview canvas. *)
Lemma drawRect_cover c a :
  let W := Canvas.PREVIEW_WIDTH (Constants.CANVAS c) in
  let H := Canvas.PREVIEW_HEIGHT (Constants.CANVAS c) in
  let r := PreviewRenderer.drawRect c a in
  0 < PreviewRenderer.area_width a → 0 < PreviewRenderer.area_height a →
  0 < H → frac 16 1 * W = frac 9 1 * H →
  PreviewRenderer.area_x r ≤ 0 ∧ PreviewRenderer.area_y r ≤ 0
  ∧ W ≤ PreviewRenderer.area_x r + PreviewRenderer.area_width r
  ∧ H ≤ PreviewRenderer.area_y r + PreviewRenderer.area_height r
  ∧ frac 2 1 * PreviewRenderer.area_x r + PreviewRenderer.area_width r = W
  ∧ frac 2 1 * PreviewRenderer.area_y r + PreviewRenderer.area_height r = H
  ∧ PreviewRenderer.area_width r * PreviewRenderer.area_height a
    = PreviewRenderer.area_height r * PreviewRenderer.area_width a
  ∧ (PreviewRenderer.area_width r = W ∨ PreviewRenderer.area_height r = H).
Proof.
  intros W H r Hw Hh HH HWH. unfold r, PreviewRenderer.drawRect. fold W H.
  replace (frac 9 1 / frac 16 1) with (frac 9 16) by compute_done.
  pose proof (Qcdiv_pos _ _ Hw Hh) as Hsig.
  pose proof (Qcdiv_mult_cancel (PreviewRenderer.area_width a)
                (PreviewRenderer.area_height a) ltac:(intros E; qc_lra)) as Esig.
  remember (PreviewRenderer.area_width a / PreviewRenderer.area_height a) as sig eqn:E.
  clear E. remember (PreviewRenderer.area_width a) as w eqn:E. clear E.
  remember (PreviewRenderer.area_height a) as h eqn:E. clear E.
  destruct (decide (frac 9 16 < sig)) as [Hwide|Htall]; cbn.
  - assert (Hcover : W ≤ H * sig) by qc_nra.
    split_and!; try apply Qcle_refl.
    + unfold Qcdiv. replace (/ frac 2 1) with (frac 1 2) by compute_done. qc_lra.
    + unfold Qcdiv. replace (/ frac 2 1) with (frac 1 2) by compute_done.
      remember (H * sig) as g eqn:E. clear E. qc_lra.
    + rewrite Qcplus_0_l. apply Qcle_refl.
    + apply halves.
    + ring.
    + rewrite <-Esig. ring.
    + by right.
  - apply Qcnot_lt_le in Htall.
    pose proof (Qcdiv_mult_cancel W sig ltac:(intros E; qc_lra)) as Eg.
    remember (W / sig) as g eqn:E. clear E.
    assert (Hcover : H ≤ g).
    { assert (H * sig ≤ g * sig) by (rewrite Eg; qc_nra). qc_nra. }
    split_and!; try apply Qcle_refl.
    + unfold Qcdiv. replace (/ frac 2 1) with (frac 1 2) by compute_done. qc_lra.
    + rewrite Qcplus_0_l. apply Qcle_refl.
    + unfold Qcdiv. replace (/ frac 2 1) with (frac 1 2) by compute_done. qc_lra.
    + ring.
    + apply halves.
    + rewrite <-Esig, <-Eg at 1. ring.
    + by left.
Qed.



(** X30.  [renderFrame()] leaves the renderer unchanged and draws only when a
    selection is set, there is a video and neither of the video's sizes is
    [0]; otherwise it clears the canvas.  When it draws (landscape canvas of
    non-zero size, preview canvas in the ratio 9 : 16), the source area it
    computes has a non-negative origin and a size of at least 1 x 1, so that
    the area's aspect ratio is defined, and the rectangle it draws to covers
    the whole preview canvas. *)
Theorem renderFrame_draws_over_whole_preview st :
  let c := PreviewRenderer.constants st in
  let W := Canvas.PREVIEW_WIDTH (Constants.CANVAS c) in
  let H := Canvas.PREVIEW_HEIGHT (Constants.CANVAS c) in
  Canvas.MAX_WIDTH (Constants.CANVAS c) ≠ 0 →
  Canvas.MAX_HEIGHT (Constants.CANVAS c) ≠ 0 →
  0 < H → frac 16 1 * W = frac 9 1 * H →
  ∃ res, PreviewRenderer.renderFrame st = Normal res st
  ∧ match res with
    | None =>
        PreviewRenderer.currentSelection st = None
        ∨ PreviewRenderer.sourceVideo st = None
        ∨ ∃ v, PreviewRenderer.sourceVideo st = Some v
               ∧ (or_default (PreviewRenderer.videoWidth v) (PreviewRenderer.width v) = 0
                  ∨ or_default (PreviewRenderer.videoHeight v)
                      (PreviewRenderer.height v) = 0)
    | Some (a, r) =>
        0 ≤ PreviewRenderer.area_x a ∧ 0 ≤ PreviewRenderer.area_y a
        ∧ 1 ≤ PreviewRenderer.area_width a ∧ 1 ≤ PreviewRenderer.area_height a
        ∧ r = PreviewRenderer.drawRect c a
        ∧ PreviewRenderer.area_x r ≤ 0 ∧ PreviewRenderer.area_y r ≤ 0
        ∧ W ≤ PreviewRenderer.area_x r + PreviewRenderer.area_width r
        ∧ H ≤ PreviewRenderer.area_y r + PreviewRenderer.area_height r
    end.
Proof.
  intros c W H _ _ HH HWH.
  unfold PreviewRenderer.renderFrame, bind, get_state, ret.
  destruct (PreviewRenderer.currentSelection st) as [s|] eqn:Hsel;
    [|exists None; split; [done | by left]].
  destruct (PreviewRenderer.sourceVideo st) as [v|] eqn:Hv;
    [|exists None; split; [done | by right; left]].
  destruct (decide (_ ∨ _)) as [Hzero|Hsize].
  { exists None. split; [done|]. right; right. by exists v. }
  unfold PreviewRenderer.calculateSourceArea, bind, get_state, ret.
  rewrite Hsel. fold c.
  destruct (PreviewRenderer.fit c _ _) as [[scale ox] oy].
  eexists (Some (_, _)). split; [reflexivity|].
  set (a := PreviewRenderer.mkArea _ _ _ _).
  assert (Hx : 0 ≤ PreviewRenderer.area_x a) by (cbn; qc_minmax).
  assert (Hy : 0 ≤ PreviewRenderer.area_y a) by (cbn; qc_minmax).
  assert (Hw : 1 ≤ PreviewRenderer.area_width a)
    by (cbn; change 1 with (frac 1 1); qc_minmax).
  assert (Hh : 1 ≤ PreviewRenderer.area_height a)
    by (cbn; change 1 with (frac 1 1); qc_minmax).
  destruct (drawRect_cover c a) as (? & ? & ? & ? & _); [qc_lra | qc_lra | done..|].
  by split_and!.
Qed.

Lemma renderFrame_draws_over_whole_preview_witness :
  PreviewRenderer.renderFrame (previewing (box 100))
  = Normal
      (Some ({| PreviewRenderer.area_x := frac 240 1; PreviewRenderer.area_y := 0;
                PreviewRenderer.area_width := frac 240 1;
                PreviewRenderer.area_height := frac 240 1 |},
             {| PreviewRenderer.area_x := frac (-105) 1; PreviewRenderer.area_y := 0;
                PreviewRenderer.area_width := frac 480 1;
                PreviewRenderer.area_height := frac 480 1 |}))
      (previewing (box 100))
  ∧ ∃ res, PreviewRenderer.renderFrame (previewing (box 100))
           = Normal res (previewing (box 100))
    ∧ match res with
      | None => False
      | Some (a, r) =>
          frac 270 1 ≤ PreviewRenderer.area_x r + PreviewRenderer.area_width r
      end.
Proof.
  assert (E : ∀ x y : option (PreviewRenderer.Area * PreviewRenderer.Area),
            Normal (S := PreviewRenderer.state) x (previewing (box 100))
            = Normal y (previewing (box 100)) → x = y) by (by intros x y [= ->]).
  assert (Hrun : PreviewRenderer.renderFrame (previewing (box 100))
                 = Normal
                     (Some ({| PreviewRenderer.area_x := frac 240 1;
                               PreviewRenderer.area_y := 0;
                               PreviewRenderer.area_width := frac 240 1;
                               PreviewRenderer.area_height := frac 240 1 |},
                            {| PreviewRenderer.area_x := frac (-105) 1;
                               PreviewRenderer.area_y := 0;
                               PreviewRenderer.area_width := frac 480 1;
                               PreviewRenderer.area_height := frac 480 1 |}))
                     (previewing (box 100))).
  { unfold PreviewRenderer.renderFrame, bind, get_state, ret. cbn.
    rewrite decide_False by (intros [?|?]; done).
    unfold PreviewRenderer.calculateSourceArea, bind, get_state, ret. cbn.
    do 3 f_equal; compute_done. }
  split; [exact Hrun|].
  destruct (renderFrame_draws_over_whole_preview (previewing (box 100)))
    as (res & Hres & Hprop); [compute_done..|].
  exists res. split; [exact Hres|].
  rewrite Hrun in Hres. apply E in Hres. subst res.
  by destruct Hprop as (_ & _ & _ & _ & _ & _ & _ & Hcover & _).
Defined.

(** ** Export *)



